(** * Artisan marketplace: the dashboard handlers and the captioning pipeline

    A shallow embedding of [artisan_marketplace_ai.py] (login, signup, image
    intake, generate, save), of [blip_pipeline.py] (caption expansion, the
    JSON caption cache, [process_single_image], the batch run) and of the
    script [renamephotos.py], with the properties the specification states
    about them and further properties read off the code.

    Conventions of the model.
    - A Python [str] is the list of its Unicode code points ([N]); text is
      assumed well formed (no lone surrogate), as Tk widgets deliver it.
    - Paths follow [posixpath].
    - The MongoDB collections are lists of documents in insertion order;
      [find_one] returns the first match and [insert_one] draws an [_id]
      that no document of the collection carries.
    - Calls that leave the process (the vision model, the hosted text model,
      the image viewer, the clock) are inputs of the functions that make them;
      a call that can raise delivers an [outcome].
    - What the operating system makes of a write (the copy of an image, the
      rewriting of the cache file) is an input as well: the write goes
      through, is refused, or breaks off and leaves a part behind.
    - An exception is an instance of [Exception] or it is not (as
      [KeyboardInterrupt] and [SystemExit]); [except Exception] catches the
      first kind only.
    - Dialog boxes and console lines are collected in an output list. *)

From Stdlib Require Import Ascii String DecimalString.
From Stdlib Require Import NArith ZArith Bool Lia List.
From Stdlib Require DecimalPos DecimalZ.
From Stdlib Require Import Permutation.
Import ListNotations.

Local Open Scope N_scope.

(* ------------------------------------------------------------------ *)
(** ** Text *)

Definition char := N.
Definition str := list char.

(** A string literal of the source, as code points. *)
Definition lit (s : string) : str := map N_of_ascii (list_ascii_of_string s).
Arguments lit s%_string.

Definition char_in (lo hi c : char) : bool := (lo <=? c) && (c <=? hi).

(** [str.isspace] for one character: the white space of the Unicode
    character database, as CPython tabulates it. *)
Definition isspace (c : char) : bool :=
  char_in 0x09 0x0D c || char_in 0x1C 0x20 c || (c =? 0x85) || (c =? 0xA0)
  || (c =? 0x1680) || char_in 0x2000 0x200A c || (c =? 0x2028) || (c =? 0x2029)
  || (c =? 0x202F) || (c =? 0x205F) || (c =? 0x3000).

Fixpoint lstrip (s : str) : str :=
  match s with
  | [] => []
  | c :: t => if isspace c then lstrip t else s
  end.

Definition rstrip (s : str) : str := rev (lstrip (rev s)).

(** [s.strip()] *)
Definition strip (s : str) : str := rstrip (lstrip s).

Definition str_eqb (a b : str) : bool :=
  if list_eq_dec N.eq_dec a b then true else false.

(** Truth value of a string: [not s] is [s == ""]. *)
Definition nonempty (s : str) : bool :=
  match s with [] => false | _ :: _ => true end.

(** [int.__str__]: a decimal numeral, with a sign when negative. *)
Definition str_of_Z (z : Z) : str := lit (NilZero.string_of_int (Z.to_int z)).

(** [s.encode()]: UTF-8. *)
Definition utf8_char (c : char) : list N :=
  if c <? 0x80 then [c]
  else if c <? 0x800 then
    [N.lor 0xC0 (N.shiftr c 6); N.lor 0x80 (N.land c 0x3F)]
  else if c <? 0x10000 then
    [N.lor 0xE0 (N.shiftr c 12); N.lor 0x80 (N.land (N.shiftr c 6) 0x3F);
     N.lor 0x80 (N.land c 0x3F)]
  else
    [N.lor 0xF0 (N.shiftr c 18); N.lor 0x80 (N.land (N.shiftr c 12) 0x3F);
     N.lor 0x80 (N.land (N.shiftr c 6) 0x3F); N.lor 0x80 (N.land c 0x3F)].

Definition encode (s : str) : list N := flat_map utf8_char s.

(* ------------------------------------------------------------------ *)
(** ** SHA-256 ([hashlib.sha256]), on 32-bit words held in [N] *)

Module Sha256.

Definition w32 (x : N) : N := x mod 2 ^ 32.
Definition add32 (x y : N) : N := w32 (x + y).
Definition not32 (x : N) : N := N.lxor x 0xFFFFFFFF.
Definition rotr (n x : N) : N := N.lor (N.shiftr x n) (w32 (N.shiftl x (32 - n))).

Definition Ch (x y z : N) := N.lxor (N.land x y) (N.land (not32 x) z).
Definition Maj (x y z : N) := N.lxor (N.lxor (N.land x y) (N.land x z)) (N.land y z).
Definition Sigma0 x := N.lxor (N.lxor (rotr 2 x) (rotr 13 x)) (rotr 22 x).
Definition Sigma1 x := N.lxor (N.lxor (rotr 6 x) (rotr 11 x)) (rotr 25 x).
Definition sigma0 x := N.lxor (N.lxor (rotr 7 x) (rotr 18 x)) (N.shiftr x 3).
Definition sigma1 x := N.lxor (N.lxor (rotr 17 x) (rotr 19 x)) (N.shiftr x 10).

(** The primes below 312: the first sixty-four. *)
Definition is_prime (n : nat) : bool :=
  forallb (fun d => negb (Nat.eqb (Nat.modulo n d) 0)) (seq 2 (n - 2)).

Definition primes : list N := map N.of_nat (filter is_prime (seq 2 310)).

(** The integer cube root, bit by bit from bit [bits - 1] down. *)
Fixpoint cube_root (bits : nat) (r n : N) : N :=
  match bits with
  | O => r
  | S b =>
      let r' := r + 2 ^ N.of_nat b in
      cube_root b (if r' * r' * r' <=? n then r' else r) n
  end.

(** The round constants: the first thirty-two bits of the fractional parts
    of the cube roots of the primes. *)
Definition K : list N :=
  map (fun p => w32 (cube_root 36 0 (p * 2 ^ 96))) primes.

(** The initial hash value: the same of the square roots of the first
    eight primes. *)
Definition H0 : list N :=
  map (fun p => w32 (N.sqrt (p * 2 ^ 64))) (firstn 8 primes).

(** Big-endian bytes of [x], [n] of them. *)
Fixpoint be_bytes (n : nat) (x : N) : list N :=
  match n with
  | O => []
  | S k => be_bytes k (N.shiftr x 8) ++ [N.land x 0xFF]
  end.

Definition be_word (bs : list N) : N :=
  fold_left (fun acc b => N.lor (N.shiftl acc 8) b) bs 0.

(** The message, the bit 1, zeros up to 56 modulo 64, the bit length. *)
Definition pad (msg : list N) : list N :=
  let len := N.of_nat (length msg) in
  let zeros := (64 - (len + 9) mod 64) mod 64 in
  msg ++ [0x80] ++ repeat 0 (N.to_nat zeros) ++ be_bytes 8 (8 * len).

Fixpoint chunks (size fuel : nat) (l : list N) : list (list N) :=
  match fuel, l with
  | O, _ | _, [] => []
  | S f, _ => firstn size l :: chunks size f (skipn size l)
  end.

(** The message schedule, newest word first. *)
Fixpoint extend (n : nat) (rw : list N) : list N :=
  match n with
  | O => rw
  | S k =>
      let wt := add32 (add32 (sigma1 (nth 1 rw 0)) (nth 6 rw 0))
                      (add32 (sigma0 (nth 14 rw 0)) (nth 15 rw 0)) in
      extend k (wt :: rw)
  end.

Definition schedule (block : list N) : list N :=
  rev (extend 48 (rev (map be_word (chunks 4 16 block)))).

Definition round (s : list N) (kw : N * N) : list N :=
  match s with
  | [a; b; c; d; e; f; g; h] =>
      let t1 := add32 (add32 (add32 h (Sigma1 e)) (add32 (Ch e f g) (fst kw))) (snd kw) in
      let t2 := add32 (Sigma0 a) (Maj a b c) in
      [add32 t1 t2; a; b; c; add32 d t1; e; f; g]
  | _ => s
  end.

Definition compress (h : list N) (block : list N) : list N :=
  map (fun p => add32 (fst p) (snd p))
      (combine h (fold_left round (combine K (schedule block)) h)).

Definition digest (msg : list N) : list N :=
  let p := pad msg in
  flat_map (be_bytes 4) (fold_left compress (chunks 64 (length p) p) H0).

Definition hex_digit (n : N) : char :=
  if n <? 10 then 48 + n else 87 + n.

(** [hexdigest()]: two lower-case hexadecimal digits per byte. *)
Definition hexdigest (msg : list N) : str :=
  flat_map (fun b => [hex_digit (N.shiftr b 4); hex_digit (N.land b 0xF)]) (digest msg).

End Sha256.

(** [hash_password], source lines 57-58. *)
Definition hash_password (password : str) : str :=
  Sha256.hexdigest (encode password).


(* ------------------------------------------------------------------ *)
(** ** Exceptions *)

(** An exception is known by the name of its class and by its message,
    [str(e)].  [Exception] builds an instance of the class [Exception]
    (of one of its subclasses); [BaseException] builds one that is not,
    as [KeyboardInterrupt] and [SystemExit] are. *)
Inductive exn :=
| Exception (type message : str)
| BaseException (type message : str).

Definition exn_type (e : exn) : str :=
  match e with Exception type _ | BaseException type _ => type end.

(** [str(e)] *)
Definition exn_msg (e : exn) : str :=
  match e with Exception _ message | BaseException _ message => message end.

(** [isinstance(e, Exception)] *)
Definition is_exception (e : exn) : bool :=
  match e with Exception _ _ => true | BaseException _ _ => false end.

Inductive outcome (A : Type) : Type :=
| Ret (a : A)
| Raise (e : exn).
Arguments Ret {A} a.
Arguments Raise {A} e.

(* ------------------------------------------------------------------ *)
(** ** Dictionaries with string keys, in insertion order *)

Definition dict (V : Type) := list (str * V).

(** [d.get(k)] *)
Fixpoint dict_get {V} (k : str) (d : dict V) : option V :=
  match d with
  | [] => None
  | (k', v) :: t => if str_eqb k' k then Some v else dict_get k t
  end.

(** [d[k] = v]: the value is replaced where the key stands, a new key goes
    last. *)
Fixpoint dict_set {V} (k : str) (v : V) (d : dict V) : dict V :=
  match d with
  | [] => [(k, v)]
  | (k', v') :: t =>
      if str_eqb k' k then (k', v) :: t else (k', v') :: dict_set k v t
  end.

(* ------------------------------------------------------------------ *)
(** ** Paths ([posixpath]) *)

Definition sep : char := 47.     (* "/" *)
Definition extsep : char := 46.  (* "." *)

(** [s.rfind(c)]: the index of the last [c], or -1. *)
Fixpoint rfind (c : char) (s : str) : Z :=
  match s with
  | [] => (-1)%Z
  | x :: t =>
      let r := rfind c t in
      if (0 <=? r)%Z then (r + 1)%Z
      else if x =? c then 0%Z else (-1)%Z
  end.

(** [s[i:]], [s[:i]] and [s[i:j]] for [0 <= i]. *)
Definition drop (i : Z) (s : str) : str := skipn (Z.to_nat i) s.
Definition take (i : Z) (s : str) : str := firstn (Z.to_nat i) s.
Definition slice (i j : Z) (s : str) : str := take (j - i) (drop i s).

(** [os.path.basename] *)
Definition basename (p : str) : str := drop (rfind sep p + 1) p.

(** [os.path.splitext]: the extension starts at the last dot, when that
    dot follows the last separator and a character other than a dot stands
    between them. *)
Definition splitext (p : str) : str * str :=
  let sepIndex := rfind sep p in
  let dotIndex := rfind extsep p in
  if (sepIndex <? dotIndex)%Z
     && existsb (fun c => negb (c =? extsep)) (slice (sepIndex + 1) dotIndex p)
  then (take dotIndex p, drop dotIndex p)
  else (p, []).

Definition startswith (c : char) (s : str) : bool :=
  match s with x :: _ => x =? c | [] => false end.

Definition endswith (c : char) (s : str) : bool := startswith c (rev s).

(** [os.path.join(a, b)] *)
Definition path_join (a b : str) : str :=
  if startswith sep b then b
  else if negb (nonempty a) || endswith sep a then a ++ b
  else a ++ [sep] ++ b.

(* ------------------------------------------------------------------ *)
(** ** The document store *)

Definition oid := N.

Record user := {
  user_id : oid;
  username : str;
  password : str;
  email : str;
  is_admin : bool;
  created_at : str }.

Record upload := {
  up_id : oid;
  up_user_id : oid;
  up_username : str;
  up_image_path : str;
  up_caption : str;
  up_description : str;
  up_created_at : str }.

Record database := {
  users_collection : list user;
  uploads_collection : list upload }.

(** An [_id] that no listed one equals. *)
Definition fresh_oid (ids : list oid) : oid := N.succ (fold_right N.max 0 ids).

(** [str(ObjectId)]: twenty-four hexadecimal digits. *)
Definition oid_str (i : oid) : str :=
  flat_map (fun b => [Sha256.hex_digit (N.shiftr b 4); Sha256.hex_digit (N.land b 0xF)])
           (Sha256.be_bytes 12 i).

(** [users_collection.find_one({"username": uname})] *)
Definition find_user (uname : str) (d : database) : option user :=
  find (fun u => str_eqb (username u) uname) (users_collection d).

(** [users_collection.insert_one(doc)]; [doc] waits for its [_id]. *)
Definition insert_user (doc : oid -> user) (d : database) : database :=
  let i := fresh_oid (map user_id (users_collection d)) in
  {| users_collection := users_collection d ++ [doc i];
     uploads_collection := uploads_collection d |}.

(** [uploads_collection.insert_one(doc)], with the inserted [_id]. *)
Definition insert_upload (doc : oid -> upload) (d : database) : oid * database :=
  let i := fresh_oid (map up_id (uploads_collection d)) in
  (i, {| users_collection := users_collection d;
         uploads_collection := uploads_collection d ++ [doc i] |}).

(** [uploads_collection.find_one({"_id": i})] *)
Definition find_upload (i : oid) (d : database) : option upload :=
  find (fun r => up_id r =? i) (uploads_collection d).

(** [create_admin_if_not_exists], source lines 60-69; [now] is the clock's
    [utcnow().isoformat()].  The second component tells whether the account
    was created (and announced on the console). *)
Definition create_admin_if_not_exists (now : str) (d : database) : database * bool :=
  match find_user (lit "admin") d with
  | Some _ => (d, false)
  | None =>
      (insert_user (fun i => {| user_id := i;
                                username := lit "admin";
                                password := hash_password (lit "123456789");
                                email := lit "admin@local";
                                is_admin := true;
                                created_at := now |}) d, true)
  end.

(** [save_upload_record], source lines 81-91. *)
Definition save_upload_record (user_doc : user) (image_path caption description now : str)
    (d : database) : str * database :=
  let doc i := {| up_id := i;
                  up_user_id := user_id user_doc;
                  up_username := username user_doc;
                  up_image_path := image_path;
                  up_caption := caption;
                  up_description := description;
                  up_created_at := now |} in
  let '(i, d') := insert_upload doc d in
  (oid_str i, d').

(* ------------------------------------------------------------------ *)
(** ** Files *)

(** The files of the machine: path to content.  Directories, links and
    permissions are not part of it; what they make of a copy is in the
    answer of the operating system to that copy. *)
Definition fs := dict (list N).

(** What the operating system makes of one [shutil.copy2] from an existing
    file to a path spelled differently. *)
Inductive copy_answer :=
| Copies                             (* the copy goes through *)
| Linked                             (* the destination is the source under another name: os.path.samefile *)
| Refuses (e : exn)                  (* an open raises; nothing is written *)
| Breaks (e : exn) (written : nat).  (* the destination is opened and gets that many bytes;
                                        then the write, or copystat after the last byte, raises *)

(** [n] as [k] lower-case hexadecimal digits. *)
Definition hex_digits (k : nat) (n : N) : str :=
  map (fun i => Sha256.hex_digit (N.land (N.shiftr n (4 * N.of_nat i)) 0xF)) (rev (seq 0 k)).

Section Repr.

(** [str.isprintable] beyond ASCII, as the Unicode character database has it. *)
Variable unicode_isprintable : char -> bool.

(** One character of [repr(s)] between the quotes [quote]. *)
Definition repr_char (quote c : char) : str :=
  if (c =? quote) || (c =? 92) then [92; c]
  else if c =? 9 then lit "\t"
  else if c =? 10 then lit "\n"
  else if c =? 13 then lit "\r"
  else if (c <? 32) || (c =? 127) then lit "\x" ++ hex_digits 2 c
  else if c <? 127 then [c]
  else if unicode_isprintable c then [c]
  else if c <=? 0xFF then lit "\x" ++ hex_digits 2 c
  else if c <=? 0xFFFF then lit "\u" ++ hex_digits 4 c
  else lit "\U" ++ hex_digits 8 c.

(** [repr(s)] of a string: double quotes when [s] holds an apostrophe and
    no double quote, single quotes otherwise. *)
Definition repr (s : str) : str :=
  let quote := if existsb (N.eqb 39) s && negb (existsb (N.eqb 34) s) then 34 else 39 in
  [quote] ++ flat_map (repr_char quote) s ++ [quote].

(** [shutil.copy2(src, dst)], with the files it leaves.  A missing source
    and a destination that is the source are refused; otherwise the
    operating system answers. *)
Definition copy2 (os : copy_answer) (src dst : str) (f : fs) : outcome unit * fs :=
  match dict_get src f with
  | None =>
      (Raise (Exception (lit "FileNotFoundError")
                (lit "[Errno 2] No such file or directory: " ++ repr src)), f)
  | Some bytes =>
      let same_file :=
        Raise (Exception (lit "SameFileError")
                 (repr src ++ lit " and " ++ repr dst ++ lit " are the same file")) in
      if str_eqb src dst then (same_file, f)
      else
        match os with
        | Copies => (Ret tt, dict_set dst bytes f)
        | Linked =>
            match dict_get dst f with
            | Some other =>
                if list_eq_dec N.eq_dec other bytes then (same_file, f)
                else (Ret tt, dict_set dst bytes f)
            | None => (Ret tt, dict_set dst bytes f)
            end
        | Refuses e => (Raise e, f)
        | Breaks e written => (Raise e, dict_set dst (firstn written bytes) f)
        end
  end.

End Repr.

(* ------------------------------------------------------------------ *)
(** ** The caption cache ([blip_pipeline.py]) *)

(* Nothing below goes by induction on JSON values. *)
#[local] Set Warnings "-register-all".

Inductive json :=
| JNull
| JBool (b : bool)
| JNum (numeral : str)
| JStr (s : str)
| JArr (items : list json)
| JObj (members : dict json).

(** What [captions.json] holds: nothing, a JSON value, or text that
    [json.load] rejects. *)
Inductive cache_file :=
| Absent
| Holds (j : json)
| Garbled (why : str).

(** What the operating system makes of one [open(file_path, "w")] followed
    by [json.dump]. *)
Inductive disk_answer :=
| Written                                (* the file holds the new text *)
| OpenFails (e : exn)                    (* open raises (a missing folder, no permission):
                                            the file is as it was *)
| DumpFails (e : exn) (remains : cache_file).
                                         (* the file was opened, so emptied; then the write
                                            raises and [remains] is what the file holds *)

(** The world of the pipeline: the cache file, the lines printed, and the
    answers of the operating system to the writes of the cache file to come,
    one for each write in turn (when none is listed the write goes
    through). *)
Record pstate := { cache : cache_file; console : list str; disk : list disk_answer }.

(** Computations of the pipeline: they read and write the cache, print,
    and may raise. *)
Definition M (A : Type) : Type := pstate -> outcome A * pstate.

Definition ret {A} (a : A) : M A := fun s => (Ret a, s).
Definition raise {A} (e : exn) : M A := fun s => (Raise e, s).
Definition lift {A} (o : outcome A) : M A := fun s => (o, s).

Definition bind {A B} (m : M A) (k : A -> M B) : M B :=
  fun s => match m s with
           | (Ret a, s') => k a s'
           | (Raise e, s') => (Raise e, s')
           end.

(** [try: m except Exception as e: h e]: an exception that is not an
    [Exception] passes. *)
Definition try_except {A} (m : M A) (h : exn -> M A) : M A :=
  fun s => match m s with
           | (Ret a, s') => (Ret a, s')
           | (Raise e, s') => if is_exception e then h e s' else (Raise e, s')
           end.

Definition print (line : str) : M unit :=
  fun s => (Ret tt, {| cache := cache s; console := console s ++ [line]; disk := disk s |}).

Definition read_cache : M cache_file := fun s => (Ret (cache s), s).

(** [with open(file_path, "w") as f: json.dump(data, f)] *)
Definition write_cache (data : json) : M unit :=
  fun s =>
    match disk s with
    | [] => (Ret tt, {| cache := Holds data; console := console s; disk := [] |})
    | Written :: rest => (Ret tt, {| cache := Holds data; console := console s; disk := rest |})
    | OpenFails e :: rest => (Raise e, {| cache := cache s; console := console s; disk := rest |})
    | DumpFails e remains :: rest =>
        (Raise e, {| cache := remains; console := console s; disk := rest |})
    end.

Notation "x <- m ;; k" := (bind m (fun x => k))
  (at level 61, m at next level, right associativity).
Notation "m ;;; k" := (bind m (fun _ => k))
  (at level 61, right associativity).

(** What [data[image_name] = ...] raises on a value of the class [what]
    that is neither a dict nor a list. *)
Definition type_error (what : str) : exn :=
  Exception (lit "TypeError")
    (lit "'" ++ what ++ lit "' object does not support item assignment").

(** [json.load] makes an [int] of a numeral without fraction and exponent
    and a [float] of any other. *)
Definition is_int_numeral (numeral : str) : bool :=
  forallb (fun c => char_in 48 57 c || (c =? 45)) numeral.

(** [save_to_json], source lines 73-89: load the whole file, set one key,
    write the whole file. *)
Definition save_to_json (image_name caption description : str) : M unit :=
  file <- read_cache ;;
  data <- match file with
          | Absent => ret (JObj [])
          | Holds j => ret j
          | Garbled why => raise (Exception (lit "JSONDecodeError") why)
          end ;;
  match data with
  | JObj members =>
      write_cache
        (JObj (dict_set image_name
                 (JObj [(lit "caption", JStr caption); (lit "description", JStr description)])
                 members))
  | JArr _ =>
      raise (Exception (lit "TypeError")
               (lit "list indices must be integers or slices, not str"))
  | JStr _ => raise (type_error (lit "str"))
  | JNum numeral => raise (type_error (if is_int_numeral numeral then lit "int" else lit "float"))
  | JBool _ => raise (type_error (lit "bool"))
  | JNull => raise (type_error (lit "NoneType"))
  end.

(* ------------------------------------------------------------------ *)
(** ** Generation ([blip_pipeline.py]) *)

(** A PIL image, known by its [str()]. *)
Record image := PIL { image_repr : str }.

(** The values a generation result holds. *)
Inductive pyval :=
| VNone
| VStr (s : str)
| VImage (i : image).

(** The calls that leave the module. *)
Record model_env := {
  path_exists : str -> bool;               (* os.path.exists *)
  image_open : str -> outcome image;       (* Image.open(p).convert("RGB"), thumbnail *)
  blip_generate : image -> outcome str;    (* generate_caption: processor, model.generate, decode *)
  gemini_generate : str -> outcome str;    (* GenerativeModel(..).generate_content(prompt).text *)
  image_show : image -> outcome unit }.    (* img.show *)

Definition newline : char := 10.
Definition cross_mark : char := 0x274C.

Definition prompt_for (caption : str) (min_sentences : Z) : str :=
  lit "Take the following image caption and expand it into a vivid, artisan-style description. "
  ++ lit "Include colors, textures, materials, patterns, environment, lighting, and emotions. "
  ++ lit "Make it at least " ++ str_of_Z min_sentences ++ lit " sentences."
  ++ [newline; newline] ++ lit "Caption: " ++ caption.

(** [expand_caption_to_story], source lines 57-68: an [Exception] of the
    text model becomes the returned text. *)
Definition expand_caption_to_story (env : model_env) (caption : str) (min_sentences : Z)
  : outcome str :=
  match gemini_generate env (prompt_for caption min_sentences) with
  | Ret text => Ret (strip text)
  | Raise e =>
      if is_exception e
      then Ret ([cross_mark] ++ lit " Gemini expansion failed: " ++ exn_msg e)
      else Raise e
  end.

Definition rule : str := repeat 45 60.   (* "-" * 60 *)

(** [process_single_image], source lines 94-124.  Python's implicit
    [return None] is [ret None]. *)
Definition process_single_image (env : model_env) (image_path : str)
  : M (option (dict pyval)) :=
  if negb (path_exists env image_path) then
    print ([0x26A0; 0xFE0F] ++ lit " File not found: " ++ image_path) ;;;
    ret None
  else
    try_except
      (img <- lift (image_open env image_path) ;;
       caption <- lift (blip_generate env img) ;;
       description <- lift (expand_caption_to_story env caption 3) ;;
       lift (image_show env img) ;;;
       print ([newline; 0x1F5BC; 0xFE0F] ++ lit " Image: " ++ basename image_path) ;;;
       print ([0x1F4DD] ++ lit " Caption: " ++ caption) ;;;
       print rule ;;;
       print ([0x1F4DD] ++ lit " Rich description:" ++ [newline] ++ description) ;;;
       print rule ;;;
       save_to_json (basename image_path) caption description ;;;
       ret (Some [(lit "image", VImage img);
                  (lit "caption", VStr caption);
                  (lit "description", VStr description)]))
      (fun e =>
         print ([cross_mark] ++ lit " Error processing " ++ image_path ++ lit ": " ++ exn_msg e) ;;;
         ret None).

(** The fallback of [artisan_marketplace_ai.py], lines 32-37, bound when
    the pipeline cannot be imported. *)
Definition blip_process_single_image_stub (image_path : str) : M (option (dict pyval)) :=
  let base := basename image_path in
  let caption := lit "Placeholder caption for " ++ base in
  let description := lit "Placeholder description for " ++ base ++ lit " -- model not loaded." in
  ret (Some [(lit "image", VNone);
             (lit "caption", VStr caption);
             (lit "description", VStr description)]).

(* ------------------------------------------------------------------ *)
(** ** The dashboard ([artisan_marketplace_ai.py]) *)

Inductive dialog :=
| showwarning (title message : str)
| showerror (title message : str)
| showinfo (title message : str).

Inductive screen := LoginScreen | SignupScreen | DashboardScreen.

(** What [blip_process_single_image] is bound to: the pipeline or the stub. *)
Definition generator := str -> M (option (dict pyval)).

(** The application: the store, the files, the pipeline's state, and the
    attributes and widgets of [SimpleArtisanDashboard]. *)
Record app := {
  db : database;
  files : fs;
  pipeline : pstate;
  shown : screen;
  current_user : option user;
  selected_image_path : option str;
  caption_entry : str;       (* content of the caption Text widget *)
  description_entry : str;   (* content of the description Text widget *)
  status_var : str;
  last_caption : pyval;
  last_description : pyval }.

Definition with_status (s : str) (a : app) : app :=
  {| db := db a; files := files a; pipeline := pipeline a; shown := shown a;
     current_user := current_user a; selected_image_path := selected_image_path a;
     caption_entry := caption_entry a; description_entry := description_entry a;
     status_var := s;
     last_caption := last_caption a; last_description := last_description a |}.

Definition with_db (d : database) (a : app) : app :=
  {| db := d; files := files a; pipeline := pipeline a; shown := shown a;
     current_user := current_user a; selected_image_path := selected_image_path a;
     caption_entry := caption_entry a; description_entry := description_entry a;
     status_var := status_var a;
     last_caption := last_caption a; last_description := last_description a |}.

Definition with_pipeline (p : pstate) (a : app) : app :=
  {| db := db a; files := files a; pipeline := p; shown := shown a;
     current_user := current_user a; selected_image_path := selected_image_path a;
     caption_entry := caption_entry a; description_entry := description_entry a;
     status_var := status_var a;
     last_caption := last_caption a; last_description := last_description a |}.

Definition with_files (f : fs) (a : app) : app :=
  {| db := db a; files := f; pipeline := pipeline a; shown := shown a;
     current_user := current_user a; selected_image_path := selected_image_path a;
     caption_entry := caption_entry a; description_entry := description_entry a;
     status_var := status_var a;
     last_caption := last_caption a; last_description := last_description a |}.

Definition with_caption_entry (s : str) (a : app) : app :=
  {| db := db a; files := files a; pipeline := pipeline a; shown := shown a;
     current_user := current_user a; selected_image_path := selected_image_path a;
     caption_entry := s; description_entry := description_entry a;
     status_var := status_var a;
     last_caption := last_caption a; last_description := last_description a |}.

Definition with_description_entry (s : str) (a : app) : app :=
  {| db := db a; files := files a; pipeline := pipeline a; shown := shown a;
     current_user := current_user a; selected_image_path := selected_image_path a;
     caption_entry := caption_entry a; description_entry := s;
     status_var := status_var a;
     last_caption := last_caption a; last_description := last_description a |}.

(** [show_login_screen] and [show_signup_screen]: the widgets of the old
    screen are destroyed. *)
Definition show (s : screen) (a : app) : app :=
  {| db := db a; files := files a; pipeline := pipeline a; shown := s;
     current_user := current_user a; selected_image_path := selected_image_path a;
     caption_entry := caption_entry a; description_entry := description_entry a;
     status_var := status_var a;
     last_caption := last_caption a; last_description := last_description a |}.

(** [show_dashboard], source lines 212-273: fresh widgets, no image. *)
Definition show_dashboard (a : app) : app :=
  {| db := db a; files := files a; pipeline := pipeline a; shown := DashboardScreen;
     current_user := current_user a; selected_image_path := None;
     caption_entry := []; description_entry := [];
     status_var := lit "Ready";
     last_caption := VStr []; last_description := VStr [] |}.

Definition login_as (u : user) (a : app) : app :=
  {| db := db a; files := files a; pipeline := pipeline a; shown := shown a;
     current_user := Some u; selected_image_path := selected_image_path a;
     caption_entry := caption_entry a; description_entry := description_entry a;
     status_var := status_var a;
     last_caption := last_caption a; last_description := last_description a |}.

(** [do_login], source lines 138-150, on the text of the two entries.
    (The password entry, cleared after a refusal, is not part of [app].) *)
Definition do_login (username_entry password_entry : str) (a : app) : app * list dialog :=
  let uname := strip username_entry in
  let pwd := strip password_entry in
  if negb (nonempty uname) || negb (nonempty pwd) then
    (a, [showwarning (lit "Missing") (lit "Please enter username and password.")])
  else
    match find_user uname (db a) with
    | Some user =>
        if str_eqb (password user) (hash_password pwd)
        then (show_dashboard (login_as user a), [])
        else (a, [showerror (lit "Auth Failed") (lit "Invalid username or password.")])
    | None => (a, [showerror (lit "Auth Failed") (lit "Invalid username or password.")])
    end.

(** The document [do_create] inserts, before it has its [_id]. *)
Definition signup_doc (uname mail pwd now : str) (i : oid) : user :=
  {| user_id := i;
     username := uname;
     password := hash_password pwd;
     email := mail;
     is_admin := false;
     created_at := now |}.

(** [do_create], source lines 182-204, on the text of the four entries;
    [now] is the clock's [utcnow().isoformat()]. *)
Definition do_create (username_entry email_entry password_entry confirm_entry now : str)
    (a : app) : app * list dialog :=
  let uname := strip username_entry in
  let mail := strip email_entry in
  let pwd := strip password_entry in
  let conf := strip confirm_entry in
  if negb (nonempty uname && nonempty mail && nonempty pwd && nonempty conf) then
    (a, [showwarning (lit "Missing") (lit "Please fill all fields.")])
  else if negb (str_eqb pwd conf) then
    (a, [showerror (lit "Mismatch") (lit "Passwords do not match.")])
  else
    match find_user uname (db a) with
    | Some _ => (a, [showerror (lit "Exists") (lit "Username already exists.")])
    | None =>
        (show LoginScreen (with_db (insert_user (signup_doc uname mail pwd now) (db a)) a),
         [showinfo (lit "Created") (lit "Account created. You can now log in.")])
    end.

(** [logout], source lines 345-349; [confirm] is the answer to the dialog. *)
Definition logout (confirm : bool) (a : app) : app :=
  if confirm then
    show LoginScreen
      {| db := db a; files := files a; pipeline := pipeline a; shown := shown a;
         current_user := None; selected_image_path := selected_image_path a;
         caption_entry := caption_entry a; description_entry := description_entry a;
         status_var := status_var a;
         last_caption := last_caption a; last_description := last_description a |}
  else a.

(** [x or y] on result values: [None] and the empty string are false. *)
Definition truthy (v : pyval) : bool :=
  match v with
  | VNone => false
  | VStr s => nonempty s
  | VImage _ => true
  end.

Definition py_or (x y : pyval) : pyval := if truthy x then x else y.

(** [result.get(k, default)] *)
Definition get_default (k : str) (default : pyval) (d : dict pyval) : pyval :=
  match dict_get k d with Some v => v | None => default end.

(** The text Tk inserts for a value. *)
Definition tk_text (v : pyval) : str :=
  match v with
  | VNone => lit "None"
  | VStr s => s
  | VImage i => image_repr i
  end.

(** [widget.get("1.0", tk.END)]: the content and the final newline Tk adds. *)
Definition text_get (content : str) : str := content ++ [newline].

Definition em_dash : char := 0x2014.

Definition none_has_no_get : str := lit "'NoneType' object has no attribute 'get'".
Definition none_not_subscriptable : str := lit "'NoneType' object is not subscriptable".

(** [not self.selected_image_path]: no path, or an empty one. *)
Definition selected (a : app) : option str :=
  match selected_image_path a with
  | Some p => if nonempty p then Some p else None
  | None => None
  end.

(** Lines 311-317 of [generate_preview]: both widgets are emptied and
    filled, the two attributes and the status line set. *)
Definition show_generated (caption description : pyval) (a : app) : app :=
  {| db := db a; files := files a; pipeline := pipeline a; shown := shown a;
     current_user := current_user a;
     selected_image_path := selected_image_path a;
     caption_entry := tk_text caption;
     description_entry := tk_text description;
     status_var := lit "Generation complete " ++ [em_dash] ++ lit " review then Save to DB";
     last_caption := caption;
     last_description := description |}.

(** [generate_preview], source lines 300-320.  An exception that is not
    an [Exception] passes the handler's [except]: the handler is left with
    the status line it had set and with no dialog (Tk reports the exception
    on the error stream; a [SystemExit] ends the main loop, and then no
    event follows). *)
Definition generate_preview (blip_process_single_image : generator) (a : app)
  : app * list dialog :=
  match selected a with
  | None => (a, [showwarning (lit "No image") (lit "Please select an image first.")])
  | Some path =>
      let a1 := with_status (lit "Generating caption " ++ [em_dash]
                             ++ lit " this may take a moment...") a in
      let failed (a2 : app) (message : str) :=
        (with_status (lit "Generation failed") a2,
         [showerror (lit "Generate failed")
                    (lit "Caption generation failed:" ++ [newline] ++ message)]) in
      match blip_process_single_image path (pipeline a1) with
      | (Ret (Some result), p) =>
          let caption := py_or (get_default (lit "caption") (VStr []) result) (VStr []) in
          let description := py_or (get_default (lit "description") (VStr []) result) caption in
          (show_generated caption description (with_pipeline p a1), [])
      | (Ret None, p) => failed (with_pipeline p a1) none_has_no_get
      | (Raise e, p) =>
          if is_exception e then failed (with_pipeline p a1) (exn_msg e)
          else (with_pipeline p a1, [])
      end
  end.

(** [save_to_db], source lines 322-338. *)
Definition save_to_db (now : str) (a : app) : app * list dialog :=
  match selected a with
  | None => (a, [showwarning (lit "No image") (lit "Please select an image first.")])
  | Some path =>
      let caption := strip (text_get (caption_entry a)) in
      let description := strip (text_get (description_entry a)) in
      if negb (nonempty caption) && negb (nonempty description) then
        (a, [showwarning (lit "Empty")
               (lit "Caption/Description are empty. Generate first or enter text.")])
      else
        let a1 := with_status (lit "Saving to database...") a in
        match current_user a1 with
        | Some u =>
            let '(inserted_id, d) := save_upload_record u path caption description now (db a1) in
            (with_status (lit "Saved (id=" ++ inserted_id ++ lit ")") (with_db d a1),
             [showinfo (lit "Saved") (lit "Image and description saved to database.")])
        | None =>
            (with_status (lit "Save failed") a1,
             [showerror (lit "Save failed")
                (lit "Failed to save to DB:" ++ [newline] ++ none_not_subscriptable)])
        end
  end.

Section Intake.

(** The owned directory, [os.getenv("IMAGE_FOLDER", "artisan_images")]. *)
Variable IMAGE_FOLDER : str.

(** [str.isalnum] beyond ASCII, as the Unicode character database has it. *)
Variable unicode_isalnum : char -> bool.

(** [str.isprintable] beyond ASCII, for the [repr] in the messages of the
    copy. *)
Variable unicode_isprintable : char -> bool.

Definition isalnum (c : char) : bool :=
  if c <? 0x80
  then char_in 48 57 c || char_in 65 90 c || char_in 97 122 c
  else unicode_isalnum c.

(** The name of the copy: [f"{safe_user}_{ts}{ext}"]. *)
Definition dest_name (src_path username : str) (ts : Z) : str :=
  let ext := let e := snd (splitext src_path) in if nonempty e then e else lit ".jpg" in
  let safe_user :=
    let s := strip (filter (fun c => isalnum c || (c =? 95) || (c =? 45)) username) in
    if nonempty s then s else lit "user" in
  safe_user ++ lit "_" ++ str_of_Z ts ++ ext.

(** [save_image_to_project], source lines 71-79; [ts] is the clock in
    milliseconds and [os] the answer of the operating system to the copy.
    Returns the new path, or raises, and the files the copy leaves. *)
Definition save_image_to_project (src_path username : str) (ts : Z) (os : copy_answer)
    (f : fs) : outcome str * fs :=
  let dest_path := path_join IMAGE_FOLDER (dest_name src_path username ts) in
  match copy2 unicode_isprintable os src_path dest_path f with
  | (Ret _, f') => (Ret dest_path, f')
  | (Raise e, f') => (Raise e, f')
  end.

(** [select_image], source lines 276-298; [path] is what the file dialog
    returned, empty when it was cancelled.  An exception that is not an
    [Exception] passes the handler's [except] and no dialog is shown. *)
Definition select_image (path : str) (ts : Z) (os : copy_answer) (a : app)
  : app * list dialog :=
  if negb (nonempty path) then (a, [])
  else
    let failed (a' : app) (message : str) :=
      (a', [showerror (lit "Error") (lit "Failed to select image: " ++ message)]) in
    match current_user a with
    | None => failed a none_not_subscriptable
    | Some u =>
        match save_image_to_project path (username u) ts os (files a) with
        | (Raise e, f) =>
            if is_exception e then failed (with_files f a) (exn_msg e)
            else (with_files f a, [])
        | (Ret dest, f) =>
            ({| db := db a; files := f; pipeline := pipeline a; shown := shown a;
                current_user := current_user a;
                selected_image_path := Some dest;
                caption_entry := []; description_entry := [];
                status_var := lit "Selected " ++ basename dest ++ lit " " ++ [em_dash]
                              ++ lit " ready to generate";
                last_caption := last_caption a;
                last_description := last_description a |}, [])
        end
    end.

(** What the user does: a button with the text of the entries it reads,
    or typing into one of the two text widgets. *)
Inductive event :=
| Login (username_entry password_entry : str)
| GoSignup
| Create (username_entry email_entry password_entry confirm_entry now : str)
| Back
| SelectImage (path : str) (ts : Z) (os : copy_answer)
| Generate
| TypeCaption (text : str)
| TypeDescription (text : str)
| Save (now : str)
| Logout (confirm : bool).

(** Each screen offers its own buttons; the others do not exist. *)
Definition step (gen : generator) (a : app) (ev : event) : app * list dialog :=
  match shown a, ev with
  | LoginScreen, Login u p => do_login u p a
  | LoginScreen, GoSignup => (show SignupScreen a, [])
  | SignupScreen, Create u m p c now => do_create u m p c now a
  | SignupScreen, Back => (show LoginScreen a, [])
  | DashboardScreen, SelectImage path ts os => select_image path ts os a
  | DashboardScreen, Generate => generate_preview gen a
  | DashboardScreen, TypeCaption text => (with_caption_entry text a, [])
  | DashboardScreen, TypeDescription text => (with_description_entry text a, [])
  | DashboardScreen, Save now => save_to_db now a
  | DashboardScreen, Logout confirm => (logout confirm a, [])
  | _, _ => (a, [])
  end.

Fixpoint run (gen : generator) (a : app) (evs : list event) : app :=
  match evs with
  | [] => a
  | ev :: rest => run gen (fst (step gen a ev)) rest
  end.

End Intake.

(** [SimpleArtisanDashboard.__init__]: nobody logged in, the admin account
    seeded, the login screen shown. *)
Definition init_app (now : str) (d : database) (f : fs) (p : pstate) : app :=
  let '(d', created) := create_admin_if_not_exists now d in
  {| db := d'; files := f;
     pipeline := if created
                 then {| cache := cache p;
                         console := console p ++ [lit "Admin user created: admin / 123456789"];
                         disk := disk p |}
                 else p;
     shown := LoginScreen;
     current_user := None; selected_image_path := None;
     caption_entry := []; description_entry := [];
     status_var := [];
     last_caption := VStr []; last_description := VStr [] |}.

(* ------------------------------------------------------------------ *)
(** ** Vocabulary of the properties *)

(** The fields, once trimmed, pass the three checks of [do_create]. *)
Definition signup_valid (uname mail pwd conf : str) (a : app) : Prop :=
  strip uname <> [] /\ strip mail <> [] /\ strip pwd <> [] /\ strip conf <> []
  /\ strip pwd = strip conf
  /\ find_user (strip uname) (db a) = None.

(** One of the three checks of [do_create] stops the trimmed fields. *)
Definition signup_refused (uname mail pwd conf : str) (a : app) : Prop :=
  (strip uname = [] \/ strip mail = [] \/ strip pwd = [] \/ strip conf = [])
  \/ strip pwd <> strip conf
  \/ find_user (strip uname) (db a) <> None.

Definition created_dialog : dialog :=
  showinfo (lit "Created") (lit "Account created. You can now log in.").

Definition missing_dialog : dialog :=
  showwarning (lit "Missing") (lit "Please enter username and password.").

Definition auth_failed_dialog : dialog :=
  showerror (lit "Auth Failed") (lit "Invalid username or password.").

(** The login handler let [u] in: the dashboard is shown for [u]. *)
Definition logged_in (u : user) (before : app) (r : app * list dialog) : Prop :=
  r = (show_dashboard (login_as u before), []).

Definition empty_dialog : dialog :=
  showwarning (lit "Empty")
    (lit "Caption/Description are empty. Generate first or enter text.").

Definition saved_dialog : dialog :=
  showinfo (lit "Saved") (lit "Image and description saved to database.").

(** The record [save_to_db] writes for user [u], image [path] and the text
    of the two widgets. *)
Definition saved_record (u : user) (path : str) (now : str) (a : app) (i : oid) : upload :=
  {| up_id := i;
     up_user_id := user_id u;
     up_username := username u;
     up_image_path := path;
     up_caption := strip (text_get (caption_entry a));
     up_description := strip (text_get (description_entry a));
     up_created_at := now |}.

(** The result has no usable description: the key is missing, or holds
    [None] or the empty string. *)
Definition description_missing (result : dict pyval) : Prop :=
  dict_get (lit "description") result = None
  \/ dict_get (lit "description") result = Some VNone
  \/ dict_get (lit "description") result = Some (VStr []).

Definition placeholder_caption (path : str) : str :=
  lit "Placeholder caption for " ++ basename path.

Definition placeholder_description (path : str) : str :=
  lit "Placeholder description for " ++ basename path ++ lit " -- model not loaded.".

(** The mapping [save_to_json] starts from, when the file allows one: an
    absent file counts as the empty mapping. *)
Definition cache_members (c : cache_file) : option (dict json) :=
  match c with
  | Absent => Some []
  | Holds (JObj members) => Some members
  | _ => None
  end.

(** The cache file for a prior mapping; [None] is the absent file. *)
Definition cache_of (prior : option (dict json)) : cache_file :=
  match prior with
  | None => Absent
  | Some members => Holds (JObj members)
  end.

Definition members_of (prior : option (dict json)) : dict json :=
  match prior with
  | None => []
  | Some members => members
  end.

(** One file name: not empty, no separator, neither [.] nor [..]. *)
Definition single_component (name : str) : Prop :=
  name <> [] /\ ~ In sep name /\ name <> lit "." /\ name <> lit "..".

(** [p] names a file directly inside the directory [dir]: [p] is [dir],
    a separator, and one file name; the separator may be missing when [dir]
    is empty (the working directory) or ends in one. *)
Definition inside (dir p : str) : Prop :=
  exists name,
    single_component name
    /\ (p = dir ++ [sep] ++ name
        \/ ((dir = [] \/ exists d, dir = d ++ [sep]) /\ p = dir ++ name)).

(** Path [q] was stored by a selection of the run [evs] from [a0]: at some
    point of the run the dashboard is shown and the user chooses a file
    [path] there, a path other than [q]; that step makes [q] the selection,
    [q] names a file directly inside the owned directory, and that file
    then holds the bytes the chosen file held. *)
Definition copied_by (IMAGE_FOLDER : str) (unicode_isalnum unicode_isprintable : char -> bool)
    (gen : generator) (a0 : app) (evs : list event) (q : str) : Prop :=
  exists before path ts os after,
    let a := run IMAGE_FOLDER unicode_isalnum unicode_isprintable gen a0 before in
    let a' := fst (step IMAGE_FOLDER unicode_isalnum unicode_isprintable gen a
                     (SelectImage path ts os)) in
    evs = before ++ SelectImage path ts os :: after
    /\ shown a = DashboardScreen
    /\ q <> path
    /\ inside IMAGE_FOLDER q
    /\ selected_image_path a' = Some q
    /\ dict_get path (files a) <> None
    /\ dict_get q (files a') = dict_get path (files a).

(** The next write of the cache file is one the operating system carries
    out. *)
Definition write_goes_through (s : pstate) : Prop :=
  disk s = [] \/ exists rest, disk s = Written :: rest.

(* ------------------------------------------------------------------ *)
(** ** Sample data *)

Definition empty_db : database :=
  {| users_collection := []; uploads_collection := [] |}.

Definition quiet : pstate := {| cache := Absent; console := []; disk := [] |}.

(** The signup screen over a store [d] and files [f]. *)
Definition at_signup (d : database) (f : fs) : app :=
  {| db := d; files := f; pipeline := quiet; shown := SignupScreen;
     current_user := None; selected_image_path := None;
     caption_entry := []; description_entry := [];
     status_var := []; last_caption := VStr []; last_description := VStr [] |}.

Definition stamp : str := lit "2024-01-01T00:00:00".

Definition alice : user :=
  {| user_id := 1; username := lit "alice"; password := hash_password (lit "pw1");
     email := lit "a@x.com"; is_admin := false; created_at := stamp |}.

(** The dashboard of [alice] with an image selected and text in the two
    widgets. *)
Definition at_dashboard (caption description : str) : app :=
  {| db := {| users_collection := [alice]; uploads_collection := [] |};
     files := []; pipeline := quiet; shown := DashboardScreen;
     current_user := Some alice;
     selected_image_path := Some (lit "artisan_images/alice_1700000000000.jpg");
     caption_entry := caption; description_entry := description;
     status_var := lit "Ready"; last_caption := VStr []; last_description := VStr [] |}.

Definition quota : exn := Exception (lit "ResourceExhausted") (lit "429 quota exceeded").
Definition out_of_memory : exn := Exception (lit "RuntimeError") (lit "out of memory").
Definition cat_image : image := PIL (lit "<PIL.Image.Image image mode=RGB size=400x300>").

(** The vision model answers, the text model raises. *)
Definition env_text_down : model_env :=
  {| path_exists := fun _ => true;
     image_open := fun _ => Ret cat_image;
     blip_generate := fun _ => Ret (lit "a cat");
     gemini_generate := fun _ => Raise quota;
     image_show := fun _ => Ret tt |}.

(** The vision model raises. *)
Definition env_vision_down : model_env :=
  {| path_exists := fun _ => true;
     image_open := fun _ => Ret cat_image;
     blip_generate := fun _ => Raise out_of_memory;
     gemini_generate := fun _ => Ret (lit "A cat sits.");
     image_show := fun _ => Ret tt |}.

Definition cat_path : str := lit "artisan_images/alice_1700000000000.jpg".

(* ------------------------------------------------------------------ *)
(** ** The batch run ([blip_pipeline.py]) *)

(** The order of [sorted] on strings: code point by code point, a proper
    prefix first. *)
Fixpoint str_leb (a b : str) : bool :=
  match a, b with
  | [], _ => true
  | _ :: _, [] => false
  | x :: a', y :: b' =>
      if x <? y then true else if y <? x then false else str_leb a' b'
  end.

Fixpoint insert_sorted (x : str) (l : list str) : list str :=
  match l with
  | [] => [x]
  | y :: t => if str_leb x y then x :: l else y :: insert_sorted x t
  end.

(** [sorted(names)] *)
Definition sorted (names : list str) : list str := fold_right insert_sorted [] names.

(** [s.endswith(suffix)] and [s.endswith((suffix, ...))] *)
Definition endswith_str (suffix s : str) : bool :=
  str_eqb (skipn (length s - length suffix) s) suffix.

Definition endswith_any (suffixes : list str) (s : str) : bool :=
  existsb (fun suffix => endswith_str suffix s) suffixes.

Definition image_suffixes : list str :=
  [lit ".jpg"; lit ".jpeg"; lit ".png"; lit ".webp"; lit ".avif"].

Section Batch.

(** [str.lower] beyond ASCII: what the Unicode character database makes
    of a character between the text before it and the text after it. *)
Variable unicode_lower : str -> char -> str -> str.

Fixpoint lower_from (before s : str) : str :=
  match s with
  | [] => []
  | c :: t =>
      (if c <? 0x80
       then [if char_in 65 90 c then c + 32 else c]
       else unicode_lower before c t)
      ++ lower_from (before ++ [c]) t
  end.

(** [s.lower()] *)
Definition lower (s : str) : str := lower_from [] s.

Definition is_image_name (f : str) : bool := endswith_any image_suffixes (lower f).

(** The loop of [process_batch_images], lines 136-139; [idx] counts from
    one, [total] is [len(files)]. *)
Fixpoint batch_loop (env : model_env) (folder : str) (total idx : nat) (files : list str)
  : M unit :=
  match files with
  | [] => ret tt
  | fname :: rest =>
      print ([newline] ++ lit "--- [" ++ str_of_Z (Z.of_nat idx) ++ lit "/"
             ++ str_of_Z (Z.of_nat total) ++ lit "] " ++ fname ++ lit " ---") ;;;
      process_single_image env (path_join folder fname) ;;;
      batch_loop env folder total (S idx) rest
  end.

(** [process_batch_images], source lines 129-139; [listdir] is
    [os.listdir], which raises for a folder it cannot read. *)
Definition process_batch_images (env : model_env) (listdir : str -> outcome (list str))
    (folder : str) : M unit :=
  names <- lift (listdir folder) ;;
  let files := sorted (filter is_image_name names) in
  match files with
  | [] => print ([0x26A0; 0xFE0F] ++ lit " No images found in " ++ folder)
  | _ :: _ =>
      print ([0x1F4C2] ++ lit " Found " ++ str_of_Z (Z.of_nat (length files))
             ++ lit " images in " ++ folder) ;;;
      batch_loop env folder (length files) 1 files
  end.

End Batch.

(* ------------------------------------------------------------------ *)
(** ** Vocabulary of the further properties *)

(** A lower-case hexadecimal digit. *)
Definition is_hex (c : char) : bool := char_in 48 57 c || char_in 97 102 c.

Definition no_image_dialog : dialog :=
  showwarning (lit "No image") (lit "Please select an image first.").

(** The entry the cache file holds for [key], if any. *)
Definition cache_lookup (key : str) (c : cache_file) : option json :=
  match cache_members c with
  | Some members => dict_get key members
  | None => None
  end.

(** Upload [r] names a user of the list by identifier and by name. *)
Definition refers_to (users : list user) (r : upload) : Prop :=
  exists u, In u users /\ user_id u = up_user_id r /\ username u = up_username r.

(** Every call of the environment answers; the text model answers [text]
    and the vision model [caption] for every image. *)
Definition env_answering (caption text : str) : model_env :=
  {| path_exists := fun _ => true;
     image_open := fun _ => Ret cat_image;
     blip_generate := fun _ => Ret caption;
     gemini_generate := fun _ => Ret text;
     image_show := fun _ => Ret tt |}.

(** ASCII only: nothing beyond ASCII is lowered. *)
Definition ascii_lower (before : str) (c : char) (after : str) : str := [c].

(** What one step does to the store and to the logged-in user: nothing to
    the store (and the user stays, leaves, or is one the store holds), or
    one signup, or one save for the logged-in user. *)
Definition step_effect (a a' : app) : Prop :=
  (db a' = db a
   /\ (current_user a' = current_user a
       \/ current_user a' = None
       \/ exists u, current_user a' = Some u /\ In u (users_collection (db a))))
  \/ (current_user a' = current_user a
      /\ exists uname mail pwd now,
           find_user uname (db a) = None
           /\ db a' = insert_user (signup_doc uname mail pwd now) (db a))
  \/ (current_user a' = current_user a
      /\ exists u path caption description now,
           current_user a = Some u
           /\ db a' = snd (save_upload_record u path caption description now (db a))).

(** The parts of the name of the copy, as [save_image_to_project] computes
    them: the user's part, the extension, and what [os.path.join] puts
    before a relative name. *)
Definition safe_user (unicode_isalnum : char -> bool) (username : str) : str :=
  let s := strip (filter (fun c => isalnum unicode_isalnum c || (c =? 95) || (c =? 45)) username) in
  if nonempty s then s else lit "user".

Definition ext_of (src_path : str) : str :=
  let e := snd (splitext src_path) in if nonempty e then e else lit ".jpg".

Definition join_prefix (dir : str) : str :=
  if negb (nonempty dir) || endswith sep dir then dir else dir ++ [sep].

(** The lower-cased [name] ends in one of the extensions [exts]. *)
Definition has_extension (unicode_lower : str -> char -> str -> str) (exts : list str)
    (name : str) : Prop :=
  exists stem ext, In ext exts /\ lower unicode_lower name = stem ++ ext.

(** Every exception a call of the environment raises is an [Exception]. *)
Definition raises_exceptions_only (env : model_env) : Prop :=
  (forall path e, image_open env path = Raise e -> is_exception e = true)
  /\ (forall img e, blip_generate env img = Raise e -> is_exception e = true)
  /\ (forall prompt e, gemini_generate env prompt = Raise e -> is_exception e = true)
  /\ (forall img e, image_show env img = Raise e -> is_exception e = true).

(** None of the writes to come breaks off after the file was opened, and
    one that is refused is refused with an [Exception]. *)
Definition whole_writes (answers : list disk_answer) : Prop :=
  Forall (fun w => match w with
                   | Written => True
                   | OpenFails e => is_exception e = true
                   | DumpFails _ _ => False
                   end) answers.

(** For the image at [path] every call answers: the file is there, the
    image opens, the vision model returns [caption], the viewer shows the
    image, and the text model returns text that trims to [description], or
    raises an [Exception] whose report is [description]. *)
Definition answers (env : model_env) (path caption description : str) : Prop :=
  path_exists env path = true
  /\ exists img,
       image_open env path = Ret img
       /\ blip_generate env img = Ret caption
       /\ image_show env img = Ret tt
       /\ ((exists text,
              gemini_generate env (prompt_for caption 3) = Ret text
              /\ description = strip text)
           \/ (exists type message,
                 gemini_generate env (prompt_for caption 3) = Raise (Exception type message)
                 /\ description = [cross_mark] ++ lit " Gemini expansion failed: " ++ message)).

(** A name paired with its rank in the list, counted from one. *)
Definition numbered (names : list str) : list (nat * str) :=
  combine (seq 1 (length names)) names.

(* ------------------------------------------------------------------ *)
(** ** The renaming script ([renamephotos.py]) *)

Definition supported_exts : list str :=
  [lit ".jpg"; lit ".jpeg"; lit ".png"; lit ".webp"].

(** [del d[k]] *)
Fixpoint dict_remove {V} (k : str) (d : dict V) : dict V :=
  match d with
  | [] => []
  | (k', v) :: t =>
      if str_eqb k' k then dict_remove k t else (k', v) :: dict_remove k t
  end.

(** An entry of a folder: a file with its content, or a directory, empty
    or not. *)
Inductive node :=
| File (content : list N)
| Dir (empty : bool).

Section Renaming.

Variable unicode_lower : str -> char -> str -> str.
Variable unicode_isprintable : char -> bool.

(** [os.rename(join(folder, old), join(folder, new))] on the entries of
    [folder], as Linux has it: a file replaces a file and a directory an
    empty directory; a file does not replace a directory, nor a directory
    a file or a directory that is not empty.  The folder is taken to be
    writable, so that a renaming fails for these reasons only. *)
Definition rename (folder old new : str) (d : dict node) : outcome (dict node) :=
  let fails (type text : str) :=
    Raise (Exception type
             (text ++ lit ": " ++ repr unicode_isprintable (path_join folder old)
              ++ lit " -> " ++ repr unicode_isprintable (path_join folder new))) in
  match dict_get old d with
  | None => fails (lit "FileNotFoundError") (lit "[Errno 2] No such file or directory")
  | Some entry =>
      if str_eqb old new then Ret d
      else
        match entry, dict_get new d with
        | File _, Some (Dir _) =>
            fails (lit "IsADirectoryError") (lit "[Errno 21] Is a directory")
        | Dir _, Some (File _) =>
            fails (lit "NotADirectoryError") (lit "[Errno 20] Not a directory")
        | Dir _, Some (Dir false) =>
            fails (lit "OSError") (lit "[Errno 39] Directory not empty")
        | _, _ => Ret (dict_set new entry (dict_remove old d))
        end
  end.

Definition is_supported (filename : str) : bool :=
  endswith_any supported_exts (lower unicode_lower filename).

(** [f"img{count}{ext}"] for the extension of [filename]. *)
Definition new_name (count : Z) (filename : str) : str :=
  lit "img" ++ str_of_Z count ++ snd (splitext filename).

(** The loop of the script over the sorted listing: the entries after it,
    the lines printed, and the exception that stopped it, if one did. *)
Fixpoint rename_loop (folder : str) (names : list str) (count : Z)
    (d : dict node) (out : list str) : outcome unit * dict node * list str :=
  match names with
  | [] => (Ret tt, d, out)
  | filename :: rest =>
      if is_supported filename then
        match rename folder filename (new_name count filename) d with
        | Ret d' =>
            rename_loop folder rest (count + 1) d'
              (out ++ [lit "Renamed " ++ filename ++ lit " -> " ++ new_name count filename])
        | Raise e => (Raise e, d, out)
        end
      else rename_loop folder rest count d out
  end.

(** The script; [os.listdir] gives the names of the entries. *)
Definition renamephotos (folder : str) (d : dict node)
  : outcome unit * dict node * list str :=
  rename_loop folder (sorted (map fst d)) 1%Z d [].

(** What the loop sets out to do: each supported name with its new name. *)
Fixpoint rename_plan (names : list str) (count : Z) : list (str * str) :=
  match names with
  | [] => []
  | filename :: rest =>
      if is_supported filename
      then (filename, new_name count filename) :: rename_plan rest (count + 1)
      else rename_plan rest count
  end.

End Renaming.

(** Renaming [old] to [new] among the entries [d] meets no directory:
    nothing is named [new], or both names are names of files. *)
Definition renames_freely (d : dict node) (old new : str) : Prop :=
  dict_get new d = None
  \/ ((exists content, dict_get old d = Some (File content))
      /\ (exists content, dict_get new d = Some (File content))).

(** Ten photographs the script has already named. *)
Definition ten_photos : dict node :=
  map (fun i => (lit "img" ++ str_of_Z (Z.of_nat i) ++ lit ".jpg", File [N.of_nat i])) (seq 1 10).

(* ================================================================== *)
(** * Properties *)

(** ** The hash agrees with [hashlib] on test vectors *)

Example round_constants :
  length Sha256.K = 64%nat
  /\ firstn 2 Sha256.K = [0x428a2f98; 0x71374491]
  /\ nth 63 Sha256.K 0 = 0xc67178f2
  /\ firstn 2 Sha256.H0 = [0x6a09e667; 0xbb67ae85]
  /\ nth 7 Sha256.H0 0 = 0x5be0cd19.
Proof. vm_compute. repeat split. Qed.

Example hash_pw1 :
  hash_password (lit "pw1") =
  lit "c592df4a86933b92addc9842402ddf198c638ea9be58916ee6e3734e1e3152f8".
Proof. vm_compute. reflexivity. Qed.

Example hash_vectors :
  Sha256.hexdigest [] =
    lit "e3b0c44298fc1c149afbf4c8996fb92427ae41e4649b934ca495991b7852b855"
  /\ Sha256.hexdigest (repeat 97 55) =
    lit "9f4390f8d30c2dd92ec9f095b65e2b9ae9b0a925a5258e241c9f1e910f734318"
  /\ Sha256.hexdigest (repeat 97 56) =
    lit "b35439a4ac6f0948b6d6f9e3c6af0f5f590ce20f1bde7090ef7970686ec6738a"
  /\ Sha256.hexdigest (repeat 97 64) =
    lit "ffe054fe7ae0cb6dc65c3af9b61d5209f439851db43d0ba5997337df154668eb"
  /\ hash_password ([233; 8721; 128512] ++ repeat 97 70) =
    lit "590a55f57cc19237a9f4e69feb009810c09a45d0b5f65de7fa736109325132e9".
Proof. vm_compute. repeat split. Qed.

(** ** Text *)

Lemma str_eqb_eq (a b : str) : str_eqb a b = true <-> a = b.
Proof.
  unfold str_eqb. destruct (list_eq_dec N.eq_dec a b); split; congruence.
Qed.

Lemma str_eqb_refl (a : str) : str_eqb a a = true.
Proof. now apply str_eqb_eq. Qed.

Lemma str_eqb_neq (a b : str) : str_eqb a b = false <-> a <> b.
Proof.
  unfold str_eqb. destruct (list_eq_dec N.eq_dec a b); split; congruence.
Qed.

Lemma nonempty_true (s : str) : nonempty s = true <-> s <> [].
Proof. destruct s; simpl; split; congruence. Qed.

Lemma nonempty_false (s : str) : nonempty s = false <-> s = [].
Proof. destruct s; simpl; split; congruence. Qed.

Lemma lstrip_spaces (s t : str) :
  forallb isspace s = true -> lstrip (s ++ t) = lstrip t.
Proof.
  induction s as [|c s IH]; simpl; [reflexivity|].
  intros H. apply andb_true_iff in H as [Hc Hs]. now rewrite Hc, IH.
Qed.

Lemma lstrip_keeps (s t : str) :
  forallb isspace s = false -> lstrip (s ++ t) = lstrip s ++ t.
Proof.
  induction s as [|c s IH]; simpl; [discriminate|].
  destruct (isspace c); simpl; [exact IH | reflexivity].
Qed.

Lemma lstrip_nil_iff (s : str) : lstrip s = [] <-> forallb isspace s = true.
Proof.
  induction s as [|c s IH]; simpl; [tauto|].
  destruct (isspace c); simpl; [exact IH | split; discriminate].
Qed.

Lemma forallb_rev {A} (p : A -> bool) (l : list A) :
  forallb p (rev l) = forallb p l.
Proof.
  induction l as [|x l IH]; simpl; [reflexivity|].
  rewrite forallb_app, IH. simpl. rewrite andb_true_r. apply andb_comm.
Qed.

Lemma forallb_lstrip (s : str) : forallb isspace (lstrip s) = forallb isspace s.
Proof.
  induction s as [|c s IH]; simpl; [reflexivity|].
  destruct (isspace c) eqn:Hc; simpl; [exact IH | now rewrite Hc].
Qed.

(** Trimming leaves nothing exactly when the text is all white space. *)
Lemma strip_nil_iff (s : str) : strip s = [] <-> forallb isspace s = true.
Proof.
  unfold strip, rstrip. split; intros H.
  - apply (f_equal (@rev char)) in H. rewrite rev_involutive in H. simpl in H.
    apply lstrip_nil_iff in H. rewrite forallb_rev, forallb_lstrip in H. exact H.
  - replace (lstrip (rev (lstrip s))) with (@nil char); [reflexivity|].
    symmetry. apply lstrip_nil_iff. now rewrite forallb_rev, forallb_lstrip.
Qed.

(** A trailing white-space character does not survive trimming. *)
Lemma strip_snoc_space (s : str) (c : char) :
  isspace c = true -> strip (s ++ [c]) = strip s.
Proof.
  intros Hc. destruct (forallb isspace s) eqn:Hs.
  - assert (H1 : strip s = []) by now apply strip_nil_iff.
    rewrite H1. apply strip_nil_iff. rewrite forallb_app, Hs. simpl. now rewrite Hc.
  - unfold strip, rstrip. rewrite (lstrip_keeps _ _ Hs), rev_app_distr. simpl.
    now rewrite Hc.
Qed.

Lemma text_get_strip (s : str) : strip (text_get s) = strip s.
Proof. apply strip_snoc_space. reflexivity. Qed.

Lemma In_lstrip (x : char) (s : str) : In x (lstrip s) -> In x s.
Proof.
  induction s as [|c s IH]; simpl; [tauto|].
  destruct (isspace c); simpl; tauto.
Qed.

Lemma In_strip (x : char) (s : str) : In x (strip s) -> In x s.
Proof.
  unfold strip, rstrip. intros H.
  apply In_lstrip. apply in_rev. apply In_lstrip. now apply in_rev in H.
Qed.

(** ** The store *)

Lemma find_snoc {A} (p : A -> bool) (l : list A) (x : A) :
  find p l = None -> p x = true -> find p (l ++ [x]) = Some x.
Proof.
  induction l as [|y l IH]; simpl; intros Hl Hx.
  - now rewrite Hx.
  - destruct (p y); [discriminate | now apply IH].
Qed.

Lemma find_snoc_other {A} (p : A -> bool) (l : list A) (x : A) :
  p x = false -> find p (l ++ [x]) = find p l.
Proof.
  induction l as [|y l IH]; simpl; intros Hx.
  - now rewrite Hx.
  - destruct (p y); [reflexivity | now apply IH].
Qed.

Lemma fresh_oid_above (ids : list oid) (i : oid) : In i ids -> i < fresh_oid ids.
Proof.
  unfold fresh_oid. induction ids as [|j ids IH]; simpl; [tauto|].
  intros [->|H]; [lia | specialize (IH H); lia].
Qed.

Lemma find_none_iff {A} (p : A -> bool) (l : list A) :
  find p l = None <-> forall x, In x l -> p x = false.
Proof.
  induction l as [|y l IH]; simpl.
  - split; [intros _ x [] | reflexivity].
  - destruct (p y) eqn:Hy.
    + split; [discriminate|]. intros H. specialize (H y (or_introl eq_refl)). congruence.
    + rewrite IH. split.
      * intros H x [<-|Hx]; auto.
      * intros H x Hx. apply H. now right.
Qed.

(** A freshly inserted user is the one a look-up of the name finds, when
    the name was free. *)
Lemma find_user_inserted (doc : oid -> user) (uname : str) (d : database) :
  find_user uname d = None ->
  (forall i, username (doc i) = uname) ->
  find_user uname (insert_user doc d) =
  Some (doc (fresh_oid (map user_id (users_collection d)))).
Proof.
  intros Hfree Hdoc. unfold find_user, insert_user. simpl.
  apply find_snoc; [exact Hfree|]. rewrite Hdoc. apply str_eqb_refl.
Qed.

(** ** Signup *)

Lemma do_create_accepts uname mail pwd conf now a :
  signup_valid uname mail pwd conf a ->
  do_create uname mail pwd conf now a =
  (show LoginScreen
     (with_db (insert_user (signup_doc (strip uname) (strip mail) (strip pwd) now) (db a)) a),
   [created_dialog]).
Proof.
  intros (Hu & Hm & Hp & Hc & Heq & Hfree). unfold do_create.
  apply nonempty_true in Hu, Hm, Hp, Hc. rewrite Hu, Hm, Hp, Hc. simpl.
  rewrite Heq, str_eqb_refl. simpl. now rewrite Hfree.
Qed.

Lemma do_create_rejects uname mail pwd conf now a :
  ~ signup_valid uname mail pwd conf a ->
  fst (do_create uname mail pwd conf now a) = a
  /\ snd (do_create uname mail pwd conf now a) <> [created_dialog].
Proof.
  intros Hbad. unfold do_create.
  destruct (nonempty (strip uname)) eqn:Hu; simpl; [|split; [reflexivity | discriminate]].
  destruct (nonempty (strip mail)) eqn:Hm; simpl; [|split; [reflexivity | discriminate]].
  destruct (nonempty (strip pwd)) eqn:Hp; simpl; [|split; [reflexivity | discriminate]].
  destruct (nonempty (strip conf)) eqn:Hc; simpl; [|split; [reflexivity | discriminate]].
  destruct (str_eqb (strip pwd) (strip conf)) eqn:Heq; simpl; [|split; [reflexivity | discriminate]].
  destruct (find_user (strip uname) (db a)) eqn:Hfree; simpl; [split; [reflexivity | discriminate]|].
  exfalso. apply Hbad. unfold signup_valid.
  apply nonempty_true in Hu, Hm, Hp, Hc. apply str_eqb_eq in Heq. tauto.
Qed.

Lemma signup_valid_dec uname mail pwd conf a :
  signup_valid uname mail pwd conf a \/ ~ signup_valid uname mail pwd conf a.
Proof.
  unfold signup_valid.
  destruct (list_eq_dec N.eq_dec (strip uname) []); [tauto|].
  destruct (list_eq_dec N.eq_dec (strip mail) []); [tauto|].
  destruct (list_eq_dec N.eq_dec (strip pwd) []); [tauto|].
  destruct (list_eq_dec N.eq_dec (strip conf) []); [tauto|].
  destruct (list_eq_dec N.eq_dec (strip pwd) (strip conf)); [|tauto].
  destruct (find_user (strip uname) (db a)); [right | tauto].
  intros (_ & _ & _ & _ & _ & H). discriminate.
Qed.

Lemma signup_refused_iff uname mail pwd conf a :
  signup_refused uname mail pwd conf a <-> ~ signup_valid uname mail pwd conf a.
Proof.
  unfold signup_refused, signup_valid. split.
  - intros [[H|[H|[H|H]]]|[H|H]] (Hu & Hm & Hp & Hc & Heq & Hfree); congruence.
  - intros H.
    destruct (list_eq_dec N.eq_dec (strip uname) []); [tauto|].
    destruct (list_eq_dec N.eq_dec (strip mail) []); [tauto|].
    destruct (list_eq_dec N.eq_dec (strip pwd) []); [tauto|].
    destruct (list_eq_dec N.eq_dec (strip conf) []); [tauto|].
    destruct (list_eq_dec N.eq_dec (strip pwd) (strip conf)); [|tauto].
    destruct (find_user (strip uname) (db a)) eqn:E; [|tauto].
    right. right. discriminate.
Qed.

Lemma snoc_neq {A} (l : list A) (x : A) : l ++ [x] <> l.
Proof.
  intros H. apply (f_equal (@length A)) in H. rewrite length_app in H. simpl in H. lia.
Qed.



(** ** Login after signup *)

Lemma find_user_after_signup uname mail pwd conf now a :
  signup_valid uname mail pwd conf a ->
  find_user (strip uname) (db (fst (do_create uname mail pwd conf now a))) =
  Some (signup_doc (strip uname) (strip mail) (strip pwd) now
          (fresh_oid (map user_id (users_collection (db a))))).
Proof.
  intros Hv. rewrite (do_create_accepts _ _ _ _ now _ Hv). simpl.
  destruct Hv as (_ & _ & _ & _ & _ & Hfree).
  now apply find_user_inserted.
Qed.

(** What [do_login] answers for a name that leads to [u]. *)
Lemma do_login_found (uname pwd : str) (a : app) (u : user) :
  strip uname <> [] ->
  find_user (strip uname) (db a) = Some u ->
  do_login uname pwd a =
  if nonempty (strip pwd)
  then if str_eqb (password u) (hash_password (strip pwd))
       then (show_dashboard (login_as u a), [])
       else (a, [auth_failed_dialog])
  else (a, [missing_dialog]).
Proof.
  intros Hu Hfind. unfold do_login.
  apply nonempty_true in Hu. rewrite Hu, Hfind. simpl.
  destruct (nonempty (strip pwd)); reflexivity.
Qed.




(** C2, as the code has it: after such a signup, a login with the same
    user name and a password [pwd'] is let in exactly when the trimmed
    [pwd'] is non-empty and has the SHA-256 digest of the trimmed signup
    password; an empty trimmed [pwd'] gets the missing-field warning, any
    other digest the authentication error, and both leave the state as it
    was. *)
Theorem login_with_other_password uname mail pwd conf now a pwd' :
  signup_valid uname mail pwd conf a ->
  let a' := fst (do_create uname mail pwd conf now a) in
  let r := do_login uname pwd' a' in
  (strip pwd' = [] -> r = (a', [missing_dialog]))
  /\ (strip pwd' <> [] ->
      hash_password (strip pwd') <> hash_password (strip pwd) ->
      r = (a', [auth_failed_dialog]))
  /\ (strip pwd' <> [] ->
      hash_password (strip pwd') = hash_password (strip pwd) ->
      exists u, username u = strip uname /\ logged_in u a' r)
  /\ (strip pwd' = strip pwd -> exists u, username u = strip uname /\ logged_in u a' r).
Proof.
  intros Hv a' r. subst a' r.
  pose proof (find_user_after_signup _ _ _ _ now _ Hv) as Hfind.
  assert (Hu : strip uname <> []) by apply Hv.
  assert (Hp : strip pwd <> []) by apply Hv.
  rewrite (do_login_found _ _ _ _ Hu Hfind). simpl password.
  split; [|split; [|split]].
  - intros E. apply nonempty_false in E. now rewrite E.
  - intros Hne Hh. apply nonempty_true in Hne. rewrite Hne.
    assert (E : str_eqb (hash_password (strip pwd)) (hash_password (strip pwd')) = false)
      by (apply str_eqb_neq; congruence).
    now rewrite E.
  - intros Hne Hh. apply nonempty_true in Hne. rewrite Hne, Hh, str_eqb_refl.
    eexists. split; [|reflexivity]. reflexivity.
  - intros E. rewrite E. apply nonempty_true in Hp. rewrite Hp, str_eqb_refl.
    eexists. split; [|reflexivity]. reflexivity.
Qed.

Lemma login_with_other_password_witness :
  do_login (lit "alice") (lit "wrong")
    (fst (do_create (lit "alice") (lit "a@x.com") (lit "pw1") (lit "pw1") stamp
            (at_signup empty_db [])))
  = (fst (do_create (lit "alice") (lit "a@x.com") (lit "pw1") (lit "pw1") stamp
            (at_signup empty_db [])),
     [auth_failed_dialog]).
Proof.
  refine (proj1 (proj2 (login_with_other_password
                          (lit "alice") (lit "a@x.com") (lit "pw1") (lit "pw1") stamp
                          (at_signup empty_db []) (lit "wrong") _)) _ _).
  - unfold signup_valid. vm_compute. repeat split; discriminate.
  - vm_compute. discriminate.
  - vm_compute. discriminate.
Defined.

(** C2 as worded fails: the password typed at login differs from the one
    of the signup by a trailing blank, and the login is let in. *)
Lemma login_with_other_password_counterexample :
  lit "pw1 " <> lit "pw1"
  /\ option_map username
       (current_user
          (fst (do_login (lit "alice") (lit "pw1 ")
                  (fst (do_create (lit "alice") (lit "a@x.com") (lit "pw1") (lit "pw1") stamp
                          (at_signup empty_db []))))))
     = Some (lit "alice").
Proof. split; [discriminate | vm_compute; reflexivity]. Qed.

(** ** Saving *)

Lemma find_upload_inserted (doc : oid -> upload) (d : database) :
  (forall i, up_id (doc i) = i) ->
  let '(i, d') := insert_upload doc d in
  find_upload i d' = Some (doc i)
  /\ uploads_collection d' = uploads_collection d ++ [doc i]
  /\ users_collection d' = users_collection d.
Proof.
  intros Hid. unfold insert_upload, find_upload. simpl.
  split; [|split; reflexivity].
  apply find_snoc.
  - apply find_none_iff. intros r Hr.
    apply N.eqb_neq. intros E.
    assert (Hin : In (up_id r) (map up_id (uploads_collection d))) by now apply in_map.
    apply fresh_oid_above in Hin. lia.
  - rewrite Hid. apply N.eqb_refl.
Qed.

Lemma db_with_status s a : db (with_status s a) = db a.
Proof. reflexivity. Qed.

Lemma db_with_db d a : db (with_db d a) = d.
Proof. reflexivity. Qed.

Lemma status_with_status s a : status_var (with_status s a) = s.
Proof. reflexivity. Qed.

Lemma current_user_with_status s a : current_user (with_status s a) = current_user a.
Proof. reflexivity. Qed.

Lemma pipeline_with_status s a : pipeline (with_status s a) = pipeline a.
Proof. reflexivity. Qed.

Create Rewrite HintDb app_fields.
#[local] Hint Rewrite db_with_status db_with_db status_with_status
  current_user_with_status pipeline_with_status : app_fields.

(** The one accepting path of [save_to_db]. *)
Lemma save_to_db_accepts now a path u :
  selected a = Some path ->
  current_user a = Some u ->
  strip (caption_entry a) <> [] \/ strip (description_entry a) <> [] ->
  let i := fresh_oid (map up_id (uploads_collection (db a))) in
  let d := {| users_collection := users_collection (db a);
              uploads_collection := uploads_collection (db a) ++ [saved_record u path now a i] |} in
  save_to_db now a =
  (with_status (lit "Saved (id=" ++ oid_str i ++ lit ")")
     (with_db d (with_status (lit "Saving to database...") a)),
   [saved_dialog]).
Proof.
  intros Hsel Hu Htext. unfold save_to_db. rewrite Hsel.
  rewrite !text_get_strip.
  assert (E : negb (nonempty (strip (caption_entry a)))
              && negb (nonempty (strip (description_entry a))) = false).
  { destruct Htext as [H|H]; apply nonempty_true in H; rewrite H; simpl;
      [reflexivity | apply andb_false_r]. }
  rewrite E. cbv beta iota zeta.
  change (current_user (with_status (lit "Saving to database...") a)) with (current_user a).
  change (db (with_status (lit "Saving to database...") a)) with (db a).
  rewrite Hu. unfold save_upload_record, insert_upload, saved_record.
  cbv beta iota zeta. rewrite !text_get_strip. reflexivity.
Qed.

(** The refusing path of [save_to_db]. *)
Lemma save_rejects_empty_text_at now a path :
  selected a = Some path ->
  strip (caption_entry a) = [] ->
  strip (description_entry a) = [] ->
  save_to_db now a = (a, [empty_dialog]).
Proof.
  intros Hsel Hc Hd. unfold save_to_db. rewrite Hsel, !text_get_strip, Hc, Hd. reflexivity.
Qed.

(** C4: with an image selected and both widgets empty once trimmed, the
    save handler stops at its warning; the application state, and with it
    the store and its uploads collection, is what it was. *)
Theorem save_rejects_empty_text now a path :
  selected a = Some path ->
  strip (caption_entry a) = [] ->
  strip (description_entry a) = [] ->
  save_to_db now a = (a, [empty_dialog])
  /\ db (fst (save_to_db now a)) = db a
  /\ uploads_collection (db (fst (save_to_db now a))) = uploads_collection (db a).
Proof.
  intros Hsel Hc Hd.
  assert (E : save_to_db now a = (a, [empty_dialog])).
  { unfold save_to_db. rewrite Hsel, !text_get_strip, Hc, Hd. reflexivity. }
  rewrite E. auto.
Qed.

Lemma save_rejects_empty_text_witness :
  save_to_db stamp (at_dashboard (lit "  ") []) = (at_dashboard (lit "  ") [], [empty_dialog]).
Proof.
  apply (save_rejects_empty_text stamp (at_dashboard (lit "  ") [])
           (lit "artisan_images/alice_1700000000000.jpg")); reflexivity.
Defined.




(** ** Generating *)

Lemma generate_preview_shows gen a path result p :
  selected a = Some path ->
  gen path (pipeline a) = (Ret (Some result), p) ->
  generate_preview gen a =
  (let caption := py_or (get_default (lit "caption") (VStr []) result) (VStr []) in
   let description := py_or (get_default (lit "description") (VStr []) result) caption in
   show_generated caption description (with_pipeline p a), []).
Proof.
  intros Hsel Hgen. unfold generate_preview. rewrite Hsel.
  cbv zeta. rewrite pipeline_with_status, Hgen. reflexivity.
Qed.




(** ** The fallback stub *)

Lemma stub_returns path s :
  blip_process_single_image_stub path s =
  (Ret (Some [(lit "image", VNone);
              (lit "caption", VStr (placeholder_caption path));
              (lit "description", VStr (placeholder_description path))]), s).
Proof. reflexivity. Qed.

Lemma generate_preview_stub a path :
  selected a = Some path ->
  generate_preview blip_process_single_image_stub a =
  (show_generated (VStr (placeholder_caption path)) (VStr (placeholder_description path)) a, []).
Proof.
  intros Hsel.
  rewrite (generate_preview_shows _ a path _ (pipeline a) Hsel (stub_returns path (pipeline a))).
  destruct a; reflexivity.
Qed.


(** The scenario of the specification: the base name [photo.jpg]. *)
Example stub_on_photo :
  fst (blip_process_single_image_stub (lit "/home/alice/Pictures/photo.jpg") quiet)
  = Ret (Some [(lit "image", VNone);
               (lit "caption", VStr (lit "Placeholder caption for photo.jpg"));
               (lit "description",
                VStr (lit "Placeholder description for photo.jpg -- model not loaded."))]).
Proof. vm_compute. reflexivity. Qed.

(** ** The caption cache *)

Lemma dict_get_set_same {V} (k : str) (v : V) (d : dict V) :
  dict_get k (dict_set k v d) = Some v.
Proof.
  induction d as [|[k' v'] d IH]; simpl.
  - now rewrite str_eqb_refl.
  - destruct (str_eqb k' k) eqn:E; simpl; rewrite E; [reflexivity | exact IH].
Qed.

Lemma dict_get_set_other {V} (k k0 : str) (v : V) (d : dict V) :
  k0 <> k -> dict_get k0 (dict_set k v d) = dict_get k0 d.
Proof.
  intros Hne. induction d as [|[k' v'] d IH]; simpl.
  - assert (E : str_eqb k k0 = false) by (apply str_eqb_neq; congruence).
    now rewrite E.
  - destruct (str_eqb k' k) eqn:E; simpl.
    + apply str_eqb_eq in E. subst k'.
      assert (E' : str_eqb k k0 = false) by (apply str_eqb_neq; congruence).
      now rewrite E'.
    + now rewrite IH.
Qed.

Lemma dict_set_new {V} (k : str) (v : V) (d : dict V) :
  dict_get k d = None -> dict_set k v d = d ++ [(k, v)].
Proof.
  induction d as [|[k' v'] d IH]; simpl; [reflexivity|].
  destruct (str_eqb k' k); [discriminate|]. intros H. now rewrite IH.
Qed.

Lemma dict_set_keys {V} (k : str) (v : V) (d : dict V) :
  dict_get k d <> None -> map fst (dict_set k v d) = map fst d.
Proof.
  induction d as [|[k' v'] d IH]; simpl; [congruence|].
  destruct (str_eqb k' k); simpl; [reflexivity|]. intros H. now rewrite IH.
Qed.

(** What [save_to_json] does, by what the file holds and by what the
    operating system makes of the write. *)
Lemma save_to_json_cases image_name caption description s :
  match cache_members (cache s) with
  | None =>
      exists e, is_exception e = true
                /\ save_to_json image_name caption description s = (Raise e, s)
  | Some members =>
      let data :=
        JObj (dict_set image_name
                (JObj [(lit "caption", JStr caption); (lit "description", JStr description)])
                members) in
      save_to_json image_name caption description s =
      match disk s with
      | [] => (Ret tt, {| cache := Holds data; console := console s; disk := [] |})
      | Written :: rest => (Ret tt, {| cache := Holds data; console := console s; disk := rest |})
      | OpenFails e :: rest =>
          (Raise e, {| cache := cache s; console := console s; disk := rest |})
      | DumpFails e remains :: rest =>
          (Raise e, {| cache := remains; console := console s; disk := rest |})
      end
  end.
Proof.
  unfold save_to_json, bind, read_cache, write_cache.
  destruct s as [file out answers]. cbn [cache console disk].
  destruct file as [|[| | | | |m]|why]; cbn [cache_members ret raise];
    try (eexists; split; [|reflexivity]; reflexivity);
    cbv zeta; destruct answers as [|[|e|e remains] rest]; reflexivity.
Qed.

Lemma save_to_json_writes image_name caption description s members :
  cache_members (cache s) = Some members ->
  write_goes_through s ->
  save_to_json image_name caption description s =
  (Ret tt, {| cache := Holds (JObj (dict_set image_name
                                      (JObj [(lit "caption", JStr caption);
                                             (lit "description", JStr description)])
                                      members));
              console := console s;
              disk := tl (disk s) |}).
Proof.
  intros Hm Hw. pose proof (save_to_json_cases image_name caption description s) as H.
  rewrite Hm in H. cbv zeta in H. rewrite H.
  destruct Hw as [E|[rest E]]; rewrite E; reflexivity.
Qed.

(** C7, as the code has it: whatever mapping the cache file held (none,
    when the file was absent), a write of an entry for [image_name] that
    the operating system carries out leaves a file that holds a mapping in
    which [image_name] leads to exactly the new caption and description and
    every other key to what it led to before; a key that was there keeps
    its place, a new one goes last, and a second write for the same key
    replaces the first.  When opening the file for writing raises,
    [save_to_json] raises that exception and the file is as it was; when
    the exception comes after the file was opened, [save_to_json] raises it
    and the file holds what the broken write left. *)
Theorem save_to_json_merges image_name caption description prior out answers :
  let s := {| cache := cache_of prior; console := out; disk := answers |} in
  let entry := JObj [(lit "caption", JStr caption); (lit "description", JStr description)] in
  (write_goes_through s ->
   exists members',
     save_to_json image_name caption description s
     = (Ret tt, {| cache := Holds (JObj members'); console := out; disk := tl answers |})
     /\ dict_get image_name members' = Some entry
     /\ (forall k, k <> image_name -> dict_get k members' = dict_get k (members_of prior))
     /\ (dict_get image_name (members_of prior) = None ->
         members' = members_of prior ++ [(image_name, entry)])
     /\ (dict_get image_name (members_of prior) <> None ->
         map fst members' = map fst (members_of prior))
     /\ (forall caption2 description2 answers2,
            write_goes_through
              {| cache := Holds (JObj members'); console := out; disk := answers2 |} ->
            exists members'',
              save_to_json image_name caption2 description2
                {| cache := Holds (JObj members'); console := out; disk := answers2 |}
              = (Ret tt, {| cache := Holds (JObj members''); console := out;
                            disk := tl answers2 |})
              /\ dict_get image_name members''
                 = Some (JObj [(lit "caption", JStr caption2);
                               (lit "description", JStr description2)])
              /\ (forall k, k <> image_name ->
                    dict_get k members'' = dict_get k (members_of prior))))
  /\ (forall e rest,
         answers = OpenFails e :: rest ->
         save_to_json image_name caption description s
         = (Raise e, {| cache := cache_of prior; console := out; disk := rest |}))
  /\ (forall e remains rest,
         answers = DumpFails e remains :: rest ->
         save_to_json image_name caption description s
         = (Raise e, {| cache := remains; console := out; disk := rest |})).
Proof.
  intros s entry. subst s entry.
  assert (Hm : forall answers',
             cache_members (cache {| cache := cache_of prior; console := out; disk := answers' |})
             = Some (members_of prior)) by (intros; destruct prior; reflexivity).
  split; [|split].
  - intros Hw.
    exists (dict_set image_name
              (JObj [(lit "caption", JStr caption); (lit "description", JStr description)])
              (members_of prior)).
    split; [exact (save_to_json_writes _ _ _ _ _ (Hm answers) Hw)|].
    split; [apply dict_get_set_same|].
    split; [intros k Hk; now apply dict_get_set_other|].
    split; [apply dict_set_new|].
    split; [apply dict_set_keys|].
    intros caption2 description2 answers2 Hw2. eexists. split.
    { apply (save_to_json_writes image_name caption2 description2
               {| cache := Holds (JObj _); console := out; disk := answers2 |});
        [reflexivity | exact Hw2]. }
    split; [apply dict_get_set_same|].
    intros k Hk. now rewrite !dict_get_set_other.
  - intros e rest ->.
    pose proof (save_to_json_cases image_name caption description
                  {| cache := cache_of prior; console := out; disk := OpenFails e :: rest |}) as H.
    rewrite Hm in H. exact H.
  - intros e remains rest ->.
    pose proof (save_to_json_cases image_name caption description
                  {| cache := cache_of prior; console := out;
                     disk := DumpFails e remains :: rest |}) as H.
    rewrite Hm in H. exact H.
Qed.

Lemma save_to_json_merges_witness :
  exists members',
    save_to_json (lit "b.jpg") (lit "a cat") (lit "A cat sits.")
      {| cache := Holds (JObj [(lit "a.jpg", JNull)]); console := []; disk := [] |}
    = (Ret tt, {| cache := Holds (JObj members'); console := []; disk := [] |})
    /\ dict_get (lit "a.jpg") members' = Some JNull
    /\ dict_get (lit "b.jpg") members'
       = Some (JObj [(lit "caption", JStr (lit "a cat"));
                     (lit "description", JStr (lit "A cat sits."))]).
Proof.
  destruct (proj1 (save_to_json_merges (lit "b.jpg") (lit "a cat") (lit "A cat sits.")
                     (Some [(lit "a.jpg", JNull)]) [] []))
    as (members' & Hrun & Hnew & Hold & _).
  - left. reflexivity.
  - exists members'. split; [exact Hrun|]. split; [|exact Hnew].
    rewrite Hold; [reflexivity | discriminate].
Defined.

(** C7 as worded fails when the write does: with the folder of the cache
    file missing there is no file, opening one for writing raises, and no
    mapping is produced; and when the write breaks off after the file was
    opened (here: emptied, the disk being full), the key that was there
    has lost its value. *)
Lemma save_to_json_write_counterexample :
  (let missing_folder :=
     Exception (lit "FileNotFoundError")
       (lit "[Errno 2] No such file or directory: './artisan_images/captions.json'") in
   save_to_json (lit "b.jpg") (lit "a cat") (lit "A cat sits.")
     {| cache := Absent; console := []; disk := [OpenFails missing_folder] |}
   = (Raise missing_folder, {| cache := Absent; console := []; disk := [] |})
   /\ cache_lookup (lit "b.jpg") Absent = None)
  /\ (let disk_full := Exception (lit "OSError") (lit "[Errno 28] No space left on device") in
      let emptied := Garbled (lit "Expecting value: line 1 column 1 (char 0)") in
      let s' := snd (save_to_json (lit "b.jpg") (lit "a cat") (lit "A cat sits.")
                       {| cache := Holds (JObj [(lit "a.jpg", JStr (lit "kept"))]);
                          console := []; disk := [DumpFails disk_full emptied] |}) in
      cache_lookup (lit "a.jpg") (Holds (JObj [(lit "a.jpg", JStr (lit "kept"))]))
      = Some (JStr (lit "kept"))
      /\ cache_lookup (lit "a.jpg") (cache s') = None
      /\ cache_lookup (lit "b.jpg") (cache s') = None).
Proof. split; cbv zeta; vm_compute; repeat split. Qed.

(** ** Exceptions during generation *)

Lemma expand_caption_on_failure env caption n type message :
  gemini_generate env (prompt_for caption n) = Raise (Exception type message) ->
  expand_caption_to_story env caption n
  = Ret ([cross_mark] ++ lit " Gemini expansion failed: " ++ message).
Proof. intros H. unfold expand_caption_to_story. now rewrite H. Qed.

Lemma expand_caption_on_success env caption n text :
  gemini_generate env (prompt_for caption n) = Ret text ->
  expand_caption_to_story env caption n = Ret (strip text).
Proof. intros H. unfold expand_caption_to_story. now rewrite H. Qed.

Lemma expand_caption_raises env caption n e :
  expand_caption_to_story env caption n = Raise e ->
  is_exception e = false /\ gemini_generate env (prompt_for caption n) = Raise e.
Proof.
  unfold expand_caption_to_story.
  destruct (gemini_generate env (prompt_for caption n)) as [text|e']; [discriminate|].
  destruct (is_exception e') eqn:E; [discriminate|].
  intros [= <-]. now split.
Qed.

Lemma process_single_image_cases env path s :
  let r := process_single_image env path s in
  (exists img caption description members,
      path_exists env path = true
      /\ image_open env path = Ret img
      /\ blip_generate env img = Ret caption
      /\ expand_caption_to_story env caption 3 = Ret description
      /\ image_show env img = Ret tt
      /\ cache_members (cache s) = Some members
      /\ write_goes_through s
      /\ fst r = Ret (Some [(lit "image", VImage img);
                            (lit "caption", VStr caption);
                            (lit "description", VStr description)])
      /\ cache (snd r)
         = Holds (JObj (dict_set (basename path)
                          (JObj [(lit "caption", JStr caption);
                                 (lit "description", JStr description)])
                          members))
      /\ disk (snd r) = tl (disk s))
  \/ ((fst r = Ret None \/ exists e, fst r = Raise e /\ is_exception e = false)
      /\ ((cache (snd r) = cache s
           /\ (disk (snd r) = disk s \/ disk (snd r) = tl (disk s)))
          \/ (exists e remains rest,
                 disk s = DumpFails e remains :: rest
                 /\ cache_members (cache s) <> None
                 /\ cache (snd r) = remains
                 /\ disk (snd r) = rest))).
Proof.
  assert (Hquiet : forall (o : outcome (option (dict pyval))) (s' : pstate),
             (o = Ret None \/ exists e, o = Raise e /\ is_exception e = false) ->
             cache s' = cache s -> disk s' = disk s ->
             (fst (o, s') = Ret None \/ exists e, fst (o, s') = Raise e /\ is_exception e = false)
             /\ ((cache (snd (o, s')) = cache s
                  /\ (disk (snd (o, s')) = disk s \/ disk (snd (o, s')) = tl (disk s)))
                 \/ (exists e remains rest,
                        disk s = DumpFails e remains :: rest
                        /\ cache_members (cache s) <> None
                        /\ cache (snd (o, s')) = remains
                        /\ disk (snd (o, s')) = rest))).
  { intros o s' Ho Hc Hd. split; [exact Ho|]. left. split; [exact Hc | now left]. }
  cbv zeta. unfold process_single_image.
  destruct (path_exists env path) eqn:Hex;
    [|right; apply Hquiet; [now left | reflexivity | reflexivity]].
  change (negb true) with false. cbv beta iota.
  unfold try_except, bind, lift, print, ret.
  destruct (image_open env path) as [img|e] eqn:Hopen;
    [|right; destruct (is_exception e) eqn:He; apply Hquiet;
      try reflexivity; [now left | right; now exists e]].
  cbv beta iota zeta.
  destruct (blip_generate env img) as [caption|e] eqn:Hblip;
    [|right; destruct (is_exception e) eqn:He; apply Hquiet;
      try reflexivity; [now left | right; now exists e]].
  cbv beta iota zeta.
  destruct (expand_caption_to_story env caption 3) as [description|e] eqn:Hexp;
    [|right; destruct (expand_caption_raises _ _ _ _ Hexp) as [He _]; rewrite He;
      apply Hquiet; try reflexivity; right; now exists e].
  cbv beta iota zeta.
  destruct (image_show env img) as [[]|e] eqn:Hshow;
    [|right; destruct (is_exception e) eqn:He; apply Hquiet;
      try reflexivity; [now left | right; now exists e]].
  cbv beta iota zeta. cbn [cache console disk].
  match goal with
  | |- context [save_to_json ?n ?c ?d ?st] =>
      pose proof (save_to_json_cases n c d st) as Hsave; cbn [cache console disk] in Hsave
  end.
  destruct (cache_members (cache s)) as [members|] eqn:Hm.
  - cbv zeta in Hsave. rewrite Hsave.
    destruct (disk s) as [|[|e|e remains] rest] eqn:Hdisk.
    + left. exists img, caption, description, members.
      repeat split; try assumption; try reflexivity. now left.
    + left. exists img, caption, description, members.
      repeat split; try assumption; try reflexivity. right. now exists rest.
    + right. destruct (is_exception e) eqn:He; (split; [|left; split; [reflexivity | now right]]);
        [now left | right; now exists e].
    + right. destruct (is_exception e) eqn:He;
        (split; [|right; exists e, remains, rest; repeat split; congruence]);
        [now left | right; now exists e].
  - destruct Hsave as (e & He & ->). rewrite He. right.
    split; [now left|]. left. split; [reflexivity | now left].
Qed.



(** ** Paths *)

Lemma rfind_lower (c : char) (s : str) : (-1 <= rfind c s)%Z.
Proof.
  induction s as [|x s IH]; simpl; [lia|].
  destruct (0 <=? rfind c s)%Z eqn:E; [apply Z.leb_le in E; lia|].
  destruct (x =? c); lia.
Qed.

(** Nothing after the last occurrence is an occurrence. *)
Lemma rfind_skipn (c : char) (s : str) (n : nat) :
  (rfind c s < Z.of_nat n)%Z -> ~ In c (skipn n s).
Proof.
  revert n. induction s as [|x s IH]; intros n; simpl.
  - intros _. now destruct n.
  - pose proof (rfind_lower c s) as Hlow.
    destruct (0 <=? rfind c s)%Z eqn:E.
    + apply Z.leb_le in E. intros H. destruct n as [|n]; [lia|].
      simpl. apply IH. lia.
    + apply Z.leb_gt in E. destruct (x =? c) eqn:Ex; intros H.
      * destruct n as [|n]; [lia|]. simpl. apply IH. lia.
      * destruct n as [|n]; simpl.
        -- intros [Hx|Hin]; [apply N.eqb_neq in Ex; congruence|].
           apply (IH 0%nat); [lia | exact Hin].
        -- apply IH. lia.
Qed.

Lemma rfind_absent (c : char) (s : str) : ~ In c s -> rfind c s = (-1)%Z.
Proof.
  induction s as [|x s IH]; simpl; [reflexivity|].
  intros H. rewrite IH by tauto. simpl.
  destruct (x =? c) eqn:E; [|reflexivity].
  apply N.eqb_eq in E. tauto.
Qed.

Lemma rfind_app_absent (c : char) (s t : str) :
  ~ In c t -> rfind c (s ++ t) = rfind c s.
Proof.
  intros Ht. induction s as [|x s IH]; simpl.
  - now apply rfind_absent.
  - now rewrite IH.
Qed.

Lemma rfind_snoc (c : char) (s : str) : rfind c (s ++ [c]) = Z.of_nat (length s).
Proof.
  induction s as [|x s IH]; simpl.
  - now rewrite N.eqb_refl.
  - rewrite IH. destruct (0 <=? Z.of_nat (length s))%Z eqn:E; [lia|].
    apply Z.leb_gt in E. lia.
Qed.

Lemma basename_after_sep (a name : str) :
  ~ In sep name -> basename ((a ++ [sep]) ++ name) = name.
Proof.
  intros H. unfold basename, drop.
  rewrite (rfind_app_absent sep _ _ H), rfind_snoc.
  replace (Z.to_nat (Z.of_nat (length a) + 1)) with (length (a ++ [sep])).
  - rewrite skipn_app, skipn_all, Nat.sub_diag. reflexivity.
  - rewrite length_app. simpl. lia.
Qed.

Lemma basename_plain (name : str) : ~ In sep name -> basename name = name.
Proof.
  intros H. unfold basename, drop. now rewrite (rfind_absent sep name H).
Qed.

Lemma startswith_absent (c : char) (s : str) : ~ In c s -> startswith c s = false.
Proof.
  destruct s as [|x s]; simpl; [reflexivity|].
  intros H. apply N.eqb_neq. tauto.
Qed.

Lemma endswith_snoc (c : char) (s : str) :
  endswith c s = true -> exists a, s = a ++ [c].
Proof.
  unfold endswith. destruct (rev s) as [|x r] eqn:E; simpl; [discriminate|].
  intros H. apply N.eqb_eq in H. subst x. exists (rev r).
  apply (f_equal (@rev char)) in E. rewrite rev_involutive in E. exact E.
Qed.

(** Joining a directory and one file name puts the name last. *)
Lemma path_join_component (dir name : str) :
  ~ In sep name ->
  basename (path_join dir name) = name
  /\ (path_join dir name = dir ++ name \/ path_join dir name = dir ++ [sep] ++ name).
Proof.
  intros H. unfold path_join. rewrite (startswith_absent _ _ H).
  destruct dir as [|d dir]; simpl nonempty; simpl negb; simpl orb.
  - split; [now apply basename_plain | now left].
  - destruct (endswith sep (d :: dir)) eqn:E.
    + split; [|now left]. apply endswith_snoc in E as [a ->].
      now apply basename_after_sep.
    + split; [|now right].
      rewrite app_assoc. now apply basename_after_sep.
Qed.

(** The extension [splitext] returns holds no separator. *)
Lemma splitext_ext_no_sep (p : str) : ~ In sep (snd (splitext p)).
Proof.
  unfold splitext.
  destruct ((rfind sep p <? rfind extsep p)%Z) eqn:E; simpl; [|tauto].
  destruct (existsb _ _); simpl; [|tauto].
  apply Z.ltb_lt in E. unfold drop. apply rfind_skipn.
  pose proof (rfind_lower sep p). lia.
Qed.

Lemma uint_no_sep (d : Decimal.uint) :
  ~ In sep (lit (NilEmpty.string_of_uint d)).
Proof.
  induction d; simpl; try tauto;
    intros [H|H]; try discriminate; now apply IHd.
Qed.

(** A decimal numeral holds no separator. *)
Lemma str_of_Z_no_sep (z : Z) : ~ In sep (str_of_Z z).
Proof.
  unfold str_of_Z, NilZero.string_of_int.
  destruct (Z.to_int z) as [d|d].
  - unfold NilZero.string_of_uint. destruct d; try apply uint_no_sep.
    simpl. intros [H|H]; [discriminate | exact H].
  - unfold NilZero.string_of_uint.
    assert (H : forall u, ~ In sep (lit (String "-" u)) <-> ~ In sep (lit u)).
    { intros u. simpl. split; [tauto|]. intros Hu [E|Hin]; [discriminate | tauto]. }
    apply H. destruct d; try apply uint_no_sep.
    simpl. intros [E|E]; [discriminate | exact E].
Qed.

Example str_of_Z_values :
  str_of_Z 0 = lit "0" /\ str_of_Z (-12) = lit "-12"
  /\ str_of_Z 1700000000000 = lit "1700000000000".
Proof. vm_compute. repeat split. Qed.

Example splitext_values :
  splitext (lit "/home/a.b/photo.tar.gz") = (lit "/home/a.b/photo.tar", lit ".gz")
  /\ splitext (lit "/home/a.b/photo") = (lit "/home/a.b/photo", [])
  /\ splitext (lit "/home/.bashrc") = (lit "/home/.bashrc", [])
  /\ splitext (lit "..x.") = (lit "..x", lit ".")
  /\ basename (lit "/home/a/photo.jpg") = lit "photo.jpg"
  /\ basename (lit "photo.jpg") = lit "photo.jpg"
  /\ path_join (lit "artisan_images") (lit "a.jpg") = lit "artisan_images/a.jpg"
  /\ path_join (lit "/srv/img/") (lit "a.jpg") = lit "/srv/img/a.jpg".
Proof. vm_compute. repeat split. Qed.

(** ** Intake *)

Section IntakeProperties.

Variable IMAGE_FOLDER : str.
Variable unicode_isalnum : char -> bool.
Variable unicode_isprintable : char -> bool.

(** [H : In c l] for a literal list [l] that does not hold [c]. *)
Ltac not_in_literal H :=
  simpl in H; repeat (destruct H as [H|H]; [discriminate|]); exact H.

Lemma In_sep_app (s t : str) : ~ In sep s -> ~ In sep t -> ~ In sep (s ++ t).
Proof. intros Hs Ht H. apply in_app_or in H. tauto. Qed.

Lemma safe_user_no_sep (uname : str) :
  ~ In sep (filter (fun c => isalnum unicode_isalnum c || (c =? 95) || (c =? 45)) uname).
Proof.
  intros H. apply filter_In in H as [_ H]. discriminate H.
Qed.

(** The name of the copy is one file name. *)
Lemma dest_name_component (src uname : str) (ts : Z) :
  single_component (dest_name unicode_isalnum src uname ts).
Proof.
  unfold dest_name.
  set (safe := strip (filter _ uname)).
  set (ext := snd (splitext src)).
  set (user := if nonempty safe then safe else lit "user").
  set (e := if nonempty ext then ext else lit ".jpg").
  assert (Huser : user <> [] /\ ~ In sep user).
  { subst user. destruct (nonempty safe) eqn:E.
    - split; [now apply nonempty_true|].
      subst safe. intros H. apply In_strip in H. now apply safe_user_no_sep in H.
    - split; [discriminate|]. intros H. not_in_literal H. }
  assert (He : ~ In sep e).
  { subst e. destruct (nonempty ext).
    - apply splitext_ext_no_sep.
    - intros H. not_in_literal H. }
  destruct Huser as [Hne Hsep].
  assert (Hunder : In 95 (user ++ lit "_" ++ str_of_Z ts ++ e)).
  { apply in_or_app. right. now left. }
  repeat split.
  - destruct user; [congruence | discriminate].
  - apply In_sep_app; [exact Hsep|]. apply In_sep_app.
    + simpl. intros [H|H]; [discriminate | exact H].
    + apply In_sep_app; [apply str_of_Z_no_sep | exact He].
  - intros E. rewrite E in Hunder. not_in_literal Hunder.
  - intros E. rewrite E in Hunder. not_in_literal Hunder.
Qed.

(** Joining a directory and one file name gives a path directly inside
    the directory. *)
Lemma path_join_inside (dir name : str) :
  single_component name -> inside dir (path_join dir name).
Proof.
  intros Hname. exists name. split; [exact Hname|].
  destruct Hname as (_ & Hsep & _).
  unfold path_join. rewrite (startswith_absent _ _ Hsep).
  destruct dir as [|d dir]; cbn [nonempty negb orb].
  - right. split; [now left | reflexivity].
  - destruct (endswith sep (d :: dir)) eqn:E.
    + right. split; [|reflexivity]. right. now apply endswith_snoc.
    + now left.
Qed.

Lemma copy2_returns (os : copy_answer) (src dst : str) (f f' : fs) :
  copy2 unicode_isprintable os src dst f = (Ret tt, f') ->
  dst <> src
  /\ exists bytes, dict_get src f = Some bytes /\ f' = dict_set dst bytes f.
Proof.
  unfold copy2. destruct (dict_get src f) as [bytes|]; [|discriminate].
  cbv zeta. destruct (str_eqb src dst) eqn:E; [discriminate|].
  apply str_eqb_neq in E.
  assert (Hok : (Ret tt, dict_set dst bytes f) = (Ret tt, f') ->
                dst <> src /\ exists b, Some bytes = Some b /\ f' = dict_set dst b f).
  { intros [= <-]. split; [congruence|]. now exists bytes. }
  destruct os as [| |e|e written]; try discriminate; try exact Hok.
  destruct (dict_get dst f) as [other|]; [|exact Hok].
  destruct (list_eq_dec N.eq_dec other bytes); [discriminate | exact Hok].
Qed.

(** A copy that raises leaves the files as they were, unless it broke off
    after the destination was opened. *)
Lemma copy2_raises (os : copy_answer) (src dst : str) (f f' : fs) (e : exn) :
  copy2 unicode_isprintable os src dst f = (Raise e, f') ->
  f' = f
  \/ exists written bytes,
       os = Breaks e written
       /\ dict_get src f = Some bytes
       /\ f' = dict_set dst (firstn written bytes) f.
Proof.
  unfold copy2. destruct (dict_get src f) as [bytes|]; [|intros [= _ <-]; now left].
  cbv zeta. destruct (str_eqb src dst); [intros [= _ <-]; now left|].
  destruct os as [| |e'|e' written]; try discriminate.
  - destruct (dict_get dst f) as [other|]; [|discriminate].
    destruct (list_eq_dec N.eq_dec other bytes); [intros [= _ <-]; now left | discriminate].
  - intros [= _ <-]. now left.
  - intros [= <- <-]. right. now exists written, bytes.
Qed.

(** What a successful intake copy returns: a path directly inside the
    owned directory, other than the source, holding the bytes of the
    source; no other file changes. *)
Lemma save_image_to_project_returns (src uname : str) (ts : Z) (os : copy_answer)
    (f f' : fs) (dest : str) :
  save_image_to_project IMAGE_FOLDER unicode_isalnum unicode_isprintable src uname ts os f
  = (Ret dest, f') ->
  dest = path_join IMAGE_FOLDER (dest_name unicode_isalnum src uname ts)
  /\ inside IMAGE_FOLDER dest
  /\ dest <> src
  /\ dict_get src f <> None
  /\ dict_get dest f' = dict_get src f
  /\ (forall q, q <> dest -> dict_get q f' = dict_get q f).
Proof.
  unfold save_image_to_project.
  destruct (copy2 _ os src _ f) as [[[]|e] f1] eqn:Hcopy; [|discriminate].
  intros [= <- <-].
  apply copy2_returns in Hcopy as (Hne & bytes & Hsrc & ->).
  pose proof (dest_name_component src uname ts) as Hname.
  split; [reflexivity|]. split; [now apply path_join_inside|].
  split; [exact Hne|]. split; [congruence|]. split.
  - now rewrite dict_get_set_same.
  - intros q Hq. now apply dict_get_set_other.
Qed.

(** An intake copy that raises returns no path; the files are as they
    were, unless the copy broke off after the destination was opened. *)
Lemma save_image_to_project_raises (src uname : str) (ts : Z) (os : copy_answer)
    (f f' : fs) (e : exn) :
  save_image_to_project IMAGE_FOLDER unicode_isalnum unicode_isprintable src uname ts os f
  = (Raise e, f') ->
  f' = f \/ exists written, os = Breaks e written.
Proof.
  unfold save_image_to_project.
  destruct (copy2 _ os src _ f) as [[[]|e'] f1] eqn:Hcopy; [discriminate|].
  intros [= <- <-].
  apply copy2_raises in Hcopy as [->|(written & bytes & -> & _)]; [now left|].
  right. now exists written.
Qed.

(** The two ways [select_image] ends for a chosen path and a logged-in
    user. *)
Lemma select_image_cases (path : str) (ts : Z) (os : copy_answer) (a : app) (u : user) :
  path <> [] ->
  current_user a = Some u ->
  match save_image_to_project IMAGE_FOLDER unicode_isalnum unicode_isprintable
          path (username u) ts os (files a) with
  | (Ret dest, f') =>
      exists a',
        select_image IMAGE_FOLDER unicode_isalnum unicode_isprintable path ts os a = (a', [])
        /\ selected_image_path a' = Some dest
        /\ files a' = f'
        /\ db a' = db a
        /\ caption_entry a' = [] /\ description_entry a' = []
  | (Raise e, f') =>
      select_image IMAGE_FOLDER unicode_isalnum unicode_isprintable path ts os a =
      (with_files f' a,
       if is_exception e
       then [showerror (lit "Error") (lit "Failed to select image: " ++ exn_msg e)]
       else [])
  end.
Proof.
  intros Hpath Hu. unfold select_image.
  apply nonempty_true in Hpath. rewrite Hpath, Hu. simpl negb. cbv iota.
  destruct (save_image_to_project _ _ _ _ _ _ _ _) as [[dest|e] f'].
  - eexists. split; [reflexivity|]. repeat split.
  - now destruct (is_exception e).
Qed.

(** *** The paths the application holds *)

Lemma run_app gen a evs1 evs2 :
  run IMAGE_FOLDER unicode_isalnum unicode_isprintable gen a (evs1 ++ evs2)
  = run IMAGE_FOLDER unicode_isalnum unicode_isprintable gen
      (run IMAGE_FOLDER unicode_isalnum unicode_isprintable gen a evs1) evs2.
Proof.
  revert a. induction evs1 as [|ev evs1 IH]; intros a; simpl; [reflexivity | apply IH].
Qed.

Lemma copied_by_more gen a0 evs ev q :
  copied_by IMAGE_FOLDER unicode_isalnum unicode_isprintable gen a0 evs q ->
  copied_by IMAGE_FOLDER unicode_isalnum unicode_isprintable gen a0 (evs ++ [ev]) q.
Proof.
  intros (before & path & ts & os & after & E & H).
  exists before, path, ts, os, (after ++ [ev]). cbv zeta in *.
  split; [|exact H]. rewrite E, <- app_assoc. reflexivity.
Qed.

Lemma selected_some (a : app) (path : str) :
  selected a = Some path -> selected_image_path a = Some path.
Proof.
  unfold selected. destruct (selected_image_path a) as [p|]; [|discriminate].
  destruct (nonempty p); [congruence | discriminate].
Qed.

(** What one step does to the selection and to the uploads: the selection
    stays, is dropped, or is the copy of a file chosen on the dashboard;
    the uploads stay, or gain one record for the selection. *)
Lemma step_paths gen a ev :
  let a' := fst (step IMAGE_FOLDER unicode_isalnum unicode_isprintable gen a ev) in
  (selected_image_path a' = selected_image_path a
   \/ selected_image_path a' = None
   \/ exists path ts os q,
        ev = SelectImage path ts os
        /\ shown a = DashboardScreen
        /\ q <> path
        /\ inside IMAGE_FOLDER q
        /\ selected_image_path a' = Some q
        /\ dict_get path (files a) <> None
        /\ dict_get q (files a') = dict_get path (files a))
  /\ (uploads_collection (db a') = uploads_collection (db a)
      \/ exists r q,
           uploads_collection (db a') = uploads_collection (db a) ++ [r]
           /\ selected_image_path a = Some q
           /\ up_image_path r = q).
Proof.
  assert (Hsame : forall a', selected_image_path a' = selected_image_path a ->
                             uploads_collection (db a') = uploads_collection (db a) ->
                             (selected_image_path a' = selected_image_path a
                              \/ selected_image_path a' = None
                              \/ exists path ts os q,
                                   ev = SelectImage path ts os
                                   /\ shown a = DashboardScreen
                                   /\ q <> path
                                   /\ inside IMAGE_FOLDER q
                                   /\ selected_image_path a' = Some q
                                   /\ dict_get path (files a) <> None
                                   /\ dict_get q (files a') = dict_get path (files a))
                             /\ (uploads_collection (db a') = uploads_collection (db a)
                                 \/ exists r q,
                                      uploads_collection (db a')
                                      = uploads_collection (db a) ++ [r]
                                      /\ selected_image_path a = Some q
                                      /\ up_image_path r = q))
    by (intros a' H1 H2; split; now left).
  cbv zeta. unfold step.
  destruct (shown a) eqn:Hshown; destruct ev; try (apply Hsame; reflexivity).
  - unfold do_login.
    destruct (negb (nonempty (strip username_entry)) || negb (nonempty (strip password_entry)));
      [now apply Hsame|].
    destruct (find_user _ _) as [usr|]; [|now apply Hsame].
    destruct (str_eqb _ _); [|now apply Hsame].
    split; [right; now left | now left].
  - unfold do_create.
    destruct (negb _); [now apply Hsame|].
    destruct (negb _); [now apply Hsame|].
    destruct (find_user _ _); now apply Hsame.
  - unfold select_image. destruct (nonempty path) eqn:Hpath; [|now apply Hsame].
    cbn [negb]. cbv zeta. destruct (current_user a) as [u|]; [|now apply Hsame].
    destruct (save_image_to_project _ _ _ _ _ _ _ _) as [[dest|e] f'] eqn:Hsave.
    + apply save_image_to_project_returns in Hsave as (_ & Hin & Hne & Hsrc & Hbytes & _).
      split; [|now left]. right. right. exists path, ts, os, dest.
      repeat split; assumption.
    + destruct (is_exception e); now apply Hsame.
  - unfold generate_preview. destruct (selected a); [|now apply Hsame].
    cbv zeta. destruct (gen _ _) as [[[result|]|e] p]; try (now apply Hsame).
    destruct (is_exception e); now apply Hsame.
  - unfold save_to_db. destruct (selected a) as [q|] eqn:Hsel; [|now apply Hsame].
    destruct (negb _ && negb _); [now apply Hsame|].
    cbv zeta. rewrite current_user_with_status.
    destruct (current_user a) as [u|]; [|now apply Hsame].
    unfold save_upload_record, insert_upload. cbv beta iota zeta. unfold fst.
    split; [now left|]. right. eexists. exists q.
    autorewrite with app_fields. cbn [uploads_collection].
    split; [reflexivity|]. split; [now apply selected_some | reflexivity].
  - unfold fst, logout. destruct confirm; now apply Hsame.
Qed.

(** However the application is driven from a state without a selection,
    the selection it holds and the image path of every upload record it
    has added were stored by a selection of the run. *)
Lemma run_copied gen a0 evs :
  selected_image_path a0 = None ->
  let a := run IMAGE_FOLDER unicode_isalnum unicode_isprintable gen a0 evs in
  (forall q, selected_image_path a = Some q ->
             copied_by IMAGE_FOLDER unicode_isalnum unicode_isprintable gen a0 evs q)
  /\ exists new,
       uploads_collection (db a) = uploads_collection (db a0) ++ new
       /\ Forall (fun r => copied_by IMAGE_FOLDER unicode_isalnum unicode_isprintable
                             gen a0 evs (up_image_path r)) new.
Proof.
  intros Hstart. cbv zeta. induction evs as [|ev evs IH] using rev_ind.
  - simpl. split; [intros q H; congruence|].
    exists []. split; [now rewrite app_nil_r | constructor].
  - destruct IH as [IHsel (new & IHnew & IHall)].
    rewrite run_app. cbn [run].
    set (a := run IMAGE_FOLDER unicode_isalnum unicode_isprintable gen a0 evs) in *.
    destruct (step_paths gen a ev) as [Hsel Hup].
    assert (Hmore : Forall (fun r => copied_by IMAGE_FOLDER unicode_isalnum unicode_isprintable
                                       gen a0 (evs ++ [ev]) (up_image_path r)) new).
    { eapply Forall_impl; [|exact IHall]. intros r. apply copied_by_more. }
    split.
    + intros q Hq.
      destruct Hsel as [E|[E|(path & ts & os & q' & -> & Hshown & Hne & Hin & E & Hsrc & Hbytes)]].
      * apply copied_by_more, IHsel. congruence.
      * congruence.
      * assert (q' = q) by congruence. subst q'.
        exists evs, path, ts, os, []. cbv zeta. fold a. repeat split; assumption.
    + destruct Hup as [E|(r & q & E & Hq & Hr)]; rewrite E, IHnew.
      * now exists new.
      * exists (new ++ [r]). rewrite <- app_assoc. split; [reflexivity|].
        apply Forall_app. split; [exact Hmore|].
        constructor; [|constructor]. rewrite Hr. apply copied_by_more, IHsel, Hq.
Qed.

(** C5: a selection that succeeds stores a path directly inside the
    owned directory, other than the path the user chose, and the file
    there holds the bytes of the chosen file; a selection that fails keeps
    the selection there was.  Hence, however the application is driven from
    its start, the selection it holds and the image path of every upload
    record it has added were stored by a selection of that run: a path
    directly inside the owned directory, other than the path the user chose
    at that selection, whose file then held the bytes of the chosen
    file. *)
Theorem uploads_reference_owned_copies :
  (forall path ts os a u,
      path <> [] ->
      current_user a = Some u ->
      let r := select_image IMAGE_FOLDER unicode_isalnum unicode_isprintable path ts os a in
      match save_image_to_project IMAGE_FOLDER unicode_isalnum unicode_isprintable
              path (username u) ts os (files a) with
      | (Ret dest, f') =>
          selected_image_path (fst r) = Some dest
          /\ inside IMAGE_FOLDER dest
          /\ dest <> path
          /\ dict_get path (files a) <> None
          /\ dict_get dest (files (fst r)) = dict_get path (files a)
      | (Raise e, f') =>
          selected_image_path (fst r) = selected_image_path a
      end)
  /\ (forall gen now d f p evs,
         let a0 := init_app now d f p in
         let a := run IMAGE_FOLDER unicode_isalnum unicode_isprintable gen a0 evs in
         (forall q, selected_image_path a = Some q ->
                    copied_by IMAGE_FOLDER unicode_isalnum unicode_isprintable gen a0 evs q)
         /\ exists new,
              uploads_collection (db a) = uploads_collection d ++ new
              /\ Forall (fun r => copied_by IMAGE_FOLDER unicode_isalnum unicode_isprintable
                                    gen a0 evs (up_image_path r)) new).
Proof.
  split.
  - intros path ts os a u Hpath Hu r. subst r.
    pose proof (select_image_cases path ts os a u Hpath Hu) as H.
    destruct (save_image_to_project _ _ _ _ _ _ _ _) as [[dest|e] f'] eqn:Hsave.
    + destruct H as (a' & -> & Hsel & Hfiles & _).
      apply save_image_to_project_returns in Hsave as (_ & Hin & Hne & Hsrc & Hbytes & _).
      unfold fst. rewrite Hfiles. tauto.
    + now rewrite H.
  - intros gen now d f p evs a0 a. subst a a0.
    assert (Hstart : selected_image_path (init_app now d f p) = None
                     /\ uploads_collection (db (init_app now d f p)) = uploads_collection d).
    { unfold init_app, create_admin_if_not_exists.
      destruct (find_user (lit "admin") d); split; reflexivity. }
    destruct Hstart as [Hsel Hup].
    pose proof (run_copied gen (init_app now d f p) evs Hsel) as H. cbv zeta in H.
    now rewrite Hup in H.
Qed.

(** *** Who is logged in *)

Lemma step_keeps_user gen a ev :
  (shown a = DashboardScreen -> exists u, current_user a = Some u) ->
  let a' := fst (step IMAGE_FOLDER unicode_isalnum unicode_isprintable gen a ev) in
  shown a' = DashboardScreen -> exists u, current_user a' = Some u.
Proof.
  intros Ha. unfold step. case_eq (shown a); intros Hshown; destruct ev;
    try exact Ha; unfold fst.
  - unfold do_login.
    destruct (negb (nonempty (strip username_entry)) || negb (nonempty (strip password_entry)));
      [exact Ha|].
    destruct (find_user _ _) as [usr|]; [|exact Ha].
    destruct (str_eqb _ _); [|exact Ha].
    intros _. now exists usr.
  - intros H. discriminate H.
  - unfold do_create.
    destruct (negb _); [exact Ha|].
    destruct (negb _); [exact Ha|].
    destruct (find_user _ _); [exact Ha|].
    intros H. discriminate H.
  - intros H. discriminate H.
  - unfold select_image. destruct (negb (nonempty path)); [exact Ha|].
    cbv zeta. destruct (current_user a) as [u|] eqn:Hu;
      [|intros H; destruct (Ha H) as [u E]; discriminate].
    destruct (save_image_to_project _ _ _ _ _ _ _ _) as [[dest|e] f'];
      [|destruct (is_exception e)]; intros _; now exists u.
  - unfold generate_preview. destruct (selected a); [|exact Ha].
    cbv zeta. destruct (gen _ _) as [[[result|]|e] p];
      [| |destruct (is_exception e)]; intros _; now apply Ha.
  - unfold save_to_db. destruct (selected a); [|exact Ha].
    destruct (negb _ && negb _); [exact Ha|].
    cbv zeta. rewrite current_user_with_status.
    destruct (current_user a) as [u|] eqn:Hu.
    + unfold save_upload_record, insert_upload. cbv beta iota zeta.
      intros _. now exists u.
    + intros _. destruct (Ha Hshown) as [u E]. discriminate.
  - unfold logout. destruct confirm; [intros H; discriminate H | exact Ha].
Qed.

(** However the application is driven from its start, the dashboard is
    shown only to a logged-in user. *)
Lemma dashboard_has_user gen now d f p evs :
  let a := run IMAGE_FOLDER unicode_isalnum unicode_isprintable gen (init_app now d f p) evs in
  shown a = DashboardScreen -> exists u, current_user a = Some u.
Proof.
  assert (H : forall a, (shown a = DashboardScreen -> exists u, current_user a = Some u) ->
              let a' := run IMAGE_FOLDER unicode_isalnum unicode_isprintable gen a evs in
              shown a' = DashboardScreen -> exists u, current_user a' = Some u).
  { induction evs as [|ev evs IH]; intros a Ha; simpl; [exact Ha|].
    apply IH. now apply step_keeps_user. }
  apply H. unfold init_app, create_admin_if_not_exists.
  destruct (find_user (lit "admin") d); discriminate.
Qed.

End IntakeProperties.

(** The scenario of the specification: [photo.jpg], chosen by [alice],
    is stored as [alice_<timestamp>.jpg] in the owned directory. *)
Example intake_photo :
  save_image_to_project (lit "artisan_images") (fun _ => false) (fun _ => true)
    (lit "/home/alice/Pictures/photo.jpg") (lit "alice") 1700000000000 Copies
    [(lit "/home/alice/Pictures/photo.jpg", [255; 216; 255])]
  = (Ret (lit "artisan_images/alice_1700000000000.jpg"),
     [(lit "/home/alice/Pictures/photo.jpg", [255; 216; 255]);
      (lit "artisan_images/alice_1700000000000.jpg", [255; 216; 255])]).
Proof. vm_compute. reflexivity. Qed.

(** A source that is the destination is refused by the copy, whatever
    the operating system would make of it. *)
Example intake_same_file :
  forall os,
    save_image_to_project (lit "artisan_images") (fun _ => false) (fun _ => true)
      (lit "artisan_images/alice_1700000000000.jpg") (lit "alice") 1700000000000 os
      [(lit "artisan_images/alice_1700000000000.jpg", [255; 216; 255])]
    = (Raise (Exception (lit "SameFileError")
                (lit "'artisan_images/alice_1700000000000.jpg' and 'artisan_images/alice_1700000000000.jpg' are the same file")),
       [(lit "artisan_images/alice_1700000000000.jpg", [255; 216; 255])]).
Proof. intros os. vm_compute. reflexivity. Qed.

(** [repr] on test strings: the quotes chosen, the escapes, and what is
    not printable beyond ASCII (here: everything but [e] with an acute
    accent). *)
Example repr_values :
  let printable c := c =? 233 in
  repr printable (lit "/home/o'neil/a.jpg") = [34] ++ lit "/home/o'neil/a.jpg" ++ [34]
  /\ repr printable ([97; 34; 98; 39; 99]) = lit "'a" ++ [34] ++ lit "b\'c'"
  /\ repr printable (lit "a\b") = lit "'a\\b'"
  /\ repr printable [116; 9; 10; 13; 127; 1] = lit "'t\t\n\r\x7f\x01'"
  /\ repr printable [128; 160; 233] = lit "'\x80\xa0" ++ [233] ++ lit "'"
  /\ repr printable [8232; 56448; 917505] = lit "'\u2028\udc80\U000e0001'"
  /\ repr printable [] = lit "''".
Proof. vm_compute. repeat split. Qed.

(** A copy that breaks off after three of five bytes leaves those three
    at the destination; the selection there was is kept and the failure is
    shown. *)
Example intake_broken_copy :
  let disk_full := Exception (lit "OSError") (lit "[Errno 28] No space left on device") in
  let before :=
    {| db := {| users_collection := [alice]; uploads_collection := [] |};
       files := [(lit "/home/alice/a.jpg", [1; 2; 3; 4; 5])];
       pipeline := quiet; shown := DashboardScreen; current_user := Some alice;
       selected_image_path := Some cat_path;
       caption_entry := lit "a cat"; description_entry := lit "A cat sits.";
       status_var := lit "Ready"; last_caption := VStr []; last_description := VStr [] |} in
  select_image (lit "artisan_images") (fun _ => false) (fun _ => true)
    (lit "/home/alice/a.jpg") 5 (Breaks disk_full 3) before
  = (with_files [(lit "/home/alice/a.jpg", [1; 2; 3; 4; 5]);
                 (lit "artisan_images/alice_5.jpg", [1; 2; 3])] before,
     [showerror (lit "Error")
        (lit "Failed to select image: [Errno 28] No space left on device")]).
Proof. vm_compute. reflexivity. Qed.

(** What the dashboard shows when the vision model raises: the pipeline
    has returned [None], and the handler reports its own failure to read
    it. *)
Example vision_failure_on_dashboard :
  snd (generate_preview (process_single_image env_vision_down) (at_dashboard [] []))
  = [showerror (lit "Generate failed")
       (lit "Caption generation failed:" ++ [newline]
        ++ lit "'NoneType' object has no attribute 'get'")]
  /\ status_var
       (fst (generate_preview (process_single_image env_vision_down) (at_dashboard [] [])))
     = lit "Generation failed".
Proof. vm_compute. split; reflexivity. Qed.

(** What the dashboard shows when the text model raises: a completed
    generation whose description is the text of the failure. *)
Example text_failure_on_dashboard :
  snd (generate_preview (process_single_image env_text_down) (at_dashboard [] [])) = []
  /\ caption_entry
       (fst (generate_preview (process_single_image env_text_down) (at_dashboard [] [])))
     = lit "a cat"
  /\ description_entry
       (fst (generate_preview (process_single_image env_text_down) (at_dashboard [] [])))
     = [cross_mark] ++ lit " Gemini expansion failed: 429 quota exceeded".
Proof. vm_compute. repeat split. Qed.

(* ================================================================== *)
(** * Further properties *)

(** ** How a step changes the store *)

Lemma do_login_effect u p a : step_effect a (fst (do_login u p a)).
Proof.
  unfold do_login, step_effect.
  destruct (negb (nonempty (strip u)) || negb (nonempty (strip p))); [now left; auto|].
  destruct (find_user (strip u) (db a)) as [usr|] eqn:Hfind; [|now left; auto].
  destruct (str_eqb (password usr) (hash_password (strip p))); [|now left; auto].
  left. split; [reflexivity|]. right. right. exists usr. split; [reflexivity|].
  apply find_some in Hfind. apply Hfind.
Qed.

Lemma do_create_effect u m p c now a : step_effect a (fst (do_create u m p c now a)).
Proof.
  unfold do_create, step_effect.
  destruct (negb _); [now left; auto|].
  destruct (negb _); [now left; auto|].
  destruct (find_user (strip u) (db a)) eqn:Hfind; [now left; auto|].
  right. left. split; [reflexivity|].
  exists (strip u), (strip m), (strip p), now. split; [exact Hfind | reflexivity].
Qed.

Lemma save_to_db_effect now a : step_effect a (fst (save_to_db now a)).
Proof.
  unfold save_to_db, step_effect.
  destruct (selected a) as [path|]; [|now left; auto].
  destruct (negb _ && negb _); [now left; auto|].
  cbv zeta. rewrite current_user_with_status.
  destruct (current_user a) as [u|] eqn:Hu.
  - right. right. unfold fst.
    destruct (save_upload_record u path _ _ now (db (with_status _ a))) as [i d] eqn:E.
    split; [exact Hu|].
    exists u, path, (strip (text_get (caption_entry a))),
      (strip (text_get (description_entry a))), now.
    split; [reflexivity|]. rewrite db_with_status in E.
    autorewrite with app_fields. now rewrite E.
  - left. split; [reflexivity | now left].
Qed.

Lemma step_has_effect IMAGE_FOLDER unicode_isalnum unicode_isprintable gen a ev :
  step_effect a (fst (step IMAGE_FOLDER unicode_isalnum unicode_isprintable gen a ev)).
Proof.
  assert (Hsame : forall a', db a' = db a -> current_user a' = current_user a ->
                             step_effect a a') by (intros a' H1 H2; left; auto).
  unfold step. destruct (shown a), ev; try (apply Hsame; reflexivity).
  - apply do_login_effect.
  - apply do_create_effect.
  - unfold select_image. destruct (negb (nonempty path)); [now apply Hsame|].
    cbv zeta. destruct (current_user a) as [u|] eqn:Hu;
      [|apply Hsame; [reflexivity | unfold fst; congruence]].
    destruct (save_image_to_project _ _ _ _ _ _ _ _) as [[dest|e] f'];
      [|destruct (is_exception e)];
      apply Hsame; try reflexivity; unfold fst; cbn [current_user with_files]; congruence.
  - unfold generate_preview. destruct (selected a); [|now apply Hsame].
    cbv zeta. destruct (gen _ _) as [[[result|]|e] p];
      [| |destruct (is_exception e)]; now apply Hsame.
  - apply save_to_db_effect.
  - unfold fst, logout. destruct confirm; [|now apply Hsame].
    left. split; [reflexivity | now right; left].
Qed.

(** A property that holds at the start and that every step keeps holds
    after every run. *)
Lemma run_keeps (P : app -> Prop) IMAGE_FOLDER unicode_isalnum unicode_isprintable gen evs :
  (forall a ev, P a -> P (fst (step IMAGE_FOLDER unicode_isalnum unicode_isprintable gen a ev))) ->
  forall a, P a -> P (run IMAGE_FOLDER unicode_isalnum unicode_isprintable gen a evs).
Proof.
  intros Hstep. induction evs as [|ev evs IH]; intros a Ha; simpl; [exact Ha|].
  apply IH. now apply Hstep.
Qed.

Lemma find_user_none_names (uname : str) (d : database) :
  find_user uname d = None -> ~ In uname (map username (users_collection d)).
Proof.
  unfold find_user. intros H Hin. apply in_map_iff in Hin as (u & Hu & Hin).
  rewrite find_none_iff in H. specialize (H u Hin). apply str_eqb_neq in H. congruence.
Qed.

Lemma NoDup_snoc {A} (l : list A) (x : A) : NoDup l -> ~ In x l -> NoDup (l ++ [x]).
Proof.
  intros Hl Hx. apply NoDup_app; [exact Hl | constructor; [tauto | constructor] |].
  intros y Hy [<-|[]]. tauto.
Qed.

(** ** The seeded account *)

Lemma create_admin_cases now d :
  (exists u, find_user (lit "admin") d = Some u
             /\ create_admin_if_not_exists now d = (d, false))
  \/ (find_user (lit "admin") d = None
      /\ exists admin,
           username admin = lit "admin" /\ is_admin admin = true
           /\ password admin = hash_password (lit "123456789")
           /\ users_collection (fst (create_admin_if_not_exists now d))
              = users_collection d ++ [admin]
           /\ uploads_collection (fst (create_admin_if_not_exists now d))
              = uploads_collection d
           /\ find_user (lit "admin") (fst (create_admin_if_not_exists now d)) = Some admin).
Proof.
  unfold create_admin_if_not_exists.
  destruct (find_user (lit "admin") d) as [u|] eqn:Hfind.
  - left. now exists u.
  - right. split; [reflexivity|]. eexists. unfold fst.
    split; [|split; [|split; [|split; [|split]]]];
      [| | | reflexivity | reflexivity | apply find_user_inserted; [exact Hfind | reflexivity]];
      reflexivity.
Qed.

Lemma db_init_app now d f p :
  db (init_app now d f p) = fst (create_admin_if_not_exists now d).
Proof. unfold init_app. now destruct (create_admin_if_not_exists now d). Qed.

Lemma init_app_nobody now d f p :
  current_user (init_app now d f p) = None /\ shown (init_app now d f p) = LoginScreen
  /\ selected_image_path (init_app now d f p) = None.
Proof. unfold init_app. now destruct (create_admin_if_not_exists now d). Qed.

Lemma strip_admin : strip (lit "admin") = lit "admin".
Proof. vm_compute. reflexivity. Qed.

Lemma strip_admin_password : strip (lit "123456789") = lit "123456789".
Proof. vm_compute. reflexivity. Qed.

(** X1: on a store without an account named [admin], the application
    starts by creating one, and the login the hint of the login screen
    gives, admin / 123456789, opens the dashboard for it, an admin. *)
Theorem seeded_admin_logs_in now d f p :
  find_user (lit "admin") d = None ->
  exists u,
    username u = lit "admin" /\ is_admin u = true
    /\ In u (users_collection (db (init_app now d f p)))
    /\ logged_in u (init_app now d f p)
         (do_login (lit "admin") (lit "123456789") (init_app now d f p)).
Proof.
  intros Hfree.
  destruct (create_admin_cases now d) as [(u & Hu & _)|(_ & admin & Hn & Ha & Hp & Hus & _ & Hfind)];
    [congruence|].
  exists admin. split; [exact Hn|]. split; [exact Ha|].
  rewrite <- db_init_app with (f := f) (p := p) in Hfind, Hus.
  split; [rewrite Hus; apply in_or_app; right; now left|].
  unfold logged_in.
  rewrite (do_login_found (lit "admin") (lit "123456789") _ admin).
  - rewrite strip_admin_password, Hp, str_eqb_refl. reflexivity.
  - rewrite strip_admin. discriminate.
  - now rewrite strip_admin.
Qed.

Lemma seeded_admin_logs_in_witness :
  exists u,
    is_admin u = true
    /\ current_user
         (fst (do_login (lit "admin") (lit "123456789") (init_app stamp empty_db [] quiet)))
       = Some u.
Proof.
  destruct (seeded_admin_logs_in stamp empty_db [] quiet eq_refl) as (u & _ & Ha & _ & Hl).
  exists u. split; [exact Ha|]. unfold logged_in in Hl. now rewrite Hl.
Defined.

(** X2: seeding is idempotent: on a store that went through it, a second
    start creates nothing, whatever the clock says. *)
Theorem admin_seed_idempotent now1 now2 d :
  create_admin_if_not_exists now2 (fst (create_admin_if_not_exists now1 d))
  = (fst (create_admin_if_not_exists now1 d), false).
Proof.
  destruct (create_admin_cases now1 d) as [(u & Hu & E)|(_ & admin & _ & _ & _ & _ & _ & Hfind)].
  - rewrite E. unfold fst, create_admin_if_not_exists. now rewrite Hu.
  - unfold create_admin_if_not_exists at 1. now rewrite Hfind.
Qed.

(** ** What every run keeps *)

Lemma step_keeps_unique_names IMAGE_FOLDER unicode_isalnum unicode_isprintable gen a ev :
  NoDup (map username (users_collection (db a))) ->
  NoDup (map username
           (users_collection (db (fst (step IMAGE_FOLDER unicode_isalnum unicode_isprintable gen a ev))))).
Proof.
  intros H.
  destruct (step_has_effect IMAGE_FOLDER unicode_isalnum unicode_isprintable gen a ev)
    as [[E _]|[(_ & uname & mail & pwd & now & Hfree & E)|(_ & u & path & c & dsc & now & _ & E)]];
    rewrite E.
  - exact H.
  - unfold insert_user. cbn [users_collection]. rewrite map_app. cbn [map username signup_doc].
    apply NoDup_snoc; [exact H | now apply find_user_none_names].
  - exact H.
Qed.

(** X3: user names stay unique: from a store in which no two users share a
    name, no run of the application reaches a store in which two do. *)
Theorem usernames_stay_unique IMAGE_FOLDER unicode_isalnum unicode_isprintable gen now d f p evs :
  NoDup (map username (users_collection d)) ->
  NoDup (map username
           (users_collection
              (db (run IMAGE_FOLDER unicode_isalnum unicode_isprintable gen (init_app now d f p) evs)))).
Proof.
  intros H.
  apply (run_keeps (fun a => NoDup (map username (users_collection (db a))))).
  - intros a ev. apply step_keeps_unique_names.
  - rewrite db_init_app.
    destruct (create_admin_cases now d) as [(u & _ & E)|(Hfree & admin & Hn & _ & _ & Hus & _)].
    + now rewrite E.
    + rewrite Hus, map_app. cbn [map]. rewrite Hn.
      apply NoDup_snoc; [exact H | now apply find_user_none_names].
Qed.

Lemma usernames_stay_unique_witness :
  NoDup (map username
           (users_collection
              (db (run (lit "artisan_images") (fun _ => false) (fun _ => true) blip_process_single_image_stub
                     (init_app stamp empty_db [] quiet)
                     [GoSignup;
                      Create (lit "alice") (lit "a@x.com") (lit "pw1") (lit "pw1") stamp;
                      GoSignup;
                      Create (lit "alice") (lit "b@x.com") (lit "pw2") (lit "pw2") stamp])))).
Proof.
  apply usernames_stay_unique. constructor.
Defined.

Lemma run_appends_users IMAGE_FOLDER unicode_isalnum unicode_isprintable gen now d f p evs :
  exists new,
    users_collection (db (run IMAGE_FOLDER unicode_isalnum unicode_isprintable gen (init_app now d f p) evs))
    = users_collection (db (init_app now d f p)) ++ new
    /\ Forall (fun u => is_admin u = false) new.
Proof.
  apply (run_keeps
           (fun a => exists new,
                users_collection (db a) = users_collection (db (init_app now d f p)) ++ new
                /\ Forall (fun u => is_admin u = false) new)).
  - intros a ev (new & Hnew & Hall).
    destruct (step_has_effect IMAGE_FOLDER unicode_isalnum unicode_isprintable gen a ev)
      as [[E _]|[(_ & uname & mail & pwd & now' & _ & E)|(_ & u & path & c & dsc & now' & _ & E)]];
      rewrite E.
    + now exists new.
    + eexists. unfold insert_user. cbn [users_collection]. rewrite Hnew, <- app_assoc.
      split; [reflexivity|]. apply Forall_app. split; [exact Hall|].
      constructor; [reflexivity | constructor].
    + now exists new.
  - exists []. split; [now rewrite app_nil_r | constructor].
Qed.

(** X4: no run creates an admin: the users a run adds to the store the
    application started on (the seeded account included) come last, in
    order, none of the earlier ones is removed or changed, and none of the
    added ones carries the admin flag. *)
Theorem runs_add_no_admin IMAGE_FOLDER unicode_isalnum unicode_isprintable gen now d f p evs :
  exists new,
    users_collection (db (run IMAGE_FOLDER unicode_isalnum unicode_isprintable gen (init_app now d f p) evs))
    = users_collection (db (init_app now d f p)) ++ new
    /\ Forall (fun u => is_admin u = false) new.
Proof. apply run_appends_users. Qed.

Lemma find_app_found {A} (q : A -> bool) (l more : list A) (x : A) :
  find q l = Some x -> find q (l ++ more) = Some x.
Proof.
  induction l as [|y l IH]; simpl; [discriminate|].
  destruct (q y); [trivial | exact IH].
Qed.

(** X24: an account is never replaced: the record a user name leads to
    when the application has started, with its password digest and its
    admin flag, is the record it leads to after every run; signing up
    again under the name does not take the account over. *)
Theorem accounts_are_never_replaced IMAGE_FOLDER unicode_isalnum unicode_isprintable gen now d f p evs uname u :
  find_user uname (db (init_app now d f p)) = Some u ->
  find_user uname (db (run IMAGE_FOLDER unicode_isalnum unicode_isprintable gen (init_app now d f p) evs))
  = Some u.
Proof.
  intros H.
  destruct (run_appends_users IMAGE_FOLDER unicode_isalnum unicode_isprintable gen now d f p evs) as (new & E & _).
  unfold find_user in *. rewrite E. now apply find_app_found.
Qed.

Lemma accounts_are_never_replaced_witness :
  option_map password
    (find_user (lit "admin")
       (db (run (lit "artisan_images") (fun _ => false) (fun _ => true) blip_process_single_image_stub
              (init_app stamp empty_db [] quiet)
              [GoSignup;
               Create (lit "admin") (lit "m@x.com") (lit "mine") (lit "mine") stamp;
               Create (lit " admin ") (lit "m@x.com") (lit "mine") (lit "mine") stamp])))
  = Some (hash_password (lit "123456789")).
Proof.
  rewrite (accounts_are_never_replaced (lit "artisan_images") (fun _ => false) (fun _ => true)
             blip_process_single_image_stub stamp empty_db [] quiet _ (lit "admin")
             {| user_id := 1; username := lit "admin";
                password := hash_password (lit "123456789");
                email := lit "admin@local"; is_admin := true; created_at := stamp |}).
  - reflexivity.
  - vm_compute. reflexivity.
Defined.

Lemma refers_to_more (users more : list user) (r : upload) :
  refers_to users r -> refers_to (users ++ more) r.
Proof.
  intros (u & Hin & H). exists u. split; [apply in_or_app; now left | exact H].
Qed.

(** The logged-in user is a stored one, and every upload added to [base]
    names a stored user. *)
Lemma step_keeps_references IMAGE_FOLDER unicode_isalnum unicode_isprintable gen base a ev :
  (forall u, current_user a = Some u -> In u (users_collection (db a)))
  /\ (exists new, uploads_collection (db a) = base ++ new
                  /\ Forall (refers_to (users_collection (db a))) new) ->
  let a' := fst (step IMAGE_FOLDER unicode_isalnum unicode_isprintable gen a ev) in
  (forall u, current_user a' = Some u -> In u (users_collection (db a')))
  /\ (exists new, uploads_collection (db a') = base ++ new
                  /\ Forall (refers_to (users_collection (db a'))) new).
Proof.
  intros [Hu (new & Hnew & Hall)] a'. subst a'.
  destruct (step_has_effect IMAGE_FOLDER unicode_isalnum unicode_isprintable gen a ev)
    as [[E Hcur]|[(Hcur & uname & mail & pwd & now & _ & E)|(Hcur & u & path & c & dsc & now & Hlog & E)]];
    rewrite E.
  - split; [|now exists new].
    intros u H. destruct Hcur as [Hc|[Hc|(u' & Hc & Hin)]]; rewrite Hc in H.
    + now apply Hu.
    + discriminate.
    + now injection H as <-.
  - unfold insert_user. cbn [users_collection uploads_collection]. split.
    + intros u H. rewrite Hcur in H. apply in_or_app. left. now apply Hu.
    + exists new. split; [exact Hnew|].
      eapply Forall_impl; [|exact Hall]. intros r. apply refers_to_more.
  - unfold save_upload_record, insert_upload. cbn [snd users_collection uploads_collection].
    split.
    + intros u' H. rewrite Hcur in H. now apply Hu.
    + eexists. rewrite Hnew, <- app_assoc. split; [reflexivity|].
      apply Forall_app. split; [exact Hall|]. constructor; [|constructor].
      exists u. split; [now apply Hu | split; reflexivity].
Qed.

Lemma run_keeps_references IMAGE_FOLDER unicode_isalnum unicode_isprintable gen now d f p evs :
  let a := run IMAGE_FOLDER unicode_isalnum unicode_isprintable gen (init_app now d f p) evs in
  (forall u, current_user a = Some u -> In u (users_collection (db a)))
  /\ (exists new, uploads_collection (db a) = uploads_collection d ++ new
                  /\ Forall (refers_to (users_collection (db a))) new).
Proof.
  apply (run_keeps
           (fun a => (forall u, current_user a = Some u -> In u (users_collection (db a)))
                     /\ (exists new, uploads_collection (db a) = uploads_collection d ++ new
                                     /\ Forall (refers_to (users_collection (db a))) new))).
  - intros a ev H. now apply step_keeps_references.
  - split.
    + intros u H. destruct (init_app_nobody now d f p) as [E _]. congruence.
    + exists []. rewrite app_nil_r, db_init_app. split; [|constructor].
      destruct (create_admin_cases now d) as [(u & _ & E)|(_ & admin & _ & _ & _ & _ & Hup & _)];
        [now rewrite E | exact Hup].
Qed.

(** X5: every upload record a run adds names, by identifier and by user
    name, a user that the users collection holds at the end of the run. *)
Theorem uploads_refer_to_stored_users IMAGE_FOLDER unicode_isalnum unicode_isprintable gen now d f p evs :
  exists new,
    uploads_collection (db (run IMAGE_FOLDER unicode_isalnum unicode_isprintable gen (init_app now d f p) evs))
    = uploads_collection d ++ new
    /\ Forall
         (refers_to
            (users_collection
               (db (run IMAGE_FOLDER unicode_isalnum unicode_isprintable gen (init_app now d f p) evs))))
         new.
Proof. apply run_keeps_references. Qed.

(** X6: the dashboard is shown only to a user the store holds: after every
    run, a shown dashboard has a logged-in user, and that user is a record
    of the users collection. *)
Theorem dashboard_user_is_stored IMAGE_FOLDER unicode_isalnum unicode_isprintable gen now d f p evs :
  let a := run IMAGE_FOLDER unicode_isalnum unicode_isprintable gen (init_app now d f p) evs in
  (shown a = DashboardScreen -> exists u, current_user a = Some u)
  /\ (forall u, current_user a = Some u -> In u (users_collection (db a))).
Proof.
  intros a. split.
  - apply dashboard_has_user.
  - apply run_keeps_references.
Qed.

(** ** Login *)

(** X7: a login either changes nothing and shows a dialog, or opens the
    dashboard for a user that the store holds under the trimmed name and
    whose stored digest is the digest of the trimmed password. *)
Theorem login_lets_in_stored_users_only uname pwd a :
  (fst (do_login uname pwd a) = a /\ snd (do_login uname pwd a) <> [])
  \/ (exists u,
         In u (users_collection (db a))
         /\ username u = strip uname
         /\ password u = hash_password (strip pwd)
         /\ strip pwd <> []
         /\ logged_in u a (do_login uname pwd a)).
Proof.
  unfold do_login.
  destruct (nonempty (strip uname)) eqn:Hu; [|left; split; [reflexivity | discriminate]].
  destruct (nonempty (strip pwd)) eqn:Hp; [|left; split; [reflexivity | discriminate]].
  cbn [negb orb].
  destruct (find_user (strip uname) (db a)) as [u|] eqn:Hfind;
    [|left; split; [reflexivity | discriminate]].
  destruct (str_eqb (password u) (hash_password (strip pwd))) eqn:Hh;
    [|left; split; [reflexivity | discriminate]].
  right. exists u. apply find_some in Hfind as [Hin Hname].
  apply str_eqb_eq in Hname, Hh. apply nonempty_true in Hp.
  repeat split; assumption.
Qed.

(** X8: right after a login the dashboard holds no image: whatever was
    selected or typed before, saving and generating are refused with the
    no-image warning and change nothing. *)
Theorem fresh_dashboard_has_no_image u before r gen now :
  logged_in u before r ->
  selected_image_path (fst r) = None
  /\ caption_entry (fst r) = [] /\ description_entry (fst r) = []
  /\ save_to_db now (fst r) = (fst r, [no_image_dialog])
  /\ generate_preview gen (fst r) = (fst r, [no_image_dialog]).
Proof.
  unfold logged_in. intros ->. unfold fst. repeat split.
Qed.

Lemma fresh_dashboard_has_no_image_witness :
  save_to_db stamp
    (fst (do_login (lit "alice") (lit "pw1") (at_dashboard (lit "a cat") (lit "A cat sits."))))
  = (fst (do_login (lit "alice") (lit "pw1") (at_dashboard (lit "a cat") (lit "A cat sits."))),
     [no_image_dialog]).
Proof.
  refine (proj1 (proj2 (proj2 (proj2
            (fresh_dashboard_has_no_image alice
               (at_dashboard (lit "a cat") (lit "A cat sits."))
               (do_login (lit "alice") (lit "pw1") (at_dashboard (lit "a cat") (lit "A cat sits.")))
               blip_process_single_image_stub stamp _))))).
  unfold logged_in. vm_compute. reflexivity.
Defined.

(** ** Selecting an image *)

Lemma inside_nonempty (dir p : str) : inside dir p -> p <> [].
Proof.
  intros (name & (Hne & _) & [->|[_ ->]]) E; apply app_eq_nil in E as [_ E].
  - discriminate E.
  - contradiction.
Qed.

Lemma with_files_same (a : app) : with_files (files a) a = a.
Proof. now destruct a. Qed.

(** [repr] puts single quotes around a string of printable ASCII
    characters that holds neither an apostrophe nor a backslash. *)
Lemma repr_plain unicode_isprintable (s : str) :
  forallb (fun c => char_in 32 126 c && negb (c =? 39) && negb (c =? 92)) s = true ->
  repr unicode_isprintable s = lit "'" ++ s ++ lit "'".
Proof.
  intros H. unfold repr.
  assert (Hq : existsb (N.eqb 39) s = false).
  { induction s as [|c s IH]; [reflexivity|]. cbn [forallb existsb] in H |- *.
    apply andb_true_iff in H as [Hc Hs]. rewrite (IH Hs), orb_false_r.
    apply andb_true_iff in Hc as [Hc _]. apply andb_true_iff in Hc as [_ Hc].
    apply negb_true_iff in Hc. rewrite N.eqb_sym. exact Hc. }
  rewrite Hq. cbn [andb]. cbv zeta.
  assert (Hbody : flat_map (repr_char unicode_isprintable 39) s = s).
  { clear Hq. induction s as [|c s IH]; [reflexivity|]. cbn [forallb] in H.
    apply andb_true_iff in H as [Hc Hs]. cbn [flat_map]. rewrite (IH Hs).
    apply andb_true_iff in Hc as [Hc H92]. apply andb_true_iff in Hc as [Hr H39].
    apply negb_true_iff in H39, H92.
    unfold char_in in Hr. apply andb_true_iff in Hr as [Hlo Hhi].
    apply N.leb_le in Hlo, Hhi.
    unfold repr_char. rewrite H39, H92. cbn [orb].
    replace (c =? 9) with false by (symmetry; apply N.eqb_neq; lia).
    replace (c =? 10) with false by (symmetry; apply N.eqb_neq; lia).
    replace (c =? 13) with false by (symmetry; apply N.eqb_neq; lia).
    replace (c <? 32) with false by (symmetry; apply N.ltb_ge; lia).
    replace (c =? 127) with false by (symmetry; apply N.eqb_neq; lia).
    replace (c <? 127) with true by (symmetry; apply N.ltb_lt; lia).
    reflexivity. }
  now rewrite Hbody.
Qed.

(** [repr] puts double quotes around a string of printable ASCII
    characters that holds an apostrophe, no double quote and no
    backslash. *)
Lemma repr_apostrophe unicode_isprintable (s : str) :
  forallb (fun c => char_in 32 126 c && negb (c =? 34) && negb (c =? 92)) s = true ->
  In 39 s ->
  repr unicode_isprintable s = [34] ++ s ++ [34].
Proof.
  intros H Hin. unfold repr.
  assert (Hq : existsb (N.eqb 39) s = true).
  { apply existsb_exists. exists 39. split; [exact Hin | reflexivity]. }
  assert (Hd : existsb (N.eqb 34) s = false).
  { clear Hin Hq. induction s as [|c s IH]; [reflexivity|]. cbn [forallb existsb] in H |- *.
    apply andb_true_iff in H as [Hc Hs]. rewrite (IH Hs), orb_false_r.
    apply andb_true_iff in Hc as [Hc _]. apply andb_true_iff in Hc as [_ Hc].
    apply negb_true_iff in Hc. rewrite N.eqb_sym. exact Hc. }
  rewrite Hq, Hd. cbn [andb negb]. cbv zeta.
  assert (Hbody : flat_map (repr_char unicode_isprintable 34) s = s).
  { clear Hin Hq Hd. induction s as [|c s IH]; [reflexivity|]. cbn [forallb] in H.
    apply andb_true_iff in H as [Hc Hs]. cbn [flat_map]. rewrite (IH Hs).
    apply andb_true_iff in Hc as [Hc H92]. apply andb_true_iff in Hc as [Hr H34].
    apply negb_true_iff in H34, H92.
    unfold char_in in Hr. apply andb_true_iff in Hr as [Hlo Hhi].
    apply N.leb_le in Hlo, Hhi.
    unfold repr_char. rewrite H34, H92. cbn [orb].
    replace (c =? 9) with false by (symmetry; apply N.eqb_neq; lia).
    replace (c =? 10) with false by (symmetry; apply N.eqb_neq; lia).
    replace (c =? 13) with false by (symmetry; apply N.eqb_neq; lia).
    replace (c <? 32) with false by (symmetry; apply N.ltb_ge; lia).
    replace (c =? 127) with false by (symmetry; apply N.eqb_neq; lia).
    replace (c <? 127) with true by (symmetry; apply N.ltb_lt; lia).
    reflexivity. }
  now rewrite Hbody.
Qed.

(** X9: selecting an image never touches the store, the logged-in user,
    the pipeline or the screen; a cancelled dialog changes nothing and
    shows nothing; a selection that ends in an error dialog keeps the
    earlier selection, the two texts and the status line, and leaves the
    whole state as it was unless the copy broke off after the destination
    was opened; and a chosen file that does not exist is such an error,
    changes nothing, and is reported with [repr] of the path, which puts
    single quotes around a path of plain characters and double quotes
    around one that holds an apostrophe as well. *)
Theorem select_image_failure_keeps_state IMAGE_FOLDER unicode_isalnum unicode_isprintable
    path ts os a :
  let r := select_image IMAGE_FOLDER unicode_isalnum unicode_isprintable path ts os a in
  db (fst r) = db a
  /\ current_user (fst r) = current_user a
  /\ pipeline (fst r) = pipeline a
  /\ shown (fst r) = shown a
  /\ (path = [] -> r = (a, []))
  /\ (snd r <> [] ->
      selected_image_path (fst r) = selected_image_path a
      /\ caption_entry (fst r) = caption_entry a
      /\ description_entry (fst r) = description_entry a
      /\ status_var (fst r) = status_var a
      /\ ((forall e written, os <> Breaks e written) -> fst r = a))
  /\ (forall u, path <> [] -> current_user a = Some u -> dict_get path (files a) = None ->
      r = (a, [showerror (lit "Error")
                 (lit "Failed to select image: [Errno 2] No such file or directory: "
                  ++ repr unicode_isprintable path)])
      /\ (forallb (fun c => char_in 32 126 c && negb (c =? 39) && negb (c =? 92)) path = true ->
          r = (a, [showerror (lit "Error")
                     (lit "Failed to select image: [Errno 2] No such file or directory: '"
                      ++ path ++ lit "'")]))
      /\ (forallb (fun c => char_in 32 126 c && negb (c =? 34) && negb (c =? 92)) path = true ->
          In 39 path ->
          r = (a, [showerror (lit "Error")
                     (lit "Failed to select image: [Errno 2] No such file or directory: "
                      ++ [34] ++ path ++ [34])]))).
Proof.
  intros r. subst r.
  assert (Hmissing : forall u, current_user a = Some u -> nonempty path = true ->
            dict_get path (files a) = None ->
            select_image IMAGE_FOLDER unicode_isalnum unicode_isprintable path ts os a
            = (a, [showerror (lit "Error")
                     (lit "Failed to select image: [Errno 2] No such file or directory: "
                      ++ repr unicode_isprintable path)])).
  { intros u Hu Hpath Hnone. unfold select_image, save_image_to_project, copy2.
    rewrite Hpath, Hu, Hnone. cbn [negb is_exception exn_msg].
    now rewrite with_files_same. }
  destruct (nonempty path) eqn:Hpath.
  - assert (Hne : path <> []) by now apply nonempty_true.
    destruct (current_user a) as [u|] eqn:Hu.
    + destruct (dict_get path (files a)) as [bytes|] eqn:Hsrc.
      * unfold select_image. rewrite Hpath, Hu. cbn [negb]. cbv zeta.
        destruct (save_image_to_project _ _ _ _ _ _ _ _) as [[dest|e] f'] eqn:Hsave.
        -- unfold fst, snd. cbn [db current_user pipeline shown].
           split; [reflexivity|]. split; [reflexivity|]. split; [reflexivity|].
           split; [reflexivity|]. split; [congruence|].
           split; [intros H; now elim H|]. intros u' _ _ H. discriminate H.
        -- apply save_image_to_project_raises in Hsave.
           destruct (is_exception e); unfold fst, snd;
             cbn [db current_user pipeline shown with_files selected_image_path
                  caption_entry description_entry status_var];
             (split; [reflexivity|]); (split; [exact Hu|]); (split; [reflexivity|]);
             (split; [reflexivity|]); (split; [congruence|]);
             (split; [|intros u' _ _ H; discriminate H]).
           ++ intros _. repeat (split; [reflexivity|]). intros Hos.
              destruct Hsave as [->|[written E]]; [apply with_files_same|].
              now elim (Hos e written).
           ++ intros H. now elim H.
      * rewrite (Hmissing u eq_refl eq_refl eq_refl). unfold fst, snd.
        split; [reflexivity|]. split; [congruence|]. split; [reflexivity|].
        split; [reflexivity|]. split; [congruence|].
        split; [intros _; repeat split|].
        intros u' _ _ _. split; [reflexivity|]. split.
        -- intros Hplain. rewrite (repr_plain _ _ Hplain). reflexivity.
        -- intros Hplain Hin. rewrite (repr_apostrophe _ _ Hplain Hin). reflexivity.
    + unfold select_image. rewrite Hpath, Hu. unfold fst, snd. cbn [negb].
      split; [reflexivity|]. split; [congruence|]. split; [reflexivity|].
      split; [reflexivity|]. split; [congruence|].
      split; [intros _; repeat split|].
      intros u' _ H. discriminate H.
  - apply nonempty_false in Hpath. subst path. unfold select_image, fst, snd. cbn [nonempty negb].
    split; [reflexivity|]. split; [reflexivity|]. split; [reflexivity|].
    split; [reflexivity|]. split; [reflexivity|].
    split; [intros H; now elim H|].
    intros u' H. congruence.
Qed.

(** A file name with an apostrophe is reported between double quotes. *)
Example select_missing_file_with_apostrophe :
  snd (select_image (lit "artisan_images") (fun _ => false) (fun _ => true)
         (lit "/home/o'neil/a.jpg") 5 Copies (at_dashboard [] []))
  = [showerror (lit "Error")
       (lit "Failed to select image: [Errno 2] No such file or directory: "
        ++ [34] ++ lit "/home/o'neil/a.jpg" ++ [34])].
Proof. vm_compute. reflexivity. Qed.

(** X10: a selection that succeeds empties both texts, so the text shown
    for the image selected before cannot be saved with the new image: a
    save that follows at once is refused with the empty-text warning and
    inserts nothing. *)
Theorem select_then_save_is_refused IMAGE_FOLDER unicode_isalnum unicode_isprintable
    path ts os a u dest f' now :
  path <> [] ->
  current_user a = Some u ->
  save_image_to_project IMAGE_FOLDER unicode_isalnum unicode_isprintable
    path (username u) ts os (files a)
  = (Ret dest, f') ->
  let a' := fst (select_image IMAGE_FOLDER unicode_isalnum unicode_isprintable path ts os a) in
  selected_image_path a' = Some dest
  /\ caption_entry a' = [] /\ description_entry a' = []
  /\ save_to_db now a' = (a', [empty_dialog])
  /\ db (fst (save_to_db now a')) = db a.
Proof.
  intros Hpath Hu Hsave a'. subst a'.
  pose proof (select_image_cases IMAGE_FOLDER unicode_isalnum unicode_isprintable
                path ts os a u Hpath Hu) as H.
  rewrite Hsave in H. destruct H as (a' & -> & Hsel & _ & Hdb & Hc & Hd).
  cbn [fst].
  assert (Hdest : dest <> []).
  { apply save_image_to_project_returns in Hsave as (_ & Hin & _).
    now apply inside_nonempty in Hin. }
  assert (Hselected : selected a' = Some dest).
  { unfold selected. rewrite Hsel. apply nonempty_true in Hdest. now rewrite Hdest. }
  assert (E : save_to_db now a' = (a', [empty_dialog])).
  { unfold save_to_db. rewrite Hselected, !text_get_strip, Hc, Hd. reflexivity. }
  rewrite E. cbn [fst]. repeat split; assumption.
Qed.

Lemma select_then_save_is_refused_witness :
  exists a',
    select_image (lit "artisan_images") (fun _ => false) (fun _ => true)
      (lit "/home/alice/Pictures/photo.jpg") 1700000000001 Copies
      {| db := db (at_dashboard (lit "a cat") (lit "A cat sits."));
         files := [(lit "/home/alice/Pictures/photo.jpg", [255; 216; 255])];
         pipeline := quiet; shown := DashboardScreen; current_user := Some alice;
         selected_image_path := Some cat_path;
         caption_entry := lit "a cat"; description_entry := lit "A cat sits.";
         status_var := lit "Ready"; last_caption := VStr []; last_description := VStr [] |}
    = (a', [])
    /\ save_to_db stamp a' = (a', [empty_dialog]).
Proof.
  eexists. split; [vm_compute; reflexivity|].
  refine (proj1 (proj2 (proj2 (proj2
    (select_then_save_is_refused (lit "artisan_images") (fun _ => false) (fun _ => true)
       (lit "/home/alice/Pictures/photo.jpg") 1700000000001 Copies
       {| db := db (at_dashboard (lit "a cat") (lit "A cat sits."));
          files := [(lit "/home/alice/Pictures/photo.jpg", [255; 216; 255])];
          pipeline := quiet; shown := DashboardScreen; current_user := Some alice;
          selected_image_path := Some cat_path;
          caption_entry := lit "a cat"; description_entry := lit "A cat sits.";
          status_var := lit "Ready"; last_caption := VStr []; last_description := VStr [] |}
       alice (lit "artisan_images/alice_1700000000001.jpg")
       [(lit "/home/alice/Pictures/photo.jpg", [255; 216; 255]);
        (lit "artisan_images/alice_1700000000001.jpg", [255; 216; 255])]
       stamp _ _ _))))).
  - discriminate.
  - reflexivity.
  - vm_compute. reflexivity.
Defined.

(** ** The name of the copy *)

Lemma rfind_upper (c : char) (s : str) : (rfind c s < Z.of_nat (length s))%Z.
Proof.
  induction s as [|x s IH]; simpl length; [simpl; lia|].
  simpl rfind. destruct (0 <=? rfind c s)%Z; [lia|].
  destruct (x =? c); lia.
Qed.

(** At the index [rfind] returns stands the character looked for. *)
Lemma rfind_found (c : char) (s : str) :
  (0 <= rfind c s)%Z ->
  skipn (Z.to_nat (rfind c s)) s = c :: skipn (S (Z.to_nat (rfind c s))) s.
Proof.
  induction s as [|x s IH]; simpl rfind; [lia|].
  destruct (0 <=? rfind c s)%Z eqn:E.
  - apply Z.leb_le in E. intros _.
    replace (Z.to_nat (rfind c s + 1)) with (S (Z.to_nat (rfind c s))) by lia.
    simpl. now apply IH.
  - destruct (x =? c) eqn:Ex; [|lia]. apply N.eqb_eq in Ex. subst x. reflexivity.
Qed.

(** The extension [splitext] returns is empty, or a dot followed by text
    without a dot. *)
Lemma splitext_ext_shape (p : str) :
  snd (splitext p) = []
  \/ exists rest, snd (splitext p) = extsep :: rest /\ ~ In extsep rest.
Proof.
  unfold splitext.
  destruct ((rfind sep p <? rfind extsep p)%Z) eqn:E; simpl; [|now left].
  destruct (existsb _ _); simpl; [|now left].
  right. apply Z.ltb_lt in E. pose proof (rfind_lower sep p) as Hlow.
  exists (skipn (S (Z.to_nat (rfind extsep p))) p). split.
  - unfold drop. apply rfind_found. lia.
  - apply rfind_skipn. lia.
Qed.

(** [splitext] finds the extension of a path that ends in a file name made
    of a stem without dot or separator, a dot, and text without dot or
    separator. *)
Lemma splitext_named (D stem rest : str) :
  stem <> [] -> ~ In sep stem -> ~ In extsep stem ->
  ~ In sep rest -> ~ In extsep rest ->
  splitext (D ++ stem ++ extsep :: rest) = (D ++ stem, extsep :: rest).
Proof.
  intros Hne Hsep Hdot Hrsep Hrdot. unfold splitext.
  assert (Esep : rfind sep (D ++ stem ++ extsep :: rest) = rfind sep D).
  { apply rfind_app_absent. intros H. apply in_app_or in H as [H|[H|H]];
      [tauto | discriminate | tauto]. }
  assert (Edot : rfind extsep (D ++ stem ++ extsep :: rest)
                 = Z.of_nat (length (D ++ stem))).
  { replace (D ++ stem ++ extsep :: rest) with (((D ++ stem) ++ [extsep]) ++ rest)
      by (now rewrite <- !app_assoc).
    rewrite (rfind_app_absent extsep _ _ Hrdot). apply rfind_snoc. }
  rewrite Esep, Edot.
  pose proof (rfind_upper sep D) as Hup. pose proof (rfind_lower sep D) as Hlow.
  assert (Elt : (rfind sep D <? Z.of_nat (length (D ++ stem)))%Z = true).
  { apply Z.ltb_lt. rewrite length_app. lia. }
  rewrite Elt. cbn [andb].
  assert (Eslice : slice (rfind sep D + 1) (Z.of_nat (length (D ++ stem)))
                     (D ++ stem ++ extsep :: rest)
                   = skipn (Z.to_nat (rfind sep D + 1)) D ++ stem).
  { unfold slice, take, drop. rewrite skipn_app.
    replace (Z.to_nat (rfind sep D + 1) - length D)%nat with 0%nat by lia.
    cbn [skipn]. rewrite app_assoc.
    replace (Z.to_nat (Z.of_nat (length (D ++ stem)) - (rfind sep D + 1)))
      with (length (skipn (Z.to_nat (rfind sep D + 1)) D ++ stem) + 0)%nat.
    - rewrite firstn_app_2. cbn [firstn]. apply app_nil_r.
    - rewrite !length_app, length_skipn. lia. }
  rewrite Eslice, existsb_app.
  assert (Estem : @existsb char (fun c : N => negb (c =? extsep)) stem = true).
  { destruct stem as [|x stem]; [congruence|]. simpl.
    assert (Hx : x <> extsep) by (intros ->; apply Hdot; now left).
    apply N.eqb_neq in Hx. now rewrite Hx. }
  rewrite Estem, orb_true_r.
  unfold take, drop. rewrite Nat2Z.id. f_equal.
  - replace (D ++ stem ++ extsep :: rest) with ((D ++ stem) ++ extsep :: rest)
      by (now rewrite <- app_assoc).
    rewrite firstn_app, Nat.sub_diag, firstn_all. cbn [firstn]. apply app_nil_r.
  - replace (D ++ stem ++ extsep :: rest) with ((D ++ stem) ++ extsep :: rest)
      by (now rewrite <- app_assoc).
    rewrite skipn_app, Nat.sub_diag, skipn_all. reflexivity.
Qed.

Lemma uint_digits (d : Decimal.uint) :
  Forall (fun c => char_in 48 57 c = true) (lit (NilEmpty.string_of_uint d)).
Proof. induction d; simpl; constructor; try reflexivity; assumption. Qed.

(** A decimal numeral is made of digits, after a minus sign or not. *)
Lemma str_of_Z_digits (z : Z) :
  Forall (fun c => char_in 48 57 c = true \/ c = 45) (str_of_Z z).
Proof.
  assert (H : forall d, Forall (fun c => char_in 48 57 c = true \/ c = 45)
                          (lit (NilZero.string_of_uint d))).
  { intros d. unfold NilZero.string_of_uint.
    destruct d; try (eapply Forall_impl; [|apply uint_digits]; cbv beta; tauto).
    constructor; [now left | constructor]. }
  unfold str_of_Z, NilZero.string_of_int. destruct (Z.to_int z) as [d|d].
  - apply H.
  - change (lit (String "-" (NilZero.string_of_uint d)))
      with (45 :: lit (NilZero.string_of_uint d)).
    constructor; [now right | apply H].
Qed.

Lemma str_of_Z_no_dot (z : Z) : ~ In extsep (str_of_Z z).
Proof.
  intros H. pose proof (str_of_Z_digits z) as Hall.
  rewrite Forall_forall in Hall. destruct (Hall _ H) as [E|E]; discriminate E.
Qed.

Lemma str_of_Z_nonempty (z : Z) : str_of_Z z <> [].
Proof.
  unfold str_of_Z, NilZero.string_of_int, NilZero.string_of_uint.
  destruct (Z.to_int z) as [d|d]; [|discriminate].
  destruct d; discriminate.
Qed.

Lemma lit_inj (s t : string) : lit s = lit t -> s = t.
Proof.
  revert t. induction s as [|a s IH]; intros [|b t]; simpl; try discriminate;
    [reflexivity|].
  intros [= Hab Hst]. f_equal; [|now apply IH].
  rewrite <- (ascii_N_embedding a), <- (ascii_N_embedding b). now rewrite Hab.
Qed.

(** Different integers have different numerals. *)
Lemma str_of_Z_inj (z1 z2 : Z) : str_of_Z z1 = str_of_Z z2 -> z1 = z2.
Proof.
  unfold str_of_Z. intros H. apply lit_inj in H.
  assert (Hnn : forall z, Z.to_int z <> Decimal.Pos Decimal.Nil
                          /\ Z.to_int z <> Decimal.Neg Decimal.Nil).
  { intros [|q|q]; simpl; split; try discriminate;
      intros [= E]; now apply DecimalPos.Unsigned.to_uint_nonnil in E. }
  apply DecimalZ.to_int_inj.
  assert (E : Some (Z.to_int z1) = Some (Z.to_int z2)).
  { rewrite <- (NilZero.isi (Z.to_int z1)) by apply Hnn.
    rewrite <- (NilZero.isi (Z.to_int z2)) by apply Hnn.
    now rewrite H. }
  now injection E.
Qed.

(** [H : In c l] for a literal [l] in which [c] does not occur. *)
Ltac absent_from_literal H :=
  simpl in H; repeat (destruct H as [H|H]; [discriminate|]); exact H.

Lemma dest_name_parts unicode_isalnum src uname ts :
  dest_name unicode_isalnum src uname ts
  = safe_user unicode_isalnum uname ++ lit "_" ++ str_of_Z ts ++ ext_of src.
Proof. reflexivity. Qed.

Lemma path_join_prefix (dir name : str) :
  ~ In sep name -> path_join dir name = join_prefix dir ++ name.
Proof.
  intros H. unfold path_join, join_prefix. rewrite (startswith_absent _ _ H).
  destruct (negb (nonempty dir) || endswith sep dir); [reflexivity|].
  now rewrite <- app_assoc.
Qed.

Lemma safe_user_shape unicode_isalnum uname :
  safe_user unicode_isalnum uname <> []
  /\ ~ In sep (safe_user unicode_isalnum uname)
  /\ ~ In extsep (safe_user unicode_isalnum uname).
Proof.
  unfold safe_user. cbv zeta.
  destruct (nonempty (strip _)) eqn:E.
  - split; [now apply nonempty_true|].
    split; intros H; apply In_strip in H; apply filter_In in H as [_ H]; discriminate H.
  - split; [discriminate|]. split; intros H; absent_from_literal H.
Qed.

(** The extension of the copy: a dot, then text without dot or separator. *)
Lemma ext_of_shape src :
  exists rest, ext_of src = extsep :: rest /\ ~ In extsep rest /\ ~ In sep rest.
Proof.
  unfold ext_of. cbv zeta. destruct (nonempty (snd (splitext src))) eqn:E.
  - apply nonempty_true in E.
    destruct (splitext_ext_shape src) as [H|(rest & H & Hdot)]; [congruence|].
    exists rest. split; [exact H|]. split; [exact Hdot|].
    pose proof (splitext_ext_no_sep src) as Hsep. rewrite H in Hsep.
    intros Hin. apply Hsep. now right.
  - exists (lit "jpg"). split; [reflexivity|]. split; intros H; absent_from_literal H.
Qed.

(** X11: the copy keeps the extension of the chosen file: what
    [os.path.splitext] finds on the stored path is the extension it finds
    on the source, and [.jpg] when the source has none. *)
Theorem copy_keeps_extension IMAGE_FOLDER unicode_isalnum unicode_isprintable
    src uname ts os f dest f' :
  save_image_to_project IMAGE_FOLDER unicode_isalnum unicode_isprintable src uname ts os f
  = (Ret dest, f') ->
  snd (splitext dest)
  = (if nonempty (snd (splitext src)) then snd (splitext src) else lit ".jpg")
  /\ (snd (splitext src) <> [] -> snd (splitext dest) = snd (splitext src)).
Proof.
  intros Hsave.
  apply save_image_to_project_returns in Hsave as (-> & _).
  pose proof (dest_name_component unicode_isalnum src uname ts) as (_ & Hnosep & _).
  rewrite (path_join_prefix _ _ Hnosep), dest_name_parts.
  destruct (safe_user_shape unicode_isalnum uname) as (Hne & Hsep & Hdot).
  destruct (ext_of_shape src) as (rest & Hext & Hrdot & Hrsep).
  assert (E : snd (splitext (join_prefix IMAGE_FOLDER
                               ++ safe_user unicode_isalnum uname ++ lit "_"
                               ++ str_of_Z ts ++ ext_of src))
              = ext_of src).
  { rewrite Hext.
    replace (safe_user unicode_isalnum uname ++ lit "_" ++ str_of_Z ts ++ extsep :: rest)
      with ((safe_user unicode_isalnum uname ++ lit "_" ++ str_of_Z ts) ++ extsep :: rest)
      by (now rewrite <- !app_assoc).
    rewrite splitext_named; [reflexivity | | | | assumption | assumption].
    - destruct (safe_user unicode_isalnum uname); [congruence | discriminate].
    - apply In_sep_app; [exact Hsep|]. apply In_sep_app; [|apply str_of_Z_no_sep].
      intros H. absent_from_literal H.
    - intros H. apply in_app_or in H as [H|H]; [tauto|].
      apply in_app_or in H as [H|H]; [absent_from_literal H | now apply str_of_Z_no_dot in H]. }
  rewrite E. unfold ext_of. cbv zeta. split; [reflexivity|].
  intros H. apply nonempty_true in H. now rewrite H.
Qed.

Lemma copy_keeps_extension_witness :
  snd (splitext (lit "artisan_images/alice_1700000000000.webp")) = lit ".webp".
Proof.
  refine (proj2 (copy_keeps_extension (lit "artisan_images") (fun _ => false) (fun _ => true)
                   (lit "/home/alice/Pictures/pot.v2.webp") (lit "alice") 1700000000000 Copies
                   [(lit "/home/alice/Pictures/pot.v2.webp", [82; 73; 70; 70])]
                   (lit "artisan_images/alice_1700000000000.webp")
                   [(lit "/home/alice/Pictures/pot.v2.webp", [82; 73; 70; 70]);
                    (lit "artisan_images/alice_1700000000000.webp", [82; 73; 70; 70])]
                   _) _).
  - vm_compute. reflexivity.
  - vm_compute. discriminate.
Defined.

Lemma split_at_first (c : char) (n1 n2 r1 r2 : str) :
  ~ In c n1 -> ~ In c n2 -> n1 ++ c :: r1 = n2 ++ c :: r2 -> n1 = n2.
Proof.
  revert n2. induction n1 as [|x n1 IH]; intros [|y n2] H1 H2 E; simpl in *.
  - reflexivity.
  - injection E as E _. subst y. tauto.
  - injection E as E _. subst x. tauto.
  - injection E as -> E. f_equal. apply IH; tauto.
Qed.

(** For one user, the name of the copy tells the clock reading. *)
Lemma dest_name_clock unicode_isalnum src1 src2 uname ts1 ts2 :
  dest_name unicode_isalnum src1 uname ts1 = dest_name unicode_isalnum src2 uname ts2 ->
  ts1 = ts2.
Proof.
  rewrite !dest_name_parts. intros E.
  apply app_inv_head in E. injection E as E.
  destruct (ext_of_shape src1) as (r1 & E1 & _). destruct (ext_of_shape src2) as (r2 & E2 & _).
  rewrite E1, E2 in E. apply split_at_first in E; try apply str_of_Z_no_dot.
  now apply str_of_Z_inj.
Qed.

(** X12: two copies made for the same user at different clock readings
    have different paths, so the second copy does not overwrite the first:
    after both, the first path still holds the bytes of the first chosen
    file. *)
Theorem later_copy_keeps_earlier IMAGE_FOLDER unicode_isalnum unicode_isprintable
    src1 src2 uname ts1 ts2 os1 os2 f d1 f1 d2 f2 :
  save_image_to_project IMAGE_FOLDER unicode_isalnum unicode_isprintable src1 uname ts1 os1 f
  = (Ret d1, f1) ->
  save_image_to_project IMAGE_FOLDER unicode_isalnum unicode_isprintable src2 uname ts2 os2 f1
  = (Ret d2, f2) ->
  ts1 <> ts2 ->
  d1 <> d2 /\ dict_get d1 f2 = dict_get src1 f.
Proof.
  intros H1 H2 Hts.
  apply save_image_to_project_returns in H1 as (E1 & _ & _ & _ & Hb1 & _).
  apply save_image_to_project_returns in H2 as (E2 & _ & _ & _ & _ & Hframe).
  assert (Hne : d1 <> d2).
  { rewrite E1, E2.
    pose proof (dest_name_component unicode_isalnum src1 uname ts1) as (_ & Hs1 & _).
    pose proof (dest_name_component unicode_isalnum src2 uname ts2) as (_ & Hs2 & _).
    rewrite (path_join_prefix _ _ Hs1), (path_join_prefix _ _ Hs2).
    intros E. apply app_inv_head in E. now apply dest_name_clock in E. }
  split; [exact Hne|]. now rewrite (Hframe d1 Hne).
Qed.

Lemma later_copy_keeps_earlier_witness :
  dict_get (lit "artisan_images/alice_1.jpg")
    [(lit "/a.jpg", [1]); (lit "/b.jpg", [2]);
     (lit "artisan_images/alice_1.jpg", [1]); (lit "artisan_images/alice_2.jpg", [2])]
  = dict_get (lit "/a.jpg") [(lit "/a.jpg", [1]); (lit "/b.jpg", [2])].
Proof.
  refine (proj2 (later_copy_keeps_earlier (lit "artisan_images") (fun _ => false) (fun _ => true)
                   (lit "/a.jpg") (lit "/b.jpg") (lit "alice") 1 2 Copies Copies
                   [(lit "/a.jpg", [1]); (lit "/b.jpg", [2])]
                   (lit "artisan_images/alice_1.jpg")
                   [(lit "/a.jpg", [1]); (lit "/b.jpg", [2]);
                    (lit "artisan_images/alice_1.jpg", [1])]
                   (lit "artisan_images/alice_2.jpg")
                   [(lit "/a.jpg", [1]); (lit "/b.jpg", [2]);
                    (lit "artisan_images/alice_1.jpg", [1]);
                    (lit "artisan_images/alice_2.jpg", [2])]
                   _ _ _)).
  - vm_compute. reflexivity.
  - vm_compute. reflexivity.
  - discriminate.
Defined.

(** ** The shape of a digest *)

Lemma round_length (s : list N) (kw : N * N) :
  length s = 8%nat -> length (Sha256.round s kw) = 8%nat.
Proof.
  do 9 (destruct s as [|? s]; try discriminate). reflexivity.
Qed.

Lemma compress_length (h block : list N) :
  length h = 8%nat -> length (Sha256.compress h block) = 8%nat.
Proof.
  intros Hh. unfold Sha256.compress. rewrite length_map, length_combine.
  assert (H : forall kws s, length s = 8%nat ->
                            length (fold_left Sha256.round kws s) = 8%nat).
  { induction kws as [|kw kws IH]; intros s Hs; simpl; [exact Hs|].
    apply IH. now apply round_length. }
  rewrite H by exact Hh. now rewrite Hh.
Qed.

Lemma be_bytes_length (n : nat) (x : N) : length (Sha256.be_bytes n x) = n.
Proof.
  revert x. induction n as [|n IH]; intros x; simpl; [reflexivity|].
  rewrite length_app, IH. simpl. lia.
Qed.

Lemma be_bytes_small (n : nat) (x : N) : Forall (fun b => b < 256) (Sha256.be_bytes n x).
Proof.
  revert x. induction n as [|n IH]; intros x; simpl; [constructor|].
  apply Forall_app. split; [apply IH|]. constructor; [|constructor].
  change 0xFF with (N.ones 8). rewrite N.land_ones. now apply N.mod_lt.
Qed.

Lemma words_bytes (ws : list N) :
  length (flat_map (Sha256.be_bytes 4) ws) = (4 * length ws)%nat
  /\ Forall (fun b => b < 256) (flat_map (Sha256.be_bytes 4) ws).
Proof.
  induction ws as [|w ws [IH1 IH2]]; [split; [reflexivity | constructor]|].
  change (flat_map (Sha256.be_bytes 4) (w :: ws))
    with (Sha256.be_bytes 4 w ++ flat_map (Sha256.be_bytes 4) ws).
  split.
  - rewrite length_app, be_bytes_length, IH1. simpl length. lia.
  - apply Forall_app. split; [apply be_bytes_small | exact IH2].
Qed.

Lemma digest_bytes (msg : list N) :
  length (Sha256.digest msg) = 32%nat /\ Forall (fun b => b < 256) (Sha256.digest msg).
Proof.
  unfold Sha256.digest. cbv zeta.
  set (blocks := Sha256.chunks 64 _ _).
  assert (H : forall bs h, length h = 8%nat ->
                           length (fold_left Sha256.compress bs h) = 8%nat).
  { induction bs as [|b bs IH]; intros h Hh; simpl; [exact Hh|].
    apply IH. now apply compress_length. }
  specialize (H blocks Sha256.H0 eq_refl).
  destruct (words_bytes (fold_left Sha256.compress blocks Sha256.H0)) as [Hlen Hsmall].
  split; [rewrite Hlen, H; reflexivity | exact Hsmall].
Qed.

Lemma hex_digit_is_hex (n : N) : n < 16 -> is_hex (Sha256.hex_digit n) = true.
Proof.
  intros H. unfold Sha256.hex_digit, is_hex, char_in.
  destruct (n <? 10) eqn:E.
  - apply N.ltb_lt in E. apply orb_true_iff. left.
    apply andb_true_iff. split; apply N.leb_le; lia.
  - apply N.ltb_ge in E. apply orb_true_iff. right.
    apply andb_true_iff. split; apply N.leb_le; lia.
Qed.

(** X13: whatever the password, what [hash_password] returns, and so
    what the users collection stores, is sixty-four lower-case hexadecimal
    digits; a password of any other length is never stored as typed. *)
Theorem hash_is_sixty_four_hex_digits (password : str) :
  length (hash_password password) = 64%nat
  /\ forallb is_hex (hash_password password) = true
  /\ (length password <> 64%nat -> hash_password password <> password).
Proof.
  unfold hash_password, Sha256.hexdigest.
  destruct (digest_bytes (encode password)) as [Hlen Hsmall].
  set (bytes := Sha256.digest (encode password)) in *. clearbody bytes.
  assert (H : forall bs, Forall (fun b => b < 256) bs ->
            length (flat_map (fun b => [Sha256.hex_digit (N.shiftr b 4);
                                        Sha256.hex_digit (N.land b 0xF)]) bs)
            = (2 * length bs)%nat
            /\ forallb is_hex
                 (flat_map (fun b => [Sha256.hex_digit (N.shiftr b 4);
                                      Sha256.hex_digit (N.land b 0xF)]) bs) = true).
  { induction bs as [|b bs IH]; intros Hbs; [split; reflexivity|].
    inversion Hbs as [|? ? Hb Hrest]; subst. destruct (IH Hrest) as [IH1 IH2].
    cbn [flat_map Datatypes.app Datatypes.length forallb]. split; [rewrite IH1; simpl; lia|].
    rewrite IH2, !hex_digit_is_hex; [reflexivity | |].
    - change 0xF with (N.ones 4). rewrite N.land_ones. now apply N.mod_lt.
    - rewrite N.shiftr_div_pow2. change (2 ^ 4) with 16.
      apply N.Div0.div_lt_upper_bound. lia. }
  destruct (H bytes Hsmall) as [H1 H2]. rewrite Hlen in H1.
  split; [exact H1|]. split; [exact H2|].
  intros Hp E. rewrite E in H1. contradiction.
Qed.

(** ** The pipeline and its cache *)

(** X14: a cache file that holds something other than a JSON object makes
    [save_to_json] raise, a decoding error for text that is not JSON and a
    type error for a JSON value that is not an object, and the file is
    left as it was. *)
Theorem save_to_json_refuses_other_files image_name caption description s :
  cache_members (cache s) = None ->
  exists e,
    save_to_json image_name caption description s = (Raise e, s)
    /\ (forall why, cache s = Garbled why -> e = Exception (lit "JSONDecodeError") why)
    /\ (forall j, cache s = Holds j -> exn_type e = lit "TypeError").
Proof.
  intros H. unfold save_to_json, bind, read_cache.
  destruct s as [file out answers]. cbn [cache] in *.
  destruct file as [|[| | | | |m]|why]; simpl in H; try discriminate;
    eexists; (split; [reflexivity|]); split; intros x Hx; try discriminate; try reflexivity.
  now injection Hx as <-.
Qed.

Lemma save_to_json_refuses_other_files_witness :
  exists e,
    save_to_json (lit "a.jpg") (lit "a cat") (lit "A cat sits.")
      {| cache := Holds (JArr []); console := []; disk := [] |}
    = (Raise e, {| cache := Holds (JArr []); console := []; disk := [] |}).
Proof.
  destruct (save_to_json_refuses_other_files (lit "a.jpg") (lit "a cat") (lit "A cat sits.")
              {| cache := Holds (JArr []); console := []; disk := [] |} eq_refl) as (e & H & _).
  now exists e.
Defined.

(** A number with a fraction or an exponent is a [float], any other an
    [int]. *)
Example save_to_json_on_numbers :
  map (fun numeral =>
         option_map exn_msg
           (match fst (save_to_json (lit "a.jpg") [] []
                         {| cache := Holds (JNum numeral); console := []; disk := [] |}) with
            | Raise e => Some e
            | Ret _ => None
            end))
      [lit "12"; lit "-0"; lit "1.5"; lit "1e5"; lit "NaN"]
  = [Some (lit "'int' object does not support item assignment");
     Some (lit "'int' object does not support item assignment");
     Some (lit "'float' object does not support item assignment");
     Some (lit "'float' object does not support item assignment");
     Some (lit "'float' object does not support item assignment")].
Proof. vm_compute. reflexivity. Qed.

(** Where an exception that [process_single_image] lets through comes
    from: a call of the environment, or the write of the cache file. *)
Lemma process_single_image_raises env path s e :
  fst (process_single_image env path s) = Raise e ->
  (exists p, image_open env p = Raise e)
  \/ (exists img, blip_generate env img = Raise e)
  \/ (exists prompt, gemini_generate env prompt = Raise e)
  \/ (exists img, image_show env img = Raise e)
  \/ (cache_members (cache s) <> None
      /\ ((exists rest, disk s = OpenFails e :: rest)
          \/ (exists remains rest, disk s = DumpFails e remains :: rest))).
Proof.
  unfold process_single_image.
  destruct (path_exists env path) eqn:Hex; [|discriminate].
  change (negb true) with false. cbv beta iota.
  unfold try_except, bind, lift, print, ret.
  destruct (image_open env path) as [img|e1] eqn:Hopen;
    [|destruct (is_exception e1); [discriminate|]; intros [= <-]; left; now exists path].
  cbv beta iota zeta.
  destruct (blip_generate env img) as [caption|e1] eqn:Hblip;
    [|destruct (is_exception e1); [discriminate|]; intros [= <-]; right; left; now exists img].
  cbv beta iota zeta.
  destruct (expand_caption_to_story env caption 3) as [description|e1] eqn:Hexp.
  2:{ destruct (expand_caption_raises _ _ _ _ Hexp) as [He Hgem]. rewrite He.
      intros [= <-]. right. right. left. now exists (prompt_for caption 3). }
  cbv beta iota zeta.
  destruct (image_show env img) as [[]|e1] eqn:Hshow;
    [|destruct (is_exception e1); [discriminate|]; intros [= <-];
      right; right; right; left; now exists img].
  cbv beta iota zeta. cbn [cache console disk].
  match goal with
  | |- context [save_to_json ?n ?c ?d ?st] =>
      pose proof (save_to_json_cases n c d st) as Hsave; cbn [cache console disk] in Hsave
  end.
  destruct (cache_members (cache s)) as [members|] eqn:Hm.
  - cbv zeta in Hsave. rewrite Hsave.
    destruct (disk s) as [|[|e1|e1 remains] rest] eqn:Hdisk; try discriminate.
    + destruct (is_exception e1); [discriminate|]. intros [= <-].
      right. right. right. right. split; [discriminate|]. left. now exists rest.
    + destruct (is_exception e1); [discriminate|]. intros [= <-].
      right. right. right. right. split; [discriminate|]. right. now exists remains, rest.
  - destruct Hsave as (e1 & He & ->). rewrite He. discriminate.
Qed.

Lemma whole_writes_tl (answers : list disk_answer) :
  whole_writes answers -> whole_writes (tl answers).
Proof.
  unfold whole_writes. destruct answers as [|w rest]; [trivial|].
  intros H. now apply Forall_cons_iff in H.
Qed.

(** With an environment that raises nothing but [Exception]s, and writes
    that are carried out or refused as a whole, [process_single_image]
    returns, and the cache file is as it was or has gained the entry of the
    image. *)
Lemma process_single_image_calm env path s :
  raises_exceptions_only env ->
  whole_writes (disk s) ->
  exists r s',
    process_single_image env path s = (Ret r, s')
    /\ whole_writes (disk s')
    /\ (cache s' = cache s
        \/ exists members entry,
             cache_members (cache s) = Some members
             /\ cache s' = Holds (JObj (dict_set (basename path) entry members))).
Proof.
  intros (Henv1 & Henv2 & Henv3 & Henv4) Hdisk.
  pose proof (process_single_image_cases env path s) as Hcases.
  pose proof (process_single_image_raises env path s) as Hraises.
  destruct (process_single_image env path s) as [o s'] eqn:E. cbn [fst snd] in *.
  assert (Hno_break : forall e remains rest, disk s <> DumpFails e remains :: rest).
  { intros e remains rest Hd. unfold whole_writes in Hdisk. rewrite Hd in Hdisk.
    apply Forall_cons_iff in Hdisk as [[] _]. }
  destruct Hcases
    as [(img & caption & description & members & _ & _ & _ & _ & _ & Hm & _ & Ho & Hc & Hd)
       |[Ho Hc]].
  - exists (Some [(lit "image", VImage img); (lit "caption", VStr caption);
                  (lit "description", VStr description)]), s'.
    split; [now rewrite Ho|]. split; [rewrite Hd; now apply whole_writes_tl|].
    right. now exists members, (JObj [(lit "caption", JStr caption);
                                      (lit "description", JStr description)]).
  - assert (Hnone : o = Ret None).
    { destruct Ho as [Ho|(e & Ho & He)]; [exact Ho|]. exfalso.
      destruct (Hraises e Ho)
        as [[p H]|[[i H]|[[t H]|[[i H]|[_ [[rest H]|(remains & rest & H)]]]]]].
      - apply Henv1 in H. congruence.
      - apply Henv2 in H. congruence.
      - apply Henv3 in H. congruence.
      - apply Henv4 in H. congruence.
      - unfold whole_writes in Hdisk. rewrite H in Hdisk.
        apply Forall_cons_iff in Hdisk as [He' _]. congruence.
      - now apply Hno_break in H. }
    exists None, s'. split; [now rewrite Hnone|].
    destruct Hc as [[Hc Hd]|(e & remains & rest & Hd & _)]; [|now apply Hno_break in Hd].
    split; [|now left].
    destruct Hd as [->| ->]; [exact Hdisk | now apply whole_writes_tl].
Qed.

(** When every call for the image answers, the cache file holds a mapping
    (or is absent) and the write is carried out, [process_single_image]
    returns the result and the file holds it. *)
Lemma process_single_image_succeeds env path s caption description members :
  answers env path caption description ->
  cache_members (cache s) = Some members ->
  write_goes_through s ->
  exists img,
    image_open env path = Ret img
    /\ expand_caption_to_story env caption 3 = Ret description
    /\ fst (process_single_image env path s)
       = Ret (Some [(lit "image", VImage img);
                    (lit "caption", VStr caption);
                    (lit "description", VStr description)])
    /\ cache (snd (process_single_image env path s))
       = Holds (JObj (dict_set (basename path)
                        (JObj [(lit "caption", JStr caption);
                               (lit "description", JStr description)])
                        members))
    /\ disk (snd (process_single_image env path s)) = tl (disk s).
Proof.
  intros (Hex & img & Hopen & Hblip & Hshow & Hgem) Hm Hw.
  assert (Hexp : expand_caption_to_story env caption 3 = Ret description).
  { destruct Hgem as [(text & Hgem & ->)|(type & message & Hgem & ->)].
    - now apply expand_caption_on_success.
    - now apply (expand_caption_on_failure _ _ _ type). }
  exists img. split; [exact Hopen|]. split; [exact Hexp|].
  unfold process_single_image. rewrite Hex.
  change (negb true) with false. cbv beta iota.
  unfold try_except, bind, lift, print, ret.
  rewrite Hopen. cbv beta iota zeta. rewrite Hblip. cbv beta iota zeta.
  rewrite Hexp, Hshow. cbv beta iota zeta. cbn [cache console disk].
  rewrite (save_to_json_writes _ _ _ _ members) by assumption.
  repeat split.
Qed.

(** X15: a generation that returns no result has not touched the cache
    file, unless the write of the file itself broke off after the file was
    opened; then the file holds what that write left. *)
Theorem generation_without_result_keeps_cache env path s :
  fst (process_single_image env path s) = Ret None ->
  cache (snd (process_single_image env path s)) = cache s
  \/ exists e remains rest,
       disk s = DumpFails e remains :: rest
       /\ cache (snd (process_single_image env path s)) = remains.
Proof.
  intros H.
  destruct (process_single_image_cases env path s)
    as [(img & caption & description & members & _ & _ & _ & _ & _ & _ & _ & E & _)
       |[_ [[E _]|(e & remains & rest & Hd & _ & E & _)]]].
  - congruence.
  - now left.
  - right. now exists e, remains, rest.
Qed.

Lemma generation_without_result_keeps_cache_witness :
  cache (snd (process_single_image env_vision_down cat_path
                {| cache := Holds (JObj [(lit "old.jpg", JNull)]); console := []; disk := [] |}))
  = Holds (JObj [(lit "old.jpg", JNull)]).
Proof.
  destruct (generation_without_result_keeps_cache env_vision_down cat_path
              {| cache := Holds (JObj [(lit "old.jpg", JNull)]); console := []; disk := [] |})
    as [H|(e & remains & rest & Hd & _)].
  - vm_compute. reflexivity.
  - exact H.
  - discriminate Hd.
Defined.

(** A write that breaks off costs the cache: no result is returned, and
    the entry that was there is gone. *)
Example generation_with_broken_write :
  let disk_full := Exception (lit "OSError") (lit "[Errno 28] No space left on device") in
  let r := process_single_image (env_answering (lit "a cat") (lit "A cat sits.")) cat_path
             {| cache := Holds (JObj [(lit "old.jpg", JNull)]); console := [];
                disk := [DumpFails disk_full
                           (Garbled (lit "Expecting value: line 1 column 1 (char 0)"))] |} in
  fst r = Ret None
  /\ cache (snd r) = Garbled (lit "Expecting value: line 1 column 1 (char 0)").
Proof. vm_compute. split; reflexivity. Qed.





(** ** Generating and saving on the dashboard *)


(** An exception that is not an [Exception] passes the handler: no dialog
    is shown and the status line stays at the text set before the call. *)
Example interrupt_on_dashboard :
  let interrupt := BaseException (lit "KeyboardInterrupt") [] in
  let r := generate_preview (fun _ => raise interrupt) (at_dashboard [] []) in
  snd r = []
  /\ status_var (fst r)
     = lit "Generating caption " ++ [em_dash] ++ lit " this may take a moment...".
Proof. vm_compute. split; reflexivity. Qed.

Lemma save_keeps_dashboard now a path u :
  selected a = Some path ->
  current_user a = Some u ->
  strip (caption_entry a) <> [] \/ strip (description_entry a) <> [] ->
  let a' := fst (save_to_db now a) in
  selected a' = Some path /\ current_user a' = Some u
  /\ caption_entry a' = caption_entry a /\ description_entry a' = description_entry a
  /\ uploads_collection (db a')
     = uploads_collection (db a)
       ++ [saved_record u path now a (fresh_oid (map up_id (uploads_collection (db a))))].
Proof.
  intros Hsel Hu Htext a'. subst a'.
  rewrite (save_to_db_accepts now a path u Hsel Hu Htext). unfold fst.
  repeat split; assumption.
Qed.







(** ** The batch run *)

Lemma insert_sorted_perm (x : str) (l : list str) : Permutation (insert_sorted x l) (x :: l).
Proof.
  induction l as [|y l IH]; simpl; [reflexivity|].
  destruct (str_leb x y); [reflexivity|].
  rewrite IH. apply perm_swap.
Qed.

(** [sorted] returns the names it was given, each as often. *)
Lemma sorted_perm (l : list str) : Permutation (sorted l) l.
Proof.
  induction l as [|x l IH]; simpl; [reflexivity|].
  rewrite insert_sorted_perm. now constructor.
Qed.

Lemma str_In_dec (k : str) (l : list str) : In k l \/ ~ In k l.
Proof. destruct (in_dec (list_eq_dec N.eq_dec) k l); auto. Qed.

Lemma cache_lookup_set (k f : str) (e : json) (members : dict json) :
  cache_lookup k (Holds (JObj (dict_set f e members)))
  = if str_eqb f k then Some e else dict_get k members.
Proof.
  unfold cache_lookup. cbn [cache_members].
  destruct (str_eqb f k) eqn:E.
  - apply str_eqb_eq in E. subst k. apply dict_get_set_same.
  - apply str_eqb_neq in E. apply dict_get_set_other. congruence.
Qed.

(** [endswith] says that the string is some text followed by the
    suffix. *)
Lemma endswith_str_spec (suffix s : str) :
  endswith_str suffix s = true <-> exists stem, s = stem ++ suffix.
Proof.
  unfold endswith_str. rewrite str_eqb_eq. split.
  - intros H. exists (firstn (length s - length suffix) s).
    transitivity (firstn (length s - length suffix) s ++ skipn (length s - length suffix) s);
      [symmetry; apply firstn_skipn | now rewrite H].
  - intros [stem ->]. rewrite length_app.
    replace (length stem + length suffix - length suffix)%nat with (length stem + 0)%nat by lia.
    rewrite skipn_app, skipn_all2 by lia.
    replace (length stem + 0 - length stem)%nat with 0%nat by lia. reflexivity.
Qed.

Lemma endswith_any_spec (suffixes : list str) (s : str) :
  endswith_any suffixes s = true
  <-> exists stem suffix, In suffix suffixes /\ s = stem ++ suffix.
Proof.
  unfold endswith_any. rewrite existsb_exists. split.
  - intros (suffix & Hin & H). apply endswith_str_spec in H as [stem H]. now exists stem, suffix.
  - intros (stem & suffix & Hin & H). exists suffix. split; [exact Hin|].
    apply endswith_str_spec. now exists stem.
Qed.

(** The test of the batch is the test of the five extensions. *)
Lemma is_image_name_spec unicode_lower (f : str) :
  is_image_name unicode_lower f = true
  <-> has_extension unicode_lower
        [lit ".jpg"; lit ".jpeg"; lit ".png"; lit ".webp"; lit ".avif"] f.
Proof. unfold is_image_name, has_extension. apply endswith_any_spec. Qed.

(** Joining a directory that does not end in a separator and one file
    name puts a separator between them. *)
Lemma path_join_plain (dir name : str) :
  dir <> [] -> (forall d, dir <> d ++ [sep]) -> ~ In sep name ->
  path_join dir name = dir ++ [sep] ++ name
  /\ basename (path_join dir name) = name.
Proof.
  intros Hne Hend Hname.
  assert (E : path_join dir name = dir ++ [sep] ++ name).
  { unfold path_join. rewrite (startswith_absent _ _ Hname).
    destruct dir as [|d dir]; [congruence|]. cbn [nonempty negb orb].
    destruct (endswith sep (d :: dir)) eqn:E; [|reflexivity].
    apply endswith_snoc in E as [a E]. now elim (Hend a). }
  split; [exact E|]. rewrite E, app_assoc. now apply basename_after_sep.
Qed.

(** The text model answers each prompt in one way. *)
Lemma answers_unique env path caption description caption' description' :
  answers env path caption description ->
  answers env path caption' description' ->
  caption = caption' /\ description = description'.
Proof.
  intros (_ & img & Hopen & Hblip & _ & Hgem) (_ & img' & Hopen' & Hblip' & _ & Hgem').
  rewrite Hopen in Hopen'. injection Hopen' as <-.
  rewrite Hblip in Hblip'. injection Hblip' as <-.
  split; [reflexivity|].
  destruct Hgem as [(text & Hg & ->)|(type & message & Hg & ->)];
    destruct Hgem' as [(text' & Hg' & ->)|(type' & message' & Hg' & ->)];
    rewrite Hg in Hg'; try discriminate; injection Hg'; intros; subst; reflexivity.
Qed.

(** One turn of the loop: the line of the file, the generation, and the
    rest of the loop unless the generation lets an exception through. *)
Lemma batch_loop_cons env folder total idx f rest s :
  exists s1,
    cache s1 = cache s /\ disk s1 = disk s
    /\ batch_loop env folder total idx (f :: rest) s
       = match process_single_image env (path_join folder f) s1 with
         | (Ret _, s2) => batch_loop env folder total (S idx) rest s2
         | (Raise e, s2) => (Raise e, s2)
         end.
Proof.
  exists {| cache := cache s;
            console := console s ++
              [[newline] ++ lit "--- [" ++ str_of_Z (Z.of_nat idx) ++ lit "/"
               ++ str_of_Z (Z.of_nat total) ++ lit "] " ++ f ++ lit " ---"];
            disk := disk s |}.
  split; [reflexivity|]. split; [reflexivity|].
  cbn [batch_loop]. unfold bind, print. cbv beta iota.
  destruct (process_single_image env (path_join folder f) _) as [[r|e] s2]; reflexivity.
Qed.

(** With an environment that raises nothing but [Exception]s and writes
    that are carried out or refused as a whole, the loop returns; it
    changes the entries of the files it is given and no other, and nothing
    at all in a file that holds no mapping. *)
Lemma batch_loop_frame env folder total files :
  Forall (fun f => ~ In sep f) files ->
  raises_exceptions_only env ->
  forall idx s,
    whole_writes (disk s) ->
    exists s',
      batch_loop env folder total idx files s = (Ret tt, s')
      /\ (forall k, ~ In k files -> cache_lookup k (cache s') = cache_lookup k (cache s))
      /\ (cache_members (cache s) = None -> cache s' = cache s).
Proof.
  intros Hnames Henv. induction files as [|f rest IH]; intros idx s Hdisk.
  - exists s. repeat split.
  - apply Forall_cons_iff in Hnames as [Hf Hrest].
    destruct (batch_loop_cons env folder total idx f rest s) as (s1 & Hc1 & Hd1 & Hstep).
    rewrite <- Hd1 in Hdisk.
    destruct (process_single_image_calm env (path_join folder f) s1 Henv Hdisk)
      as (r & s2 & Hrun & Hdisk2 & Hcache).
    rewrite Hrun in Hstep.
    destruct (IH Hrest (S idx) s2 Hdisk2) as (s' & Hloop & Hframe & Hbroken).
    exists s'. split; [exact (eq_trans Hstep Hloop)|].
    destruct Hcache as [Ec|(members & entry & Hm & Ec)].
    + rewrite Ec, Hc1 in *. split.
      * intros k Hk. apply Hframe. intros H. apply Hk. now right.
      * exact Hbroken.
    + split.
      * intros k Hk. rewrite Hframe by (intros H; apply Hk; now right).
        rewrite Ec. destruct (path_join_component folder f Hf) as [Hbase _].
        rewrite Hbase, cache_lookup_set.
        assert (E : str_eqb f k = false) by (apply str_eqb_neq; intros ->; apply Hk; now left).
        rewrite E. unfold cache_lookup. now rewrite <- Hc1, Hm.
      * rewrite <- Hc1, Hm. discriminate.
Qed.

Lemma image_names_plain unicode_lower (names : list str) :
  Forall (fun f => ~ In sep f) names ->
  Forall (fun f => ~ In sep f) (sorted (filter (is_image_name unicode_lower) names)).
Proof.
  intros H. rewrite Forall_forall in *. intros f Hf.
  apply (Permutation_in _ (sorted_perm _)) in Hf.
  apply filter_In in Hf as [Hf _]. now apply H.
Qed.



(** An exception that is not an [Exception] ends the batch at the image
    that raised it: the images after it are not processed. *)
Example batch_interrupted :
  let interrupt := BaseException (lit "KeyboardInterrupt") [] in
  let env :=
    {| path_exists := fun _ => true;
       image_open := fun _ => Ret cat_image;
       blip_generate := fun _ => Raise interrupt;
       gemini_generate := fun _ => Ret (lit "A cat sits.");
       image_show := fun _ => Ret tt |} in
  let r := process_batch_images ascii_lower env
             (fun _ => Ret [lit "b.png"; lit "a.jpg"]) (lit "./artisan_images") quiet in
  fst r = Raise interrupt
  /\ console (snd r)
     = [[0x1F4C2] ++ lit " Found 2 images in ./artisan_images";
        [newline] ++ lit "--- [1/2] a.jpg ---"].
Proof. vm_compute. split; reflexivity. Qed.

Example image_names :
  map (is_image_name ascii_lower)
    [lit "a.jpg"; lit "b.PNG"; lit "c.JpEg"; lit "notes.txt"; lit "jpg"; lit ".avif"; lit "x.webp.bak"]
  = [true; true; true; false; false; true; false]
  /\ sorted [lit "b.PNG"; lit "a.jpg"; lit "B.png"; lit "a.jp"; lit "a.jpg"]
     = [lit "B.png"; lit "a.jp"; lit "a.jpg"; lit "a.jpg"; lit "b.PNG"].
Proof. vm_compute. split; reflexivity. Qed.

Lemma all_written_goes_through (s : pstate) :
  Forall (fun w => w = Written) (disk s) ->
  write_goes_through s /\ Forall (fun w => w = Written) (tl (disk s)).
Proof.
  unfold write_goes_through. destruct (disk s) as [|w rest]; [intros _; split; [now left | constructor]|].
  intros H. apply Forall_cons_iff in H as [-> H]. split; [right; now exists rest | exact H].
Qed.

(** When every file of the loop is answered for, the cache file holds a
    mapping and every write is carried out, the loop returns and leaves
    the entry of each file in the cache file. *)
Lemma batch_loop_caches env folder total files :
  Forall (fun f => ~ In sep f) files ->
  folder <> [] -> (forall d, folder <> d ++ [sep]) ->
  (forall f, In f files ->
     exists caption description, answers env (folder ++ [sep] ++ f) caption description) ->
  forall idx s,
    cache_members (cache s) <> None ->
    Forall (fun w => w = Written) (disk s) ->
    exists s',
      batch_loop env folder total idx files s = (Ret tt, s')
      /\ cache_members (cache s') <> None
      /\ (forall k, ~ In k files -> cache_lookup k (cache s') = cache_lookup k (cache s))
      /\ (forall f caption description,
            In f files ->
            answers env (folder ++ [sep] ++ f) caption description ->
            cache_lookup f (cache s')
            = Some (JObj [(lit "caption", JStr caption); (lit "description", JStr description)])).
Proof.
  intros Hnames Hne Hend. induction files as [|f rest IH]; intros Hans idx s Hcache Hdisk.
  - exists s. split; [reflexivity|]. split; [exact Hcache|]. split; [reflexivity|].
    intros f c d [].
  - apply Forall_cons_iff in Hnames as [Hf Hrest].
    destruct (batch_loop_cons env folder total idx f rest s) as (s1 & Hc1 & Hd1 & Hstep).
    destruct (path_join_plain folder f Hne Hend Hf) as [Epath Ebase].
    rewrite Epath in Hstep, Ebase.
    destruct (Hans f (or_introl eq_refl)) as (caption & description & Hf_ans).
    destruct (cache_members (cache s)) as [members|] eqn:Hm; [|congruence].
    rewrite <- Hc1 in Hm. rewrite <- Hd1 in Hdisk.
    destruct (all_written_goes_through s1 Hdisk) as [Hw Hdisk2].
    destruct (process_single_image_succeeds env _ s1 caption description members Hf_ans Hm Hw)
      as (img & _ & _ & Hres & Hc & Hd).
    rewrite Ebase in Hc.
    destruct (process_single_image env (folder ++ [sep] ++ f) s1) as [o s2].
    cbn [fst snd] in *. subst o. rewrite <- Hd in Hdisk2.
    assert (Hcache2 : cache_members (cache s2) <> None) by (rewrite Hc; discriminate).
    destruct (IH Hrest (fun g Hg => Hans g (or_intror Hg)) (S idx) s2 Hcache2 Hdisk2)
      as (s' & Hloop & Hkeep & Hframe & Hall).
    exists s'. split; [exact (eq_trans Hstep Hloop)|]. split; [exact Hkeep|]. split.
    + intros k Hk. rewrite Hframe by (intros H; apply Hk; now right).
      rewrite Hc, cache_lookup_set.
      assert (E : str_eqb f k = false) by (apply str_eqb_neq; intros ->; apply Hk; now left).
      rewrite E. unfold cache_lookup. now rewrite <- Hc1, Hm.
    + intros g c d Hg Hg_ans.
      destruct (str_In_dec g rest) as [Hin|Hout]; [now apply Hall|].
      destruct Hg as [<-|Hg]; [|contradiction].
      destruct (answers_unique _ _ _ _ _ _ Hf_ans Hg_ans) as [<- <-].
      rewrite (Hframe f Hout), Hc, cache_lookup_set, str_eqb_refl. reflexivity.
Qed.

(** The batch over a folder with image files: the line that counts them,
    then the loop. *)
Lemma process_batch_images_loop unicode_lower env listdir folder names s g files :
  listdir folder = Ret names ->
  sorted (filter (is_image_name unicode_lower) names) = g :: files ->
  process_batch_images unicode_lower env listdir folder s
  = batch_loop env folder (length (g :: files)) 1 (g :: files)
      {| cache := cache s;
         console := console s ++
           [[0x1F4C2] ++ lit " Found " ++ str_of_Z (Z.of_nat (length (g :: files)))
            ++ lit " images in " ++ folder];
         disk := disk s |}.
Proof.
  intros Hlist E. unfold process_batch_images, bind at 1, lift. rewrite Hlist.
  cbv zeta. rewrite E. reflexivity.
Qed.



(** ** The renaming script *)

Lemma dict_get_remove {V} (k f : str) (d : dict V) :
  dict_get k (dict_remove f d) = if str_eqb k f then None else dict_get k d.
Proof.
  induction d as [|[k' v] d IH]; simpl.
  - now destruct (str_eqb k f).
  - destruct (str_eqb k' f) eqn:E1.
    + apply str_eqb_eq in E1. subst k'. rewrite IH.
      destruct (str_eqb k f) eqn:E2; [reflexivity|].
      assert (E3 : str_eqb f k = false)
        by (apply str_eqb_neq; apply str_eqb_neq in E2; congruence).
      now rewrite E3.
    + simpl. destruct (str_eqb k' k) eqn:E2.
      * apply str_eqb_eq in E2. subst k'. now rewrite E1.
      * exact IH.
Qed.

Lemma dict_get_set {V} (k n : str) (v : V) (d : dict V) :
  dict_get k (dict_set n v d) = if str_eqb k n then Some v else dict_get k d.
Proof.
  destruct (str_eqb k n) eqn:E.
  - apply str_eqb_eq in E. subst k. apply dict_get_set_same.
  - apply str_eqb_neq in E. now apply dict_get_set_other.
Qed.

Lemma split_numeral (n1 n2 e1 e2 : str) :
  ~ In extsep n1 -> ~ In extsep n2 ->
  (e1 = [] \/ exists r, e1 = extsep :: r) ->
  (e2 = [] \/ exists r, e2 = extsep :: r) ->
  n1 ++ e1 = n2 ++ e2 -> n1 = n2.
Proof.
  intros H1 H2 [->|(r1 & ->)] [->|(r2 & ->)] E.
  - now rewrite !app_nil_r in E.
  - rewrite app_nil_r in E. subst n1. exfalso. apply H1. apply in_or_app. right. now left.
  - rewrite app_nil_r in E. subst n2. exfalso. apply H2. apply in_or_app. right. now left.
  - now apply split_at_first in E.
Qed.

(** The new name tells the count. *)
Lemma new_name_count c1 c2 f1 f2 : new_name c1 f1 = new_name c2 f2 -> c1 = c2.
Proof.
  unfold new_name. intros E. apply app_inv_head in E.
  apply split_numeral in E; try apply str_of_Z_no_dot.
  - now apply str_of_Z_inj.
  - destruct (splitext_ext_shape f1) as [H|H]; [now left | right].
    destruct H as (r & H & _). now exists r.
  - destruct (splitext_ext_shape f2) as [H|H]; [now left | right].
    destruct H as (r & H & _). now exists r.
Qed.

Section RenamingProperties.

Variable unicode_lower : str -> char -> str -> str.
Variable unicode_isprintable : char -> bool.

(** What a renaming that meets no directory leaves under each name. *)
Lemma rename_returns folder old new d entry :
  dict_get old d = Some entry ->
  renames_freely d old new ->
  exists d',
    rename unicode_isprintable folder old new d = Ret d'
    /\ dict_get new d' = Some entry
    /\ (old <> new -> dict_get old d' = None)
    /\ (forall k, k <> old -> k <> new -> dict_get k d' = dict_get k d)
    /\ (old = new -> d' = d).
Proof.
  intros H Hfree. unfold rename. cbv zeta. rewrite H. destruct (str_eqb old new) eqn:E.
  - apply str_eqb_eq in E. subst new. exists d. repeat split; try assumption.
    intros Hne. congruence.
  - apply str_eqb_neq in E.
    assert (Hmoved : exists d',
               Ret (dict_set new entry (dict_remove old d)) = Ret d'
               /\ dict_get new d' = Some entry
               /\ (old <> new -> dict_get old d' = None)
               /\ (forall k, k <> old -> k <> new -> dict_get k d' = dict_get k d)
               /\ (old = new -> d' = d)).
    { eexists. split; [reflexivity|]. split; [|split; [|split]].
      - apply dict_get_set_same.
      - intros _. rewrite dict_get_set_other by congruence.
        rewrite dict_get_remove. now rewrite str_eqb_refl.
      - intros k Hk1 Hk2. rewrite dict_get_set_other by exact Hk2.
        rewrite dict_get_remove.
        assert (E' : str_eqb k old = false) by now apply str_eqb_neq.
        now rewrite E'.
      - intros E'. contradiction. }
    destruct Hfree as [Hnone|[(content & Hold) (content' & Hnew)]].
    + rewrite Hnone. destruct entry; exact Hmoved.
    + rewrite H in Hold. injection Hold as ->. rewrite Hnew. exact Hmoved.
Qed.

Lemma rename_plan_entry names c o n :
  In (o, n) (rename_plan unicode_lower names c) ->
  In o names /\ is_supported unicode_lower o = true
  /\ exists c', (c <= c')%Z /\ n = new_name c' o.
Proof.
  revert c. induction names as [|f rest IH]; intros c; simpl; [tauto|].
  destruct (is_supported unicode_lower f) eqn:Hf.
  - intros [[= <- <-]|H].
    + split; [now left|]. split; [exact Hf|]. exists c. split; [lia | reflexivity].
    + destruct (IH _ H) as (H1 & H2 & c' & H3 & H4).
      split; [now right|]. split; [exact H2|]. exists c'. split; [lia | exact H4].
  - intros H. destruct (IH _ H) as (H1 & H2 & H3). split; [now right | tauto].
Qed.

Lemma rename_plan_olds names c o :
  In o (map fst (rename_plan unicode_lower names c)) <->
  In o names /\ is_supported unicode_lower o = true.
Proof.
  revert c. induction names as [|f rest IH]; intros c; simpl; [tauto|].
  destruct (is_supported unicode_lower f) eqn:Hf; simpl; rewrite IH.
  - split; [intros [<-|H]; tauto|]. intros [[<-|H] H']; tauto.
  - split; [tauto|]. intros [[<-|H] H']; [congruence | tauto].
Qed.

(** The plan pairs the supported names, in their order and numbered from
    [c + k], with the new names. *)
Lemma rename_plan_numbered names c k :
  rename_plan unicode_lower names (c + Z.of_nat k)
  = map (fun p => (snd p,
                   lit "img" ++ str_of_Z (c + Z.of_nat (fst p)) ++ snd (splitext (snd p))))
        (combine (seq k (length (filter (is_supported unicode_lower) names)))
                 (filter (is_supported unicode_lower) names)).
Proof.
  revert k. induction names as [|f rest IH]; intros k; [reflexivity|].
  cbn [rename_plan filter]. destruct (is_supported unicode_lower f); [|apply IH].
  cbn [length seq combine map fst snd]. f_equal.
  replace (c + Z.of_nat k + 1)%Z with (c + Z.of_nat (S k))%Z by lia. apply IH.
Qed.

(** The loop returns when no renaming meets a directory; it prints the
    line of each planned renaming, in order, and leaves alone every entry
    that is neither a supported name nor a new name. *)
Lemma rename_loop_returns folder names :
  NoDup names ->
  forall c d out,
    (forall g, In g names -> dict_get g d <> None) ->
    (forall o n, In (o, n) (rename_plan unicode_lower names c) -> renames_freely d o n) ->
    exists d',
      rename_loop unicode_lower unicode_isprintable folder names c d out
      = (Ret tt, d',
         out ++ map (fun p => lit "Renamed " ++ fst p ++ lit " -> " ++ snd p)
                    (rename_plan unicode_lower names c))
      /\ (forall k, ~ In k (map fst (rename_plan unicode_lower names c)) ->
                    ~ In k (map snd (rename_plan unicode_lower names c)) ->
                    dict_get k d' = dict_get k d).
Proof.
  induction names as [|f rest IH]; intros Hnd c d out Hex Hfree.
  - exists d. cbn [rename_loop rename_plan map]. rewrite app_nil_r. split; [reflexivity|].
    intros; reflexivity.
  - apply NoDup_cons_iff in Hnd as [Hf Hnd].
    cbn [rename_plan] in Hfree |- *. cbn [rename_loop].
    destruct (is_supported unicode_lower f) eqn:Hsup.
    + destruct (dict_get f d) as [entry|] eqn:Hb;
        [|exfalso; apply (Hex f); [now left | exact Hb]].
      pose proof (Hfree f (new_name c f) (or_introl eq_refl)) as Hhead.
      destruct (rename_returns folder f (new_name c f) d entry Hb Hhead)
        as (d1 & Hren & Hnew & Hold & Hframe & Hsame).
      rewrite Hren.
      destruct (IH Hnd (c + 1)%Z d1
                  (out ++ [lit "Renamed " ++ f ++ lit " -> " ++ new_name c f]))
        as (d' & Hrun & Hrest).
      { intros g Hg. destruct (list_eq_dec N.eq_dec g (new_name c f)) as [->|Hne].
        - rewrite Hnew. discriminate.
        - rewrite Hframe; [apply Hex; now right | | exact Hne].
          intros ->. contradiction. }
      { intros o n Hin. pose proof (Hfree o n (or_intror Hin)) as Hon.
        destruct (rename_plan_entry _ _ _ _ Hin) as (Ho & _ & c' & Hc' & ->).
        assert (Hof : o <> f) by (intros ->; contradiction).
        assert (Hnn : new_name c' o <> new_name c f)
          by (intros E; apply new_name_count in E; lia).
        destruct (list_eq_dec N.eq_dec f (new_name c f)) as [Esame|Hmoved];
          [now rewrite (Hsame Esame)|].
        specialize (Hold Hmoved).
        destruct (list_eq_dec N.eq_dec (new_name c' o) f) as [->|Hnf]; [now left|].
        unfold renames_freely. rewrite (Hframe (new_name c' o)) by assumption.
        destruct Hon as [Hnone|[(content & Ho_file) Hn_file]]; [now left|]. right.
        split; [|exact Hn_file].
        destruct (list_eq_dec N.eq_dec o (new_name c f)) as [->|Hon'].
        - rewrite Hnew.
          destruct Hhead as [Hnone|[(content' & Hf_file) _]]; [congruence|].
          rewrite Hb in Hf_file. injection Hf_file as ->. now exists content'.
        - rewrite (Hframe o) by assumption. now exists content. }
      exists d'. split.
      * rewrite Hrun. cbn [map fst snd]. now rewrite <- app_assoc.
      * intros k Hk1 Hk2. cbn [map fst snd In] in Hk1, Hk2.
        rewrite Hrest by tauto. apply Hframe; intros ->; [apply Hk1 | apply Hk2]; now left.
    + apply IH; try assumption. intros g Hg. apply Hex. now right.
Qed.

(** When no new name is taken, the loop moves every supported entry to
    its new name. *)
Lemma rename_loop_moves folder names :
  NoDup names ->
  forall c d out,
    (forall g, In g names -> dict_get g d <> None) ->
    (forall o n, In (o, n) (rename_plan unicode_lower names c) -> dict_get n d = None) ->
    forall o n, In (o, n) (rename_plan unicode_lower names c) ->
      dict_get n (snd (fst (rename_loop unicode_lower unicode_isprintable folder names c d out)))
      = dict_get o d
      /\ dict_get o (snd (fst (rename_loop unicode_lower unicode_isprintable
                                 folder names c d out))) = None.
Proof.
  induction names as [|f rest IH]; intros Hnd c d out Hex Hfresh o n Hin; [destruct Hin|].
  apply NoDup_cons_iff in Hnd as [Hf Hnd].
  cbn [rename_plan] in Hin, Hfresh. cbn [rename_loop].
  destruct (is_supported unicode_lower f) eqn:Hsup.
  - destruct (dict_get f d) as [entry|] eqn:Hb;
      [|exfalso; apply (Hex f); [now left | exact Hb]].
    assert (Hfn : f <> new_name c f).
    { intros E. specialize (Hfresh f (new_name c f) (or_introl eq_refl)).
      rewrite <- E in Hfresh. congruence. }
    destruct (rename_returns folder f (new_name c f) d entry Hb
                (or_introl (Hfresh f (new_name c f) (or_introl eq_refl))))
      as (d1 & Hren & Hnew & Hold & Hframe & _).
    rewrite Hren. cbv iota.
    specialize (Hold Hfn).
    set (out1 := out ++ [lit "Renamed " ++ f ++ lit " -> " ++ new_name c f]).
    assert (Hex1 : forall g, In g rest -> dict_get g d1 <> None).
    { intros g Hg. rewrite Hframe.
      - apply Hex. now right.
      - intros ->. contradiction.
      - intros ->. apply (Hex (new_name c f)); [now right|].
        apply (Hfresh f). now left. }
    assert (Hfresh1 : forall o' n', In (o', n') (rename_plan unicode_lower rest (c + 1)) ->
                                    dict_get n' d1 = None).
    { intros o' n' H'. pose proof (Hfresh o' n' (or_intror H')) as Hn'.
      destruct (rename_plan_entry _ _ _ _ H') as (_ & _ & c' & Hc' & ->).
      destruct (list_eq_dec N.eq_dec (new_name c' o') f) as [E|E]; [now rewrite E|].
      rewrite Hframe; [exact Hn' | exact E |].
      intros E'. apply new_name_count in E'. lia. }
    destruct (rename_loop_returns folder rest Hnd (c + 1)%Z d1 out1 Hex1
                (fun o' n' H' => or_introl (Hfresh1 o' n' H')))
      as (d' & Hrun & Hrest).
    destruct Hin as [[= <- <-]|Hin].
    + rewrite Hrun. cbn [fst snd]. split.
      * rewrite Hrest; [now rewrite Hnew, Hb | |].
        -- intros H. apply rename_plan_olds in H as [H _].
           apply (Hex (new_name c f)); [now right | apply (Hfresh f); now left].
        -- intros H. apply in_map_iff in H as ([o' n'] & E & H). simpl in E. subst n'.
           destruct (rename_plan_entry _ _ _ _ H) as (_ & _ & c' & Hc' & E).
           apply new_name_count in E. lia.
      * rewrite Hrest; [exact Hold | |].
        -- intros H. apply rename_plan_olds in H as [H _]. contradiction.
        -- intros H. apply in_map_iff in H as ([o' n'] & E & H). simpl in E. subst n'.
           specialize (Hfresh o' f (or_intror H)). congruence.
    + destruct (IH Hnd (c + 1)%Z d1 out1 Hex1 Hfresh1 o n Hin) as [H1 H2].
      split; [|exact H2]. rewrite H1.
      destruct (rename_plan_entry _ _ _ _ Hin) as (Ho & _).
      apply Hframe.
      * intros ->. contradiction.
      * intros ->. apply (Hex (new_name c f)); [now right | apply (Hfresh f); now left].
  - apply IH; try assumption. intros g Hg. apply Hex. now right.
Qed.

Lemma listing_exists (d : dict node) (g : str) :
  In g (sorted (map fst d)) -> dict_get g d <> None.
Proof.
  intros H. apply (Permutation_in _ (sorted_perm _)) in H.
  induction d as [|[k v] d IH]; simpl in *; [destruct H|].
  destruct (str_eqb k g) eqn:E; [discriminate|].
  destruct H as [H|H]; [apply str_eqb_neq in E; congruence | now apply IH].
Qed.

Lemma listing_NoDup (d : dict node) :
  NoDup (map fst d) -> NoDup (sorted (map fst d)).
Proof.
  intros H. apply (Permutation_NoDup (Permutation_sym (sorted_perm _))). exact H.
Qed.



End RenamingProperties.



(** Without that condition entries are lost: run on ten photographs it
    has named before, the script leaves two of them. *)
Example renaming_again_loses_entries :
  length ten_photos = 10%nat
  /\ snd (fst (renamephotos ascii_lower (fun _ => true) (lit "artisan_images") ten_photos))
     = [(lit "img1.jpg", File [1]); (lit "img10.jpg", File [10])].
Proof. vm_compute. split; reflexivity. Qed.

(** A directory under a new name stops the script: the renaming onto it
    raises, after the line of the first renaming was printed, and the
    entries after it keep their names. *)
Example renaming_onto_directory :
  renamephotos ascii_lower (fun _ => true) (lit "artisan_images")
    [(lit "a.jpg", File [1]); (lit "b.jpg", File [2]); (lit "c.jpg", File [3]);
     (lit "img2.jpg", Dir true)]
  = (Raise (Exception (lit "IsADirectoryError")
              (lit "[Errno 21] Is a directory: 'artisan_images/b.jpg' -> 'artisan_images/img2.jpg'")),
     [(lit "b.jpg", File [2]); (lit "c.jpg", File [3]); (lit "img2.jpg", Dir true);
      (lit "img1.jpg", File [1])],
     [lit "Renamed a.jpg -> img1.jpg"]).
Proof. vm_compute. reflexivity. Qed.

(** ** The intake is a copy *)

(** X27: a successful intake is a copy, not a move: the chosen file is
    still there with its bytes, the returned path holds the same bytes,
    and no other file has changed. *)
Theorem intake_is_a_copy IMAGE_FOLDER unicode_isalnum unicode_isprintable
    src uname ts os f dest f' :
  save_image_to_project IMAGE_FOLDER unicode_isalnum unicode_isprintable src uname ts os f
  = (Ret dest, f') ->
  dict_get src f' = dict_get src f
  /\ dict_get src f' <> None
  /\ dict_get dest f' = dict_get src f
  /\ (forall q, q <> dest -> dict_get q f' = dict_get q f).
Proof.
  intros H.
  apply save_image_to_project_returns in H as (_ & _ & Hne & Hthere & Hbytes & Hframe).
  assert (Hsrc : dict_get src f' = dict_get src f) by (apply Hframe; congruence).
  split; [exact Hsrc|]. split; [now rewrite Hsrc|]. split; assumption.
Qed.

Lemma intake_is_a_copy_witness :
  dict_get (lit "/home/alice/Pictures/photo.jpg")
    [(lit "/home/alice/Pictures/photo.jpg", [255; 216; 255]);
     (lit "artisan_images/alice_1700000000000.jpg", [255; 216; 255])]
  <> None.
Proof.
  refine (proj1 (proj2 (intake_is_a_copy (lit "artisan_images") (fun _ => false) (fun _ => true)
                          (lit "/home/alice/Pictures/photo.jpg") (lit "alice") 1700000000000
                          Copies
                          [(lit "/home/alice/Pictures/photo.jpg", [255; 216; 255])]
                          (lit "artisan_images/alice_1700000000000.jpg")
                          [(lit "/home/alice/Pictures/photo.jpg", [255; 216; 255]);
                           (lit "artisan_images/alice_1700000000000.jpg", [255; 216; 255])]
                          _))).
  vm_compute. reflexivity.
Defined.
